(** * parse_trades: lot extraction, price normalisation, filtering, sorting

    A shallow embedding of [parse_trades.py] together with the parts of the
    Python run time it calls: [str] methods, [decimal.Decimal],
    [urllib.parse.urljoin], the BeautifulSoup tree API and [sorted].  The
    run time is that of CPython 3.11 on a 64-bit machine, with the C
    implementation of [decimal] and the Unicode 14 character database.  The
    lxml parser is not part of the development: a document enters as the
    tree that [BeautifulSoup(html, "lxml")] builds for it.

    Exceptions are values: a function that may raise returns an [Exc], and
    [x <- m ;; k] passes an exception of [m] on. *)

From Stdlib Require Import List ZArith NArith QArith String Ascii Bool Lia.
From Stdlib Require Import Permutation Sorted.
From Stdlib Require Import Qpower.
Import ListNotations.

Local Open Scope N_scope.

(** ** Python strings

    A Python [str] is a sequence of Unicode code points. *)

Definition char := N.
Definition str := list char.

(** An ASCII literal as a [str]. *)
Definition lit (x : string) : str := map N_of_ascii (list_ascii_of_string x).

Definition str_eqb (a b : str) : bool :=
  if list_eq_dec N.eq_dec a b then true else false.

Definition in_ranges (rs : list (N * N)) (c : char) : bool :=
  existsb (fun r => (fst r <=? c) && (c <=? snd r)) rs.

(** [str.isspace] on one code point (Unicode 14 character database). *)
Definition whitespace_ranges : list (N * N) :=
  [(9,13); (28,32); (133,133); (160,160); (5760,5760); (8192,8202);
   (8232,8233); (8239,8239); (8287,8287); (12288,12288)].

Definition isspace (c : char) : bool := in_ranges whitespace_ranges c.

(** Code points of general category Nd, the ones [str.isdecimal] accepts
    and [Py_UNICODE_TODECIMAL] gives a value; every block starts at a digit zero
    and runs through whole decades, so the value of [c] in a block that
    starts at [lo] is [(c - lo) mod 10]. *)
Definition decimal_ranges : list (N * N) :=
  [(48,57); (1632,1641); (1776,1785); (1984,1993); (2406,2415); (2534,2543);
   (2662,2671); (2790,2799); (2918,2927); (3046,3055); (3174,3183);
   (3302,3311); (3430,3439); (3558,3567); (3664,3673); (3792,3801);
   (3872,3881); (4160,4169); (4240,4249); (6112,6121); (6160,6169);
   (6470,6479); (6608,6617); (6784,6793); (6800,6809); (6992,7001);
   (7088,7097); (7232,7241); (7248,7257); (42528,42537); (43216,43225);
   (43264,43273); (43472,43481); (43504,43513); (43600,43609);
   (44016,44025); (65296,65305); (66720,66729); (68912,68921);
   (69734,69743); (69872,69881); (69942,69951); (70096,70105);
   (70384,70393); (70736,70745); (70864,70873); (71248,71257);
   (71360,71369); (71472,71481); (71904,71913); (72016,72025);
   (72784,72793); (73040,73049); (73120,73129); (92768,92777);
   (92864,92873); (93008,93017); (120782,120831); (123200,123209);
   (123632,123641); (125264,125273); (130032,130041)].

(** Code points with Numeric_Type Digit that are not Nd (superscripts,
    circled digits and the like); [str.isdigit] accepts them as well. *)
Definition other_digit_ranges : list (N * N) :=
  [(178,179); (185,185); (4969,4977); (6618,6618); (8304,8304); (8308,8313);
   (8320,8329); (9312,9320); (9332,9340); (9352,9360); (9450,9450);
   (9461,9469); (9471,9471); (10102,10110); (10112,10120); (10122,10130);
   (68160,68163); (69216,69224); (69714,69722); (127232,127242)].

(** [Py_UNICODE_TODECIMAL]. *)
Definition to_decimal (c : char) : option N :=
  match find (fun r => (fst r <=? c) && (c <=? snd r)) decimal_ranges with
  | Some (lo, _) => Some ((c - lo) mod 10)
  | None => None
  end.

Definition char_isdigit (c : char) : bool :=
  in_ranges decimal_ranges c || in_ranges other_digit_ranges c.

(** [str.isdigit]: every character is a digit and there is at least one. *)
Definition isdigit (s : str) : bool :=
  match s with
  | [] => false
  | _ => forallb char_isdigit s
  end.

(** [str.lstrip], [str.rstrip] and [str.strip]; [p] tells which characters
    are removed. *)
Fixpoint lstrip_with (p : char -> bool) (s : str) : str :=
  match s with
  | c :: r => if p c then lstrip_with p r else s
  | [] => []
  end.

Definition rstrip_with (p : char -> bool) (s : str) : str :=
  rev (lstrip_with p (rev s)).

Definition strip_with (p : char -> bool) (s : str) : str :=
  rstrip_with p (lstrip_with p s).

(** [str.strip()] without argument removes white space. *)
Definition strip (s : str) : str := strip_with isspace s.

(** [starts_with p s] is the rest of [s] after the prefix [p], if any. *)
Fixpoint starts_with (p s : str) : option str :=
  match p, s with
  | [], _ => Some s
  | a :: p', b :: s' => if a =? b then starts_with p' s' else None
  | _ :: _, [] => None
  end.

Definition is_prefix (p s : str) : bool :=
  match starts_with p s with Some _ => true | None => false end.

(** [str.replace(old, new)]: the occurrences of [old] are taken from left to
    right and do not overlap.  [skip] counts the characters of a matched
    occurrence that are still to be dropped.  With [old] empty, [new] goes
    before every character and at the end. *)
Fixpoint replace_from (old new : str) (skip : nat) (s : str) : str :=
  match s with
  | [] => match old with [] => new | _ => [] end
  | c :: r =>
      match skip with
      | S k => replace_from old new k r
      | O =>
          match old with
          | [] => new ++ c :: replace_from old new O r
          | _ :: _ =>
              if is_prefix old s
              then new ++ replace_from old new (List.length old - 1) r
              else c :: replace_from old new O r
          end
      end
  end.

Definition replace (old new s : str) : str := replace_from old new O s.

(** [sep.join(parts)]. *)
Fixpoint join (sep : str) (parts : list str) : str :=
  match parts with
  | [] => []
  | [p] => p
  | p :: ps => p ++ sep ++ join sep ps
  end.

(** ** Exceptions *)

Inductive exn := ValueError | InvalidOperation.

Inductive Exc (A : Type) :=
| Ok (a : A)
| Raise (e : exn).
Arguments Ok {A} a.
Arguments Raise {A} e.

Definition bind {A B} (m : Exc A) (k : A -> Exc B) : Exc B :=
  match m with
  | Ok a => k a
  | Raise e => Raise e
  end.

Notation "x <- m ;; k" := (bind m (fun x => k))
  (at level 61, m at next level, right associativity).
Notation "' pat <- m ;; k" := (bind m (fun x => let 'pat := x in k))
  (at level 61, pat pattern, m at next level, right associativity).

(** ** decimal.Decimal

    A [Decimal] keeps sign, coefficient and exponent apart, so that
    [Decimal("1.50")] and [Decimal("1.5")] are different values that compare
    equal. *)

Inductive Decimal :=
| Finite (negative : bool) (coefficient : N) (exponent : Z)
| Infinity (negative : bool)
| NaN (negative signaling : bool) (payload : N).

Definition MAX_EMAX : Z := 999999999999999999%Z.
Definition MIN_ETINY : Z := (-1999999999999999997)%Z.

Definition is_ascii_digit (c : char) : bool := (48 <=? c) && (c <=? 57).

Fixpoint span (p : char -> bool) (s : str) : str * str :=
  match s with
  | c :: r => if p c then let (a, b) := span p r in (c :: a, b) else ([], s)
  | [] => ([], [])
  end.

Definition digits_value (ds : str) : N :=
  fold_left (fun acc c => 10 * acc + (c - 48)) ds 0.

(** The text as the C parser sees it: white space removed at both ends,
    underscores dropped, digits of other scripts turned into ASCII digits.
    Any other character outside ASCII, and NUL, makes the conversion fail. *)
Fixpoint ascii_chars (s : str) : option str :=
  match s with
  | [] => Some []
  | c :: r =>
      if c =? 95 then ascii_chars r
      else
        let head :=
          if (0 <? c) && (c <=? 127) then Some c
          else option_map (fun d => 48 + d) (to_decimal c) in
        match head, ascii_chars r with
        | Some a, Some r' => Some (a :: r')
        | _, _ => None
        end
  end.

Definition numeric_as_ascii (s : str) : option str := ascii_chars (strip s).

Definition lower (c : char) : char :=
  if (65 <=? c) && (c <=? 90) then c + 32 else c.

(** Case-insensitive prefix test against a lower-case keyword. *)
Definition starts_with_nocase (kw s : str) : option str :=
  if is_prefix kw (map lower (firstn (List.length kw) s))
  then Some (skipn (List.length kw) s) else None.

Definition parse_sign (s : str) : bool * str :=
  match s with
  | 43 :: r => (false, r)
  | 45 :: r => (true, r)
  | _ => (false, s)
  end.

(** Diagnostic digits after [nan] or [snan]. *)
Definition parse_payload (s : str) : option N :=
  if forallb is_ascii_digit s then Some (digits_value s) else None.

(** [exponent-part] after the indicator: an optional sign and digits. *)
Definition parse_exponent (s : str) : option Z :=
  let (neg, ds) := parse_sign s in
  match ds with
  | [] => None
  | _ =>
      if forallb is_ascii_digit ds
      then Some (if neg then - Z.of_N (digits_value ds)
                 else Z.of_N (digits_value ds))%Z
      else None
  end.

Fixpoint drop_zeros (s : str) : str :=
  match s with
  | 48 :: r => drop_zeros r
  | _ => s
  end.

(** A finite value is kept only if it is representable without rounding or
    clamping in the widest context of the C implementation (64 bit). *)
Definition fits (ndigits : nat) (exp : Z) : bool :=
  ((exp + Z.of_nat ndigits - 1 <=? MAX_EMAX) && (MIN_ETINY <=? exp))%Z.

(** [decimal-part [exponent-part]]. *)
Definition parse_finite (neg : bool) (s : str) : option Decimal :=
  let (ip, r1) := span is_ascii_digit s in
  let (fp, r2) :=
    match r1 with
    | 46 :: r => span is_ascii_digit r
    | _ => ([], r1)
    end in
  match ip ++ fp with
  | [] => None
  | ds =>
      let e :=
        match r2 with
        | [] => Some 0%Z
        | c :: r => if (c =? 101) || (c =? 69) then parse_exponent r else None
        end in
      match e with
      | None => None
      | Some e =>
          let exp := (e - Z.of_nat (List.length fp))%Z in
          let ndigits := Nat.max 1 (List.length (drop_zeros ds)) in
          if fits ndigits exp
          then Some (Finite neg (digits_value ds) exp)
          else None
      end
  end.

Definition parse_numeric_string (s : str) : option Decimal :=
  let (neg, body) := parse_sign s in
  match starts_with_nocase (lit "nan") body with
  | Some r => option_map (NaN neg false) (parse_payload r)
  | None =>
      match starts_with_nocase (lit "snan") body with
      | Some r => option_map (NaN neg true) (parse_payload r)
      | None =>
          match starts_with_nocase (lit "inf") body with
          | Some r =>
              if str_eqb r [] || str_eqb (map lower r) (lit "inity")
              then Some (Infinity neg) else None
          | None => parse_finite neg body
          end
      end
  end.

(** [Decimal(text)] for a [str] argument under the default context, which
    traps [InvalidOperation]. *)
Definition Decimal_of_str (text : str) : Exc Decimal :=
  match numeric_as_ascii text with
  | None => Raise InvalidOperation
  | Some a =>
      match parse_numeric_string a with
      | Some d => Ok d
      | None => Raise InvalidOperation
      end
  end.

(** ** parse_price *)

Definition NBSP : str := [160].
Definition RUB : str := [1088; 1091; 1073].

Definition clean_price (text : str) : str :=
  strip
    (replace (lit ",") (lit ".")
       (replace (lit " ") []
          (replace RUB []
             (replace (RUB ++ lit ".") []
                (replace NBSP (lit " ") text))))).

Definition parse_price (text : str) : Exc Decimal :=
  let cleaned := clean_price text in
  match cleaned with
  | [] => Raise ValueError
  | _ =>
      match Decimal_of_str cleaned with
      | Ok d => Ok d
      | Raise InvalidOperation => Raise ValueError
      | Raise e => Raise e
      end
  end.


(** ** Comparing Decimals

    The numeric value of a finite Decimal is [(-1)^sign * coefficient *
    10^exponent]; ordering comparisons are made on that value, with the
    infinities below and above every finite value.  An ordering comparison
    with a NaN operand signals [InvalidOperation], which the default context
    traps. *)

Definition signed (neg : bool) (c : N) : Z :=
  if neg then (- Z.of_N c)%Z else Z.of_N c.

Definition value (neg : bool) (c : N) (e : Z) : Q :=
  (inject_Z (signed neg c) * Qpower (10 # 1) e)%Q.

Definition is_nan (d : Decimal) : bool :=
  match d with NaN _ _ _ => true | _ => false end.

(** [Decimal._cmp] on operands that are not NaN. *)
Definition Decimal_cmp (a b : Decimal) : comparison :=
  match a, b with
  | Finite n1 c1 e1, Finite n2 c2 e2 => (value n1 c1 e1 ?= value n2 c2 e2)%Q
  | Infinity n1, Infinity n2 =>
      match n1, n2 with
      | true, false => Lt
      | false, true => Gt
      | _, _ => Eq
      end
  | Infinity n, _ => if n then Lt else Gt
  | _, Infinity n => if n then Gt else Lt
  | _, _ => Eq
  end.

Definition ltb (a b : Decimal) : bool :=
  match Decimal_cmp a b with Lt => true | _ => false end.

Definition gtb (a b : Decimal) : bool :=
  match Decimal_cmp a b with Gt => true | _ => false end.

Definition eqb (a b : Decimal) : bool :=
  match Decimal_cmp a b with Eq => true | _ => false end.

Definition compare_check_nans (a b : Decimal) : Exc unit :=
  if is_nan a || is_nan b then Raise InvalidOperation else Ok tt.

(** [a < b] *)
Definition Decimal_lt (a b : Decimal) : Exc bool :=
  _ <- compare_check_nans a b ;; Ok (ltb a b).

(** [a > b] *)
Definition Decimal_gt (a b : Decimal) : Exc bool :=
  _ <- compare_check_nans a b ;; Ok (gtb a b).

(** [a >= b] *)
Definition Decimal_ge (a b : Decimal) : Exc bool :=
  _ <- compare_check_nans a b ;; Ok (negb (ltb a b)).

Definition Decimal_zero : Decimal := Finite false 0 0.

(** ** Lots *)

Record Lot := {
  code : str;
  title : str;
  price : Decimal;
  url : option str
}.

(** ** filter_lots_by_price *)

Definition in_range (min_price max_price : option Decimal) (price : Decimal)
  : Exc bool :=
  below <- match min_price with
           | Some lo => Decimal_lt price lo
           | None => Ok false
           end ;;
  if below then Ok false
  else
    above <- match max_price with
             | Some hi => Decimal_gt price hi
             | None => Ok false
             end ;;
    if above then Ok false else Ok true.

(** A list comprehension with a condition that may raise. *)
Fixpoint filterM {A} (p : A -> Exc bool) (l : list A) : Exc (list A) :=
  match l with
  | [] => Ok []
  | x :: r =>
      keep <- p x ;;
      r' <- filterM p r ;;
      Ok (if keep then x :: r' else r')
  end.

Definition filter_lots_by_price (lots : list Lot)
    (min_price max_price : option Decimal) : Exc (list Lot) :=
  match min_price, max_price with
  | None, None => Ok lots
  | _, _ => filterM (fun lot => in_range min_price max_price (price lot)) lots
  end.

(** ** sorted(filtered, key=lambda lot: lot["price"], reverse=True)

    [list.sort] is stable and compares keys with [<] only.  With
    [reverse=True] it reverses the list, sorts it in ascending order and
    reverses the result, which is what keeps equal keys in their input
    order.  The ascending sort is given here as insertion from the right
    end; the merge sort of the run time compares other pairs, but on keys
    that [<] orders it returns the same list, and on two or more elements
    either sort compares every element at least once, so that both raise
    when a key is a NaN. *)

Fixpoint insert_by {A} (key : A -> Decimal) (x : A) (s : list A)
  : Exc (list A) :=
  match s with
  | [] => Ok [x]
  | y :: s' =>
      lt <- Decimal_lt (key y) (key x) ;;
      if lt then (r <- insert_by key x s' ;; Ok (y :: r))
      else Ok (x :: s)
  end.

Fixpoint stable_sort {A} (key : A -> Decimal) (l : list A) : Exc (list A) :=
  match l with
  | [] => Ok []
  | x :: r => s <- stable_sort key r ;; insert_by key x s
  end.

Definition sorted {A} (l : list A) (key : A -> Decimal) (reverse : bool)
  : Exc (list A) :=
  if reverse
  then (s <- stable_sort key (rev l) ;; Ok (rev s))
  else stable_sort key l.

(** The sorting step of [main]. *)
Definition sort_descending (lots : list Lot) : Exc (list Lot) :=
  sorted lots price true.

(** ** urllib.parse.urljoin

    After [urllib/parse.py] of CPython 3.11.  Two checks of [urlsplit] go
    through tables that are taken as given: the NFKC normal form of a
    network location that is not ASCII, and the validity of an address
    written between brackets. *)

Definition contains (c : char) (s : str) : bool := existsb (N.eqb c) s.

(** [s.partition(c)] for a one-character separator: the text before the
    first [c], and the text after it when [c] occurs. *)
Fixpoint partition_at (c : char) (s : str) : str * option str :=
  match s with
  | [] => ([], None)
  | x :: r =>
      if x =? c then ([], Some r)
      else let (a, b) := partition_at c r in (x :: a, b)
  end.

(** [s.split(c)] for a one-character separator. *)
Fixpoint split_on (c : char) (s : str) : list str :=
  match s with
  | [] => [[]]
  | x :: r =>
      if x =? c then [] :: split_on c r
      else
        match split_on c r with
        | p :: ps => (x :: p) :: ps
        | [] => [[x]]
        end
  end.

(** The text after the last [c], or all of [s]: [s.rpartition(c)[2]]. *)
Definition after_last (c : char) (s : str) : str :=
  List.last (split_on c s) [].

Definition uses_relative : list str :=
  map lit [""; "ftp"; "http"; "gopher"; "nntp"; "imap"; "wais"; "file";
           "https"; "shttp"; "mms"; "prospero"; "rtsp"; "rtspu"; "sftp";
           "svn"; "svn+ssh"; "ws"; "wss"]%string.

Definition uses_netloc : list str :=
  map lit [""; "ftp"; "http"; "gopher"; "nntp"; "telnet"; "imap"; "wais";
           "file"; "mms"; "https"; "shttp"; "snews"; "prospero"; "rtsp";
           "rtspu"; "rsync"; "svn"; "svn+ssh"; "sftp"; "nfs"; "git";
           "git+ssh"; "ws"; "wss"]%string.

Definition uses_params : list str :=
  map lit [""; "ftp"; "hdl"; "prospero"; "http"; "imap"; "https"; "shttp";
           "rtsp"; "rtspu"; "sip"; "sips"; "mms"; "sftp"; "tel"]%string.

Definition mem (s : str) (l : list str) : bool := existsb (str_eqb s) l.

Definition is_ascii_alpha (c : char) : bool :=
  ((65 <=? c) && (c <=? 90)) || ((97 <=? c) && (c <=? 122)).

Definition is_scheme_char (c : char) : bool :=
  is_ascii_alpha c || is_ascii_digit c
  || (c =? 43) || (c =? 45) || (c =? 46).

Definition is_c0_or_space (c : char) : bool := c <=? 32.

Definition is_tab_cr_lf (c : char) : bool :=
  (c =? 9) || (c =? 13) || (c =? 10).

Definition remove_unsafe (s : str) : str :=
  filter (fun c => negb (is_tab_cr_lf c)) s.

Definition nonempty (s : str) : bool :=
  match s with [] => false | _ => true end.

Record SplitResult := {
  sr_scheme : str; sr_netloc : str; sr_path : str;
  sr_query : str; sr_fragment : str
}.

Record ParseResult := {
  pr_scheme : str; pr_netloc : str; pr_path : str; pr_params : str;
  pr_query : str; pr_fragment : str
}.

(** [_splitnetloc(url, 2)] on the text after the two slashes. *)
Definition splitnetloc (s : str) : str * str :=
  span (fun c => negb ((c =? 47) || (c =? 63) || (c =? 35))) s.

(** [_splitparams] *)
Definition splitparams (u : str) : str * str :=
  if contains 47 u then
    let segs := split_on 47 u in
    let tail := List.last segs [] in
    let head := firstn (List.length u - List.length tail) u in
    match partition_at 59 tail with
    | (a, Some b) => (head ++ a, b)
    | (_, None) => (u, [])
    end
  else
    match partition_at 59 u with
    | (a, Some b) => (a, b)
    | (a, None) => (a, [])
    end.

(** [urlunsplit] and [urlunparse] *)
Definition urlunsplit (scheme netloc u query fragment : str) : str :=
  let u :=
    if nonempty netloc
       || (nonempty scheme && mem scheme uses_netloc
           && negb (is_prefix (lit "//") u))
    then
      let u := if nonempty u && negb (is_prefix (lit "/") u)
               then lit "/" ++ u else u in
      lit "//" ++ netloc ++ u
    else u in
  let u := if nonempty scheme then scheme ++ lit ":" ++ u else u in
  let u := if nonempty query then u ++ lit "?" ++ query else u in
  if nonempty fragment then u ++ lit "#" ++ fragment else u.

Definition urlunparse (p : ParseResult) : str :=
  let u := if nonempty (pr_params p)
           then pr_path p ++ lit ";" ++ pr_params p else pr_path p in
  urlunsplit (pr_scheme p) (pr_netloc p) u (pr_query p) (pr_fragment p).

(** [segments[1:-1] = filter(None, segments[1:-1])] *)
Definition drop_empty_inner (segments : list str) : list str :=
  match segments with
  | first :: (_ :: _) as rest =>
      first :: filter nonempty (removelast rest) ++ [List.last rest []]
  | _ => segments
  end.

(** The loop over the segments; [resolved] is kept in reverse. *)
Fixpoint resolve (segments : list str) (resolved : list str) : list str :=
  match segments with
  | [] => rev resolved
  | seg :: r =>
      if str_eqb seg (lit "..") then resolve r (tl resolved)
      else if str_eqb seg (lit ".") then resolve r resolved
      else resolve r (seg :: resolved)
  end.

Section Urllib.

(** [unicodedata.normalize("NFKC", s)] *)
Variable nfkc : str -> str.
(** Whether [_check_bracketed_host] accepts the host. *)
Variable bracketed_host_ok : str -> bool.

Definition checknetloc (netloc : str) : Exc unit :=
  if negb (nonempty netloc) || forallb (fun c => c <? 128) netloc
  then Ok tt
  else
    let n := filter (fun c => negb ((c =? 64) || (c =? 58) || (c =? 35)
                                    || (c =? 63))) netloc in
    let n2 := nfkc n in
    if str_eqb n n2 then Ok tt
    else if existsb (fun c => contains c n2) [47; 63; 35; 64; 58]
    then Raise ValueError else Ok tt.

Definition check_bracketed_netloc (netloc : str) : Exc unit :=
  let hostname_and_port := after_last 64 netloc in
  match partition_at 91 hostname_and_port with
  | (before_bracket, Some bracketed) =>
      if nonempty before_bracket then Raise ValueError
      else
        let (hostname, port) := partition_at 93 bracketed in
        let port := match port with Some p => p | None => [] end in
        if nonempty port && negb (is_prefix (lit ":") port)
        then Raise ValueError
        else if bracketed_host_ok hostname then Ok tt
             else Raise ValueError
  | (_, None) =>
      if bracketed_host_ok (fst (partition_at 58 hostname_and_port))
      then Ok tt else Raise ValueError
  end.

Definition urlsplit (u scheme : str) : Exc SplitResult :=
  let u := remove_unsafe (lstrip_with is_c0_or_space u) in
  let scheme := remove_unsafe (strip_with is_c0_or_space scheme) in
  let (scheme, u) :=
    match partition_at 58 u with
    | ((c :: _) as pre, Some rest) =>
        if is_ascii_alpha c && forallb is_scheme_char pre
        then (map lower pre, rest) else (scheme, u)
    | _ => (scheme, u)
    end in
  '(netloc, u) <-
    match starts_with (lit "//") u with
    | Some rest =>
        let (netloc, u) := splitnetloc rest in
        let open := contains 91 netloc in
        let close := contains 93 netloc in
        if (open && negb close) || (close && negb open)
        then Raise ValueError
        else
          _ <- (if open && close then check_bracketed_netloc netloc
                else Ok tt) ;;
          Ok (netloc, u)
    | None => Ok ([], u)
    end ;;
  let (u, fragment) :=
    match partition_at 35 u with
    | (a, Some b) => (a, b)
    | (a, None) => (a, [])
    end in
  let (u, query) :=
    match partition_at 63 u with
    | (a, Some b) => (a, b)
    | (a, None) => (a, [])
    end in
  _ <- checknetloc netloc ;;
  Ok {| sr_scheme := scheme; sr_netloc := netloc; sr_path := u;
        sr_query := query; sr_fragment := fragment |}.

Definition urlparse (u scheme : str) : Exc ParseResult :=
  r <- urlsplit u scheme ;;
  let (path, params) :=
    if mem (sr_scheme r) uses_params && contains 59 (sr_path r)
    then splitparams (sr_path r) else (sr_path r, []) in
  Ok {| pr_scheme := sr_scheme r; pr_netloc := sr_netloc r;
        pr_path := path; pr_params := params;
        pr_query := sr_query r; pr_fragment := sr_fragment r |}.

Definition urljoin (base u : str) : Exc str :=
  if negb (nonempty base) then Ok u
  else if negb (nonempty u) then Ok base
  else
    b <- urlparse base [] ;;
    r <- urlparse u (pr_scheme b) ;;
    let scheme := pr_scheme r in
    if negb (str_eqb scheme (pr_scheme b)) || negb (mem scheme uses_relative)
    then Ok u
    else if mem scheme uses_netloc && nonempty (pr_netloc r)
    then Ok (urlunparse r)
    else
      let netloc := if mem scheme uses_netloc then pr_netloc b
                    else pr_netloc r in
      if negb (nonempty (pr_path r)) && negb (nonempty (pr_params r))
      then
        Ok (urlunparse
              {| pr_scheme := scheme; pr_netloc := netloc;
                 pr_path := pr_path b; pr_params := pr_params b;
                 pr_query := if nonempty (pr_query r) then pr_query r
                             else pr_query b;
                 pr_fragment := pr_fragment r |})
      else
        let base_parts := split_on 47 (pr_path b) in
        let base_parts :=
          if nonempty (List.last base_parts [])
          then removelast base_parts else base_parts in
        let segments :=
          if is_prefix (lit "/") (pr_path r)
          then split_on 47 (pr_path r)
          else drop_empty_inner (base_parts ++ split_on 47 (pr_path r)) in
        let resolved := resolve segments [] in
        let last_seg := List.last segments [] in
        let resolved :=
          if str_eqb last_seg (lit ".") || str_eqb last_seg (lit "..")
          then resolved ++ [[]] else resolved in
        let path := join (lit "/") resolved in
        Ok (urlunparse
              {| pr_scheme := scheme; pr_netloc := netloc;
                 pr_path := if nonempty path then path else lit "/";
                 pr_params := pr_params r; pr_query := pr_query r;
                 pr_fragment := pr_fragment r |}).

End Urllib.

(** ** The BeautifulSoup tree

    A parsed document is a tree of tags and strings.  Strings come in
    classes; [get_text] of an ordinary tag keeps strings of class
    [NavigableString] and [CData] and passes over comments and the other
    special classes.  A tag is found by its whole name, and the value of an
    attribute such as [href] is a string. *)

Inductive string_class := NavigableString | CData | Special.

#[local] Unset Elimination Schemes.
Inductive PageElement :=
| Text (cls : string_class) (content : str)
| Tag (name : str) (attrs : list (str * str)) (contents : list PageElement).
#[local] Set Elimination Schemes.

(** [element.descendants]: the nodes below [element] in document order. *)
Fixpoint descendants (e : PageElement) : list PageElement :=
  match e with
  | Text _ _ => []
  | Tag _ _ contents => flat_map (fun c => c :: descendants c) contents
  end.

Definition is_tag_named (name : str) (e : PageElement) : bool :=
  match e with
  | Tag n _ _ => str_eqb n name
  | Text _ _ => false
  end.

(** [element.find_all(name)] *)
Definition find_all (name : str) (e : PageElement) : list PageElement :=
  filter (is_tag_named name) (descendants e).

(** [tag[key]], when the tag has the attribute. *)
Fixpoint get_attr (key : str) (attrs : list (str * str)) : option str :=
  match attrs with
  | [] => None
  | (k, v) :: r => if str_eqb k key then Some v else get_attr key r
  end.

Definition attr_of (key : str) (e : PageElement) : option str :=
  match e with
  | Tag _ attrs _ => get_attr key attrs
  | Text _ _ => None
  end.

(** [element.find(name, key=True)]: the first tag below [element] with
    that name which has the attribute [key], with the attribute's value. *)
Definition find_with_attr (name key : str) (e : PageElement)
  : option (PageElement * str) :=
  hd_error
    (flat_map (fun d => match attr_of key d with
                        | Some v => if is_tag_named name d then [(d, v)] else []
                        | None => []
                        end)
       (descendants e)).

Definition interesting (cls : string_class) : bool :=
  match cls with
  | NavigableString | CData => true
  | Special => false
  end.

(** The strings of [_all_strings(strip=True)]: stripped, empty ones left
    out. *)
Definition stripped_strings (e : PageElement) : list str :=
  flat_map (fun d => match d with
                     | Text cls content =>
                         if interesting cls && nonempty (strip content)
                         then [strip content] else []
                     | Tag _ _ _ => []
                     end)
    (descendants e).

(** [element.get_text(separator, strip=True)] *)
Definition get_text (separator : str) (e : PageElement) : str :=
  join separator (stripped_strings e).

(** ** parse_lots *)

Definition BASE_URL : str := lit "https://torgi.org".

Section Extraction.

(** [BeautifulSoup(html, "lxml")]: the tree the lxml parser builds. *)
Variable BeautifulSoup : str -> PageElement.
Variable nfkc : str -> str.
Variable bracketed_host_ok : str -> bool.

(** One turn of the loop over the rows; [None] stands for [continue].
    The pattern on [cells] is the test [len(cells) < 7] together with the
    accesses [cells[0]], [cells[1]] and [cells[5]]. *)
Definition parse_row (row : PageElement) : Exc (option Lot) :=
  match find_all (lit "td") row with
  | cell0 :: name_cell :: _ :: _ :: _ :: cell5 :: _ :: _ =>
      let code_text := get_text (lit " ") cell0 in
      if negb (isdigit code_text) then Ok None
      else
        let code := code_text in
        let title := get_text (lit " ") name_cell in
        let link_tag := find_with_attr (lit "a") (lit "href") name_cell in
        url <- match link_tag with
               | Some (_, href) =>
                   u <- urljoin nfkc bracketed_host_ok BASE_URL href ;;
                   Ok (Some u)
               | None => Ok None
               end ;;
        let price_text := get_text (lit " ") cell5 in
        match parse_price price_text with
        | Ok price =>
            Ok (Some {| code := code; title := title;
                        price := price; url := url |})
        | Raise ValueError => Ok None
        | Raise e => Raise e
        end
  | _ => Ok None
  end.

(** The loop, with [lots] the list built so far. *)
Fixpoint parse_rows (rows : list PageElement) (lots : list Lot)
  : Exc (list Lot) :=
  match rows with
  | [] => Ok lots
  | row :: rest =>
      r <- parse_row row ;;
      match r with
      | Some lot => parse_rows rest (lots ++ [lot])
      | None => parse_rows rest lots
      end
  end.

Definition parse_lots (html : str) : Exc (list Lot) :=
  let soup := BeautifulSoup html in
  parse_rows (find_all (lit "tr") soup) [].

End Extraction.


(** ** str(Decimal)

    What [f"{lot['price']}"] prints: [Decimal.__str__], in scientific
    notation when the exponent is positive or the value has more than six
    leading zeros after the point. *)

Fixpoint digits_fuel (fuel : nat) (n : N) (acc : str) : str :=
  match fuel with
  | O => acc
  | S f =>
      let acc' := (48 + n mod 10) :: acc in
      if n / 10 =? 0 then acc' else digits_fuel f (n / 10) acc'
  end.

(** The decimal digits of [n], without leading zeros; ["0"] for zero. *)
Definition digits_of (n : N) : str :=
  digits_fuel (S (N.to_nat (N.log2 n))) n [].

Definition zeros (k : nat) : str := repeat 48 k.

Definition sign_str (neg : bool) : str := if neg then lit "-" else [].

(** ["%+d" % k] *)
Definition signed_str (k : Z) : str :=
  (if (k <? 0)%Z then lit "-" else lit "+") ++ digits_of (Z.abs_N k).

Definition Decimal_str (d : Decimal) : str :=
  match d with
  | Infinity neg => sign_str neg ++ lit "Infinity"
  | NaN neg signaling payload =>
      sign_str neg ++ (if signaling then lit "sNaN" else lit "NaN")
      ++ (if payload =? 0 then [] else digits_of payload)
  | Finite neg c e =>
      let int := digits_of c in
      let len := Z.of_nat (List.length int) in
      let leftdigits := (e + len)%Z in
      let dotplace :=
        if ((e <=? 0) && (-6 <? leftdigits))%Z then leftdigits else 1%Z in
      let (intpart, fracpart) :=
        if (dotplace <=? 0)%Z
        then (lit "0", lit "." ++ zeros (Z.to_nat (- dotplace)) ++ int)
        else if (len <=? dotplace)%Z
        then (int ++ zeros (Z.to_nat (dotplace - len)), [])
        else (firstn (Z.to_nat dotplace) int,
              lit "." ++ skipn (Z.to_nat dotplace) int) in
      let exp :=
        if (leftdigits =? dotplace)%Z then []
        else lit "E" ++ signed_str (leftdigits - dotplace) in
      sign_str neg ++ intpart ++ fracpart ++ exp
  end.

(** ** The console

    [input] and [print] act on a world of lines still to be read and of
    texts written so far.  A computation on the console returns a result,
    or fails with an exception or at the end of the input, and leaves a
    world behind. *)

Inductive failure := Exception (e : exn) | EOFError.

Record World := { stdin : list str; stdout : list str }.

Inductive Result (A : Type) :=
| Done (a : A)
| Failed (f : failure).
Arguments Done {A} a.
Arguments Failed {A} f.

Definition IO (A : Type) : Type := World -> Result A * World.

Definition io_bind {A B} (m : IO A) (k : A -> IO B) : IO B :=
  fun w =>
    match m w with
    | (Done a, w') => k a w'
    | (Failed f, w') => (Failed f, w')
    end.

Notation "x <~ m ;; k" := (io_bind m (fun x => k))
  (at level 61, m at next level, right associativity).

Definition io_ret {A} (a : A) : IO A := fun w => (Done a, w).

(** A computation that raises, run on the console. *)
Definition lift {A} (m : Exc A) : IO A :=
  fun w =>
    match m with
    | Ok a => (Done a, w)
    | Raise e => (Failed (Exception e), w)
    end.

Definition write (s : str) (w : World) : World :=
  {| stdin := stdin w; stdout := stdout w ++ [s] |}.

(** [print(s)] *)
Definition print (s : str) : IO unit :=
  fun w => (Done tt, write (s ++ [10]) w).

(** ** ask_price *)

Definition retry_message : str :=
  [1053; 1077; 32; 1091; 1076; 1072; 1083; 1086; 1089; 1100; 32; 1088; 1072;
   1089; 1087; 1086; 1079; 1085; 1072; 1090; 1100; 32; 1095; 1080; 1089;
   1083; 1086; 44; 32; 1087; 1086; 1087; 1088; 1086; 1073; 1091; 1081; 1090;
   1077; 32; 1077; 1097; 1105; 32; 1088; 1072; 1079; 46].

(** The loop of [ask_price] on the lines still to be read; [out] is what
    has been written.  Each turn writes the prompt and reads one line. *)
Fixpoint ask_price_from (prompt : str) (lines : list str) (out : list str)
  : Result (option Decimal) * World :=
  match lines with
  | [] => (Failed EOFError, {| stdin := []; stdout := out ++ [prompt] |})
  | line :: rest =>
      let out := out ++ [prompt] in
      let raw := strip line in
      match raw with
      | [] => (Done None, {| stdin := rest; stdout := out |})
      | _ =>
          match parse_price raw with
          | Ok d => (Done (Some d), {| stdin := rest; stdout := out |})
          | Raise ValueError =>
              ask_price_from prompt rest (out ++ [retry_message ++ [10]])
          | Raise e =>
              (Failed (Exception e), {| stdin := rest; stdout := out |})
          end
      end
  end.

Definition ask_price (prompt : str) : IO (option Decimal) :=
  fun w => ask_price_from prompt (stdin w) (stdout w).

(** ** main

    The part of [main] between the reading of the page and the JSON file:
    [html] is the text that the file or the site gave, [min_arg] and
    [max_arg] are the values of [--min-price] and [--max-price].  The
    result is the list [sorted_lots]. *)

Definition range_message : str :=
  [1042; 1074; 1077; 1076; 1080; 1090; 1077; 32; 1076; 1080; 1072; 1087;
   1072; 1079; 1086; 1085; 32; 1094; 1077; 1085; 32; 40; 1084; 1086; 1078;
   1085; 1086; 32; 1086; 1089; 1090; 1072; 1074; 1080; 1090; 1100; 32; 1087;
   1091; 1089; 1090; 1099; 1084; 41; 58].

Definition min_prompt : str :=
  [1052; 1080; 1085; 1080; 1084; 1072; 1083; 1100; 1085; 1072; 1103; 32;
   1094; 1077; 1085; 1072; 32; 40; 1088; 1091; 1073; 41; 44; 32; 1087; 1091;
   1089; 1090; 1086; 32; 61; 61; 32; 1073; 1077; 1079; 32; 1086; 1075; 1088;
   1072; 1085; 1080; 1095; 1077; 1085; 1080; 1103; 58; 32].

Definition max_prompt : str :=
  [1052; 1072; 1082; 1089; 1080; 1084; 1072; 1083; 1100; 1085; 1072; 1103;
   32; 1094; 1077; 1085; 1072; 32; 40; 1088; 1091; 1073; 41; 44; 32; 1087;
   1091; 1089; 1090; 1086; 32; 61; 61; 32; 1073; 1077; 1079; 32; 1086; 1075;
   1088; 1072; 1085; 1080; 1095; 1077; 1085; 1080; 1103; 58; 32].

Definition parse_price_arg (raw : option str) : Exc (option Decimal) :=
  match raw with
  | None => Ok None
  | Some raw =>
      match strip raw with
      | [] => Ok None
      | raw => d <- parse_price raw ;; Ok (Some d)
      end
  end.

(** The line printed for a lot: price, title, and the address or a dash. *)
Definition lot_line (lot : Lot) : str :=
  Decimal_str (price lot) ++ lit " " ++ RUB ++ lit ". | " ++ title lot
  ++ lit " | "
  ++ match url lot with
     | Some ((_ :: _) as u) => u
     | _ => lit "-"
     end.

Fixpoint print_lots (lots : list Lot) : IO unit :=
  match lots with
  | [] => io_ret tt
  | lot :: rest => _ <~ print (lot_line lot) ;; print_lots rest
  end.

Section Program.

Variable BeautifulSoup : str -> PageElement.
Variable nfkc : str -> str.
Variable bracketed_host_ok : str -> bool.

Definition main (html : str) (min_arg max_arg : option str)
  : IO (list Lot) :=
  lots <~ lift (parse_lots BeautifulSoup nfkc bracketed_host_ok html) ;;
  min_price <~ lift (parse_price_arg min_arg) ;;
  max_price <~ lift (parse_price_arg max_arg) ;;
  bounds <~ match min_price, max_price with
            | None, None =>
                _ <~ print range_message ;;
                lo <~ ask_price min_prompt ;;
                hi <~ ask_price max_prompt ;;
                io_ret (lo, hi)
            | _, _ => io_ret (min_price, max_price)
            end ;;
  filtered <~ lift (filter_lots_by_price lots (fst bounds) (snd bounds)) ;;
  sorted_lots <~ lift (sorted filtered price true) ;;
  _ <~ print_lots sorted_lots ;;
  io_ret sorted_lots.

End Program.

(** * Specification *)

(** ** The order of Decimals that are numbers *)

Definition numeric (d : Decimal) : Prop := is_nan d = false.

(** [a <= b] on values: [a] does not compare greater than [b]. *)
Definition le (a b : Decimal) : Prop := Decimal_cmp a b <> Gt.

Definition rank (d : Decimal) : Z :=
  match d with
  | Infinity true => (-1)%Z
  | Infinity false => 1%Z
  | _ => 0%Z
  end.

Definition qval (d : Decimal) : Q :=
  match d with
  | Finite n c e => value n c e
  | _ => 0%Q
  end.

Definition lex_cmp (a b : Decimal) : comparison :=
  match (rank a ?= rank b)%Z with
  | Eq => (qval a ?= qval b)%Q
  | c => c
  end.

(** [a <= b] as a test. *)
Definition leb (a b : Decimal) : bool := negb (gtb a b).

(** [lo <= p <= hi], an absent bound leaving its side open. *)
Definition within (lo hi : option Decimal) (p : Decimal) : bool :=
  match lo with Some a => leb a p | None => true end
  && match hi with Some b => leb p b | None => true end.

Definition numeric_bound (o : option Decimal) : Prop :=
  match o with
  | Some d => numeric d
  | None => True
  end.

Definition numeric_lots (lots : list Lot) : Prop :=
  Forall (fun lot => numeric (price lot)) lots.

(** Lots of one price [p], in the order of the list. *)
Definition priced (p : Decimal) (lots : list Lot) : list Lot :=
  filter (fun lot => eqb (price lot) p) lots.

(** ** Rows *)

Definition opt_list {A} (o : option A) : list A :=
  match o with
  | Some x => [x]
  | None => []
  end.

Definition cells (row : PageElement) : list PageElement :=
  find_all (lit "td") row.

Definition cell_text (row : PageElement) (i : nat) : option str :=
  option_map (get_text (lit " ")) (nth_error (cells row) i).

(** A row qualifies when it has at least seven cells and the text of the
    first one passes [str.isdigit]. *)
Definition qualifies (row : PageElement) : Prop :=
  (7 <= List.length (cells row))%nat
  /\ exists c, cell_text row 0 = Some c /\ isdigit c = true.

(** The link of a row resolves to [u], or the row has none. *)
Definition link_resolves (nfkc : str -> str) (host_ok : str -> bool)
    (row : PageElement) (u : option str) : Prop :=
  exists name_cell, nth_error (cells row) 1 = Some name_cell
    /\ match find_with_attr (lit "a") (lit "href") name_cell with
       | Some (_, href) =>
           exists a, urljoin nfkc host_ok BASE_URL href = Ok a
                     /\ u = Some a
       | None => u = None
       end.

(** ** What the claims speak of *)

(** A code made of ASCII digits only, and at least one: [^[0-9]+$]. *)
Definition ascii_digits (s : str) : Prop :=
  s <> [] /\ Forall (fun c => is_ascii_digit c = true) s.

(** [price >= 0] *)
Definition nonnegative (d : Decimal) : Prop :=
  Decimal_ge d Decimal_zero = Ok true.

(** A text of ASCII digits. *)
Definition plain_digits (s : str) : Prop :=
  Forall (fun c => is_ascii_digit c = true) s.

(** A sign as it is written: none, [+] or [-]. *)
Definition sign_of (sg : str) (neg : bool) : Prop :=
  (sg = [] /\ neg = false) \/ (sg = lit "+" /\ neg = false)
  \/ (sg = lit "-" /\ neg = true).

(** The digits of a numeral: [ip], then nothing or a point and [fp], with
    one digit at least. *)
Definition digits_of_numeral (s ip fp : str) : Prop :=
  plain_digits ip /\ plain_digits fp /\ ip ++ fp <> []
  /\ (s = ip ++ lit "." ++ fp \/ (fp = [] /\ s = ip)).

(** The exponent of a numeral: nothing, or [e] or [E], a sign and digits. *)
Definition exponent_of_numeral (s : str) (e : Z) : Prop :=
  (s = [] /\ e = 0%Z)
  \/ exists ind sg neg ds,
       s = ind :: sg ++ ds /\ (ind = 101 \/ ind = 69) /\ sign_of sg neg
       /\ ds <> [] /\ plain_digits ds
       /\ e = (if neg then - Z.of_N (digits_value ds)
               else Z.of_N (digits_value ds))%Z.

(** [s] is a decimal numeral with sign [neg], the digits [ip] before and
    [fp] after the point, and the exponent [e]. *)
Definition numeral (s : str) (neg : bool) (ip fp : str) (e : Z) : Prop :=
  exists sg body ex,
    s = sg ++ body ++ ex /\ sign_of sg neg
    /\ digits_of_numeral body ip fp /\ exponent_of_numeral ex e.

Definition decimal_numeral (s : str) : Prop :=
  exists neg ip fp e, numeral s neg ip fp e.

(** The limits of the decimal module on a numeral: the exponent of its last
    digit is not below [MIN_ETINY], and the exponent of its first
    significant digit is not above [MAX_EMAX]. *)
Definition within_limits (ip fp : str) (e : Z) : Prop :=
  (MIN_ETINY <= e - Z.of_nat (List.length fp))%Z
  /\ (e - Z.of_nat (List.length fp)
      + Z.of_nat (Nat.max 1 (List.length (drop_zeros (ip ++ fp)))) - 1
      <= MAX_EMAX)%Z.

(** The special values: a sign and, in any case of the letters, [inf] or
    [infinity], or [nan] or [snan] with digits behind. *)
Definition special_value (s : str) : Prop :=
  exists sg neg kw ds,
    s = sg ++ kw ++ ds /\ sign_of sg neg
    /\ ((In (map lower kw) [lit "inf"; lit "infinity"] /\ ds = [])
        \/ (In (map lower kw) [lit "nan"; lit "snan"] /\ plain_digits ds)).

(** The texts that the Decimal constructor takes: with white space
    stripped at the ends, underscores dropped and the decimal digits of
    other scripts read as ASCII digits, a decimal numeral within the limits
    or a special value. *)
Definition accepted (s : str) : Prop :=
  exists a,
    numeric_as_ascii s = Some a
    /\ ((exists neg ip fp e, numeral a neg ip fp e /\ within_limits ip fp e)
        \/ special_value a).

(** The lot that a row gives: code, title and price are read from the
    first, second and sixth of its cells, and the address from the link of
    the second. *)
Definition lot_of_row (nfkc : str -> str) (host_ok : str -> bool)
    (row : PageElement) (lot : Lot) : Prop :=
  cell_text row 0 = Some (code lot)
  /\ cell_text row 1 = Some (title lot)
  /\ (exists text, cell_text row 5 = Some text
                   /\ parse_price text = Ok (price lot))
  /\ link_resolves nfkc host_ok row (url lot).

(** A row that gives no lot: it does not qualify, or the text of its sixth
    cell is no price. *)
Definition dropped (row : PageElement) : Prop :=
  ~ qualifies row
  \/ exists text, cell_text row 5 = Some text
                  /\ parse_price text = Raise ValueError.

(** The lots are, one for one and in the order of the rows, the lots of
    the rows that are not dropped. *)
Inductive extracted (nfkc : str -> str) (host_ok : str -> bool)
  : list PageElement -> list Lot -> Prop :=
| extracted_done : extracted nfkc host_ok [] []
| extracted_drop row rows lots :
    dropped row -> extracted nfkc host_ok rows lots ->
    extracted nfkc host_ok (row :: rows) lots
| extracted_keep row rows lot lots :
    qualifies row -> lot_of_row nfkc host_ok row lot ->
    extracted nfkc host_ok rows lots ->
    extracted nfkc host_ok (row :: rows) (lot :: lots).

(** The row test as the claim words it: the cells of a row are its [td]
    and [th] children, and a code is made of decimal digits
    ([str.isdecimal]). *)
Definition child_cells (row : PageElement) : list PageElement :=
  match row with
  | Tag _ _ contents =>
      filter (fun e => is_tag_named (lit "td") e || is_tag_named (lit "th") e)
        contents
  | Text _ _ => []
  end.

Definition isdecimal (s : str) : bool :=
  match s with
  | [] => false
  | _ => forallb (in_ranges decimal_ranges) s
  end.

Definition qualifies_as_claimed (row : PageElement) : Prop :=
  (7 <= List.length (child_cells row))%nat
  /\ exists cell, nth_error (child_cells row) 0 = Some cell
                  /\ isdecimal (get_text (lit " ") cell) = true.

(** ** Sample pages

    Each page is given as its text and as the tree the lxml parser builds
    for it: [html] and [body] are supplied by the parser, and a table written
    without white space between its tags has no strings between its rows
    and cells. *)

Definition plain (s : str) : PageElement := Text NavigableString s.
Definition td (contents : list PageElement) : PageElement :=
  Tag (lit "td") [] contents.
Definition tr (contents : list PageElement) : PageElement :=
  Tag (lit "tr") [] contents.
Definition link (href : string) (label : string) : PageElement :=
  Tag (lit "a") [(lit "href", lit href)] [plain (lit label)].

Definition page (rows : list PageElement) : PageElement :=
  Tag (lit "[document]") []
    [Tag (lit "html") [] [Tag (lit "body") [] [Tag (lit "table") [] rows]]].

(** A row of seven cells of which the first, second and sixth are given. *)
Definition seven (c0 c1 c5 : list PageElement) : PageElement :=
  tr [td c0; td c1; td []; td []; td []; td c5; td []].

Definition seven_html (c0 c1 c5 : str) : str :=
  lit "<tr><td>" ++ c0 ++ lit "</td><td>" ++ c1
  ++ lit "</td><td></td><td></td><td></td><td>" ++ c5
  ++ lit "</td><td></td></tr>".

Definition table_html (rows : list str) : str :=
  lit "<table>" ++ List.concat rows ++ lit "</table>".

(** One lot row and one row that starts with [N/A]. *)
Definition synthetic_html : str :=
  table_html
    [ seven_html (lit "42") (lit "<a href='/x'>Lot A</a>")
        (lit "1 000,50 " ++ RUB ++ lit ".");
      seven_html (lit "N/A") (lit "Lot B") (lit "5") ].

Definition synthetic_page : PageElement :=
  page [ seven [plain (lit "42")] [link "/x" "Lot A"]
           [plain (lit "1 000,50 " ++ RUB ++ lit ".")];
         seven [plain (lit "N/A")] [plain (lit "Lot B")] [plain (lit "5")] ].

(** A code in Arabic-Indic digits, and a price below zero. *)
Definition unusual_html : str :=
  table_html
    [ seven_html [1636; 1634] (lit "Lot C") (lit "5");
      seven_html (lit "7") (lit "Lot D") (lit "-5") ].

Definition unusual_page : PageElement :=
  page [ seven [plain [1636; 1634]] [plain (lit "Lot C")] [plain (lit "5")];
         seven [plain (lit "7")] [plain (lit "Lot D")] [plain (lit "-5")] ].

(** A row whose second cell is empty. *)
Definition untitled_html : str :=
  table_html [ seven_html (lit "9") [] (lit "5") ].

Definition untitled_page : PageElement :=
  page [ seven [plain (lit "9")] [] [plain (lit "5")] ].

(** A link whose target opens a bracket in the network location. *)
Definition bad_link_html : str :=
  table_html [ seven_html (lit "8") (lit "<a href='//['>Lot E</a>") (lit "5") ].

Definition bad_link_page : PageElement :=
  page [ seven [plain (lit "8")] [link "//[" "Lot E"] [plain (lit "5")] ].

Definition sample_pages : list (str * PageElement) :=
  [ (synthetic_html, synthetic_page); (unusual_html, unusual_page);
    (untitled_html, untitled_page); (bad_link_html, bad_link_page) ].

(** The parser on the sample pages. *)
Definition sample_parser (html : str) : PageElement :=
  match List.find (fun p => str_eqb (fst p) html) sample_pages with
  | Some (_, tree) => tree
  | None => Tag (lit "[document]") [] []
  end.

Definition no_nfkc (s : str) : str := s.
Definition any_host (s : str) : bool := true.

Definition lot_at (c p : string) (d : Decimal) : Lot :=
  {| code := lit c; title := lit p; price := d; url := None |}.

Definition sample_lots : list Lot :=
  [ lot_at "1" "a" (Finite false 500 0);
    lot_at "2" "b" (Finite false 70000 (-2));
    lot_at "3" "c" (Finite false 5 2);
    lot_at "4" "d" (Finite false 100 0);
    lot_at "5" "e" (Finite false 99 0) ].

Definition synthetic_lots : list Lot :=
  [ {| code := lit "42"; title := lit "Lot A";
       price := Finite false 100050 (-2);
       url := Some (BASE_URL ++ lit "/x") |} ].

Definition unusual_lots : list Lot :=
  [ {| code := [1636; 1634]; title := lit "Lot C";
       price := Finite false 5 0; url := None |};
    {| code := lit "7"; title := lit "Lot D";
       price := Finite true 5 0; url := None |} ].

Definition untitled_lots : list Lot :=
  [ {| code := lit "9"; title := []; price := Finite false 5 0;
       url := None |} ].

(** A row of two cells of which the second holds a table of five cells. *)
Definition nested_html : str :=
  lit "<table><tr><td>1</td><td>"
  ++ lit "<table><tr><td>x</td><td>x</td><td>x</td><td>5</td><td>x</td>"
  ++ lit "</tr></table>"
  ++ lit "</td></tr></table>".

Definition nested_page : PageElement :=
  page [ tr [ td [plain (lit "1")];
              td [ Tag (lit "table") []
                     [ tr [ td [plain (lit "x")]; td [plain (lit "x")];
                            td [plain (lit "x")]; td [plain (lit "5")];
                            td [plain (lit "x")] ] ] ] ] ].

Definition nested_lots : list Lot :=
  [ {| code := lit "1"; title := lit "x x x 5 x"; price := Finite false 5 0;
       url := None |} ].

(** A code that is the superscript two. *)
Definition superscript_html : str :=
  table_html [ seven_html [178] (lit "Lot F") (lit "5") ].

Definition superscript_page : PageElement :=
  page [ seven [plain [178]] [plain (lit "Lot F")] [plain (lit "5")] ].

Definition superscript_lots : list Lot :=
  [ {| code := [178]; title := lit "Lot F"; price := Finite false 5 0;
       url := None |} ].

(** A price that reads [nan]. *)
Definition nan_html : str :=
  table_html [ seven_html (lit "3") (lit "Lot G") (lit "nan");
               seven_html (lit "4") (lit "Lot H") (lit "5") ].

Definition nan_page : PageElement :=
  page [ seven [plain (lit "3")] [plain (lit "Lot G")] [plain (lit "nan")];
         seven [plain (lit "4")] [plain (lit "Lot H")] [plain (lit "5")] ].

Definition nan_lots : list Lot :=
  [ {| code := lit "3"; title := lit "Lot G"; price := NaN false false 0;
       url := None |};
    {| code := lit "4"; title := lit "Lot H"; price := Finite false 5 0;
       url := None |} ].

Definition corner_pages : list (str * PageElement) :=
  [ (nested_html, nested_page); (superscript_html, superscript_page);
    (nan_html, nan_page) ].

Definition corner_parser (html : str) : PageElement :=
  match List.find (fun p => str_eqb (fst p) html) corner_pages with
  | Some (_, tree) => tree
  | None => Tag (lit "[document]") [] []
  end.

(** The lot row of the synthetic page. *)
Definition synthetic_row : PageElement :=
  seven [plain (lit "42")] [link "/x" "Lot A"]
    [plain (lit "1 000,50 " ++ RUB ++ lit ".")].

(** A lot whose price is a NaN, as the price text [nan] gives it. *)
Definition nan_lot : Lot := lot_at "6" "f" (NaN false false 0).

(** ** What the further properties speak of *)

(** One of the comparisons that [in_range] makes on [p] has a NaN operand:
    [p < lo] when there is a lower bound, and [p > hi] when there is an
    upper bound and [p] was not found below the lower one. *)
Definition compares_nan (lo hi : option Decimal) (p : Decimal) : bool :=
  let upper :=
    match hi with
    | Some b => is_nan p || is_nan b
    | None => false
    end in
  match lo with
  | Some a =>
      if is_nan p || is_nan a then true
      else if ltb p a then false else upper
  | None => upper
  end.

(** The prices go down along the list. *)
Definition descending (lots : list Lot) : Prop :=
  StronglySorted (fun a b => Decimal_ge (price a) (price b) = Ok true) lots.

Definition has_nan (lots : list Lot) : bool :=
  existsb (fun lot => is_nan (price lot)) lots.

(** What a line typed at the prompt of [ask_price] amounts to: no bound
    for a blank line, a bound for a price, and nothing for a line that is
    asked again. *)
Definition answer (line : str) : option (option Decimal) :=
  match strip line with
  | [] => Some None
  | raw =>
      match parse_price raw with
      | Ok d => Some (Some d)
      | Raise _ => None
      end
  end.

(** What [ask_price] writes while it reads the lines [bad], each of which
    it asks again. *)
Definition retries (prompt : str) (bad : list str) : list str :=
  flat_map (fun _ => [prompt; retry_message ++ [10]]) bad.

(** The lines that [main] prints for the lots. *)
Definition lot_lines (lots : list Lot) : list str :=
  map (fun lot => lot_line lot ++ [10]) lots.

(** A Decimal that the constructor can give: a finite one is within the
    bounds of [fits]. *)
Definition representable (d : Decimal) : Prop :=
  match d with
  | Finite _ c e => fits (List.length (digits_of c)) e = true
  | _ => True
  end.

(** A printable ASCII character other than the comma and the underscore. *)
Definition clean_char (c : char) : bool :=
  (32 <? c) && (c <? 127) && negb (c =? 44) && negb (c =? 95).

(** The fraction of a printed numeral: a point and digits, or nothing. *)
Definition point_part (fp : str) : str :=
  match fp with
  | [] => []
  | _ => 46 :: fp
  end.

(** The exponent of a printed numeral. *)
Definition exponent_part (ex : option Z) : str :=
  match ex with
  | Some k => 69 :: signed_str k
  | None => []
  end.

Definition exponent_value (ex : option Z) : Z :=
  match ex with
  | Some k => k
  | None => 0%Z
  end.

(** The sign that a Decimal carries. *)
Definition sign_bit (d : Decimal) : bool :=
  match d with
  | Finite n _ _ | Infinity n | NaN n _ _ => n
  end.

(** A text of ASCII digits set apart by spaces and no-break spaces. *)
Definition spaced (s : str) : Prop :=
  Forall (fun c => is_ascii_digit c = true \/ c = 32 \/ c = 160) s.

(** The ASCII digits of a text, in their order. *)
Definition digits_in (s : str) : str := filter is_ascii_digit s.

(** The number of decimal points in a text. *)
Definition points (s : str) : nat := count_occ N.eq_dec s 46.

(** A character of a plain path: an ASCII letter or digit, or one of
    [-], [_], [.] and [/]. *)
Definition path_char (c : char) : bool :=
  is_ascii_alpha c || is_ascii_digit c
  || (c =? 45) || (c =? 95) || (c =? 46) || (c =? 47).

(** A character of a plain query: printable ASCII other than [#]. *)
Definition query_char (c : char) : bool :=
  (32 <? c) && (c <? 127) && negb (c =? 35).

(** No segment of the path is [.] or [..]. *)
Definition no_dot_segments (p : str) : Prop :=
  Forall (fun seg => seg <> lit "." /\ seg <> lit "..") (split_on 47 p).

(** A target with its query, when there is one. *)
Definition with_query (p q : str) : str :=
  match q with
  | [] => p
  | _ => p ++ lit "?" ++ q
  end.

(** * Proofs *)

(** ** The order of Decimals that are numbers *)

Lemma Decimal_cmp_lex a b :
  numeric a -> numeric b -> Decimal_cmp a b = lex_cmp a b.
Proof.
  unfold numeric, lex_cmp.
  destruct a as [n1 c1 e1 | [|] | ? ? ?], b as [n2 c2 e2 | [|] | ? ? ?];
    simpl; intros Ha Hb; try discriminate; reflexivity.
Qed.

Lemma Decimal_cmp_antisym a b :
  Decimal_cmp b a = CompOpp (Decimal_cmp a b).
Proof.
  destruct a as [n1 c1 e1 | [|] | ? ? ?], b as [n2 c2 e2 | [|] | ? ? ?];
    simpl; try reflexivity.
  symmetry; apply Qcompare_antisym.
Qed.

Lemma le_lex a b :
  numeric a -> numeric b ->
  (le a b <->
   (rank a < rank b)%Z \/ (rank a = rank b /\ (qval a <= qval b)%Q)).
Proof.
  intros Ha Hb. unfold le. rewrite Decimal_cmp_lex by assumption.
  unfold lex_cmp.
  destruct (Z.compare_spec (rank a) (rank b)) as [E | L | G].
  - rewrite <- Qle_alt. split; [ intros H; right; auto | ].
    intros [H | [_ H]]; [ lia | exact H ].
  - split; [ intros _; left; exact L | intros _; discriminate ].
  - split; [ intros H; exfalso; apply H; reflexivity | ].
    intros [H | [H _]]; lia.
Qed.

Lemma le_trans a b c :
  numeric a -> numeric b -> numeric c -> le a b -> le b c -> le a c.
Proof.
  intros Ha Hb Hc Hab Hbc.
  apply le_lex in Hab; try assumption.
  apply le_lex in Hbc; try assumption.
  apply le_lex; try assumption.
  destruct Hab as [Hab | [Ea Hab]], Hbc as [Hbc | [Eb Hbc]].
  - left; lia.
  - left; lia.
  - left; lia.
  - right; split; [ congruence | eapply Qle_trans; eassumption ].
Qed.

Lemma le_total a b : le a b \/ le b a.
Proof.
  unfold le. rewrite (Decimal_cmp_antisym a b).
  destruct (Decimal_cmp a b); simpl; (left; discriminate) || (right; discriminate).
Qed.

Lemma ltb_le a b : ltb a b = true -> le a b.
Proof.
  unfold ltb, le. destruct (Decimal_cmp a b); congruence.
Qed.

Lemma not_ltb_le a b : ltb a b = false -> le b a.
Proof.
  unfold ltb, le. rewrite (Decimal_cmp_antisym a b).
  destruct (Decimal_cmp a b); simpl; congruence.
Qed.

Lemma eqb_le a b : eqb a b = true <-> le a b /\ le b a.
Proof.
  unfold eqb, le. rewrite (Decimal_cmp_antisym a b).
  destruct (Decimal_cmp a b); simpl; split; intros H;
    try (split; congruence); destruct H; congruence.
Qed.

(** Two values that both equal [p] are not strictly ordered. *)
Lemma eqb_not_ltb a b p :
  numeric a -> numeric b -> numeric p ->
  eqb a p = true -> eqb b p = true -> ltb a b = false.
Proof.
  intros Ha Hb Hp Ea Eb.
  apply eqb_le in Ea. apply eqb_le in Eb.
  destruct Ea as [_ Hpa], Eb as [Hbp _].
  assert (Hba : le b a) by (eapply le_trans with (b := p); eassumption).
  unfold le in Hba. rewrite Decimal_cmp_antisym in Hba.
  unfold ltb. destruct (Decimal_cmp a b); simpl in *; congruence.
Qed.

Lemma Decimal_lt_numeric a b :
  numeric a -> numeric b -> Decimal_lt a b = Ok (ltb a b).
Proof.
  unfold numeric, Decimal_lt, compare_check_nans. intros -> ->. reflexivity.
Qed.

Lemma Decimal_gt_numeric a b :
  numeric a -> numeric b -> Decimal_gt a b = Ok (gtb a b).
Proof.
  unfold numeric, Decimal_gt, compare_check_nans. intros -> ->. reflexivity.
Qed.

Lemma Decimal_ge_le a b :
  Decimal_ge a b = Ok true <-> numeric a /\ numeric b /\ le b a.
Proof.
  unfold Decimal_ge, compare_check_nans, numeric.
  destruct (is_nan a), (is_nan b); simpl;
    try (split; [ discriminate | intros (H1 & H2 & _); discriminate ]).
  split.
  - intros H. repeat split. apply not_ltb_le.
    destruct (ltb a b); simpl in H; congruence.
  - intros (_ & _ & H). unfold le in H. rewrite Decimal_cmp_antisym in H.
    unfold ltb. destruct (Decimal_cmp a b); simpl in *; congruence.
Qed.

(** ** Filtering *)

Lemma ltb_gtb a b : ltb a b = gtb b a.
Proof.
  unfold ltb, gtb. rewrite (Decimal_cmp_antisym a b).
  destruct (Decimal_cmp a b); reflexivity.
Qed.

Lemma leb_le a b : leb a b = true <-> le a b.
Proof.
  unfold leb, gtb, le. destruct (Decimal_cmp a b); simpl; split; congruence.
Qed.

Lemma in_range_numeric lo hi p :
  numeric p -> numeric_bound lo -> numeric_bound hi ->
  in_range lo hi p = Ok (within lo hi p).
Proof.
  intros Hp Hlo Hhi. unfold in_range, within, leb.
  destruct lo as [a | ]; simpl in Hlo.
  - rewrite Decimal_lt_numeric by assumption. simpl.
    rewrite ltb_gtb. destruct (gtb a p); simpl; [ reflexivity | ].
    destruct hi as [b | ]; simpl in Hhi.
    + rewrite Decimal_gt_numeric by assumption. simpl.
      destruct (gtb p b); reflexivity.
    + reflexivity.
  - simpl. destruct hi as [b | ]; simpl in Hhi.
    + rewrite Decimal_gt_numeric by assumption. simpl.
      destruct (gtb p b); reflexivity.
    + reflexivity.
Qed.

Lemma filterM_pure {A} (p : A -> Exc bool) (q : A -> bool) (l : list A) :
  Forall (fun x => p x = Ok (q x)) l -> filterM p l = Ok (filter q l).
Proof.
  induction 1 as [ | x r Hx _ IH ]; simpl.
  - reflexivity.
  - rewrite Hx, IH. simpl. reflexivity.
Qed.

(** ** Sorting *)

Section Sorting.

Context {A : Type} (key : A -> Decimal).

Let numeric_keys (l : list A) : Prop := Forall (fun x => numeric (key x)) l.
Let ascending : list A -> Prop :=
  StronglySorted (fun a b => le (key a) (key b)).
Let same (p : Decimal) (x : A) : bool := eqb (key x) p.

Lemma insert_by_numeric x s :
  numeric (key x) -> numeric_keys s ->
  exists r, insert_by key x s = Ok r
    /\ Permutation (x :: s) r
    /\ (ascending s -> ascending r)
    /\ (forall p, numeric p -> filter (same p) r = filter (same p) (x :: s)).
Proof.
  intros Hx Hs. induction Hs as [ | y s' Hy Hs' IH ].
  - exists [x]. simpl. repeat split; auto.
    intros _. constructor; constructor.
  - cbn [insert_by]. rewrite Decimal_lt_numeric by assumption.
    cbn [bind]. destruct (ltb (key y) (key x)) eqn:Hlt.
    + destruct IH as (r & Er & Pr & Ar & Fr). rewrite Er. cbn [bind].
      exists (y :: r). split; [ reflexivity | ]. split; [ | split ].
      * eapply perm_trans; [ apply perm_swap | apply perm_skip, Pr ].
      * intros Hasc. inversion Hasc as [ | ? ? Hasc' Hall ]; subst.
        constructor; [ apply Ar, Hasc' | ].
        eapply Permutation_Forall; [ exact Pr | ].
        constructor; [ apply ltb_le, Hlt | exact Hall ].
      * intros p Hp. cbn [filter]. rewrite (Fr p Hp). cbn [filter].
        destruct (same p x) eqn:Sx, (same p y) eqn:Sy; try reflexivity.
        unfold same in Sx, Sy.
        rewrite (eqb_not_ltb (key y) (key x) p) in Hlt by assumption.
        discriminate.
    + exists (x :: y :: s'). split; [ reflexivity | ].
      split; [ apply Permutation_refl | ]. split; [ | reflexivity ].
      intros Hasc. constructor; [ exact Hasc | ].
      assert (Hxy : le (key x) (key y)) by (apply not_ltb_le, Hlt).
      inversion Hasc as [ | ? ? _ Hall ]; subst.
      constructor; [ exact Hxy | ].
      rewrite Forall_forall in Hall, Hs' |- *.
      intros z Hz. apply le_trans with (b := key y); auto.
Qed.

Lemma stable_sort_numeric l :
  numeric_keys l ->
  exists s, stable_sort key l = Ok s
    /\ Permutation l s
    /\ ascending s
    /\ (forall p, numeric p -> filter (same p) s = filter (same p) l).
Proof.
  induction 1 as [ | x r Hx Hr IH ].
  - exists []. repeat split; auto. constructor.
  - destruct IH as (s & Es & Ps & As & Fs).
    assert (Hs : numeric_keys s)
      by (eapply Permutation_Forall; eassumption).
    destruct (insert_by_numeric x s Hx Hs) as (t & Et & Pt & At & Ft).
    exists t. cbn [stable_sort]. rewrite Es. cbn [bind].
    split; [ exact Et | ]. split; [ | split ].
    + eapply perm_trans; [ apply perm_skip, Ps | exact Pt ].
    + apply At, As.
    + intros p Hp. rewrite (Ft p Hp). cbn [filter].
      rewrite (Fs p Hp). reflexivity.
Qed.

Lemma sorted_snoc (R : A -> A -> Prop) l x :
  StronglySorted R l -> Forall (fun y => R y x) l ->
  StronglySorted R (l ++ [x]).
Proof.
  induction 1 as [ | y t Ht IHt Hyt ]; simpl; intros Hx.
  - constructor; constructor.
  - inversion Hx as [ | ? ? Hyx Htx ]; subst.
    constructor; [ apply IHt, Htx | ].
    apply Forall_app. split; [ exact Hyt | ].
    constructor; [ exact Hyx | constructor ].
Qed.

Lemma ascending_rev s :
  ascending s -> StronglySorted (fun a b => le (key b) (key a)) (rev s).
Proof.
  induction 1 as [ | x s Hs IH Hall ]; simpl.
  - constructor.
  - apply sorted_snoc; [ exact IH | ].
    apply Forall_rev. exact Hall.
Qed.

End Sorting.

(** C6: [filter_lots_by_price] without bounds returns the list it was given;
    on lots and bounds that are numbers it returns, in their order, exactly
    the lots whose price lies within the inclusive bounds, an absent bound
    leaving that side open. *)
Theorem filter_lots_by_price_inclusive
    (lots : list Lot) (min_price max_price : option Decimal) :
  filter_lots_by_price lots None None = Ok lots
  /\ (numeric_lots lots ->
      numeric_bound min_price -> numeric_bound max_price ->
      filter_lots_by_price lots min_price max_price
      = Ok (filter (fun lot => within min_price max_price (price lot)) lots)).
Proof.
  split; [ reflexivity | ].
  intros Hl Hlo Hhi.
  assert (E : filterM
                (fun lot => in_range min_price max_price (price lot)) lots
              = Ok (filter
                      (fun lot => within min_price max_price (price lot))
                      lots)).
  { apply filterM_pure. eapply Forall_impl; [ | exact Hl ].
    intros lot Hn. apply in_range_numeric; assumption. }
  unfold filter_lots_by_price.
  destruct min_price, max_price; try exact E.
  simpl. clear. induction lots as [ | x r IH ]; simpl; congruence.
Qed.

(** C7: on lots whose prices are numbers the sorting step returns a
    rearrangement of its input in which every lot has a price greater than
    or equal to that of every later lot, any two prices being comparable,
    and in which the lots of one price keep their input order. *)
Theorem sort_descending_stable (lots : list Lot) :
  numeric_lots lots ->
  (forall a b, numeric a -> numeric b ->
     Decimal_ge a b = Ok true \/ Decimal_ge b a = Ok true)
  /\ exists out,
       sort_descending lots = Ok out
       /\ Permutation lots out
       /\ StronglySorted
            (fun a b => Decimal_ge (price a) (price b) = Ok true) out
       /\ (forall p, numeric p -> priced p out = priced p lots).
Proof.
  intros Hl. split.
  - intros a b Ha Hb.
    destruct (le_total a b) as [H | H]; [ right | left ];
      apply Decimal_ge_le; auto.
  - assert (Hr : Forall (fun x => numeric (price x)) (rev lots))
      by (apply Forall_rev, Hl).
    destruct (stable_sort_numeric price (rev lots) Hr)
      as (s & Es & Ps & As & Fs).
    exists (rev s). unfold sort_descending, sorted. rewrite Es.
    split; [ reflexivity | ]. split; [ | split ].
    + eapply perm_trans; [ apply Permutation_rev | ].
      eapply perm_trans; [ exact Ps | apply Permutation_rev ].
    + assert (Hs : Forall (fun x => numeric (price x)) (rev s)).
      { apply Forall_rev. eapply Permutation_Forall; eassumption. }
      apply ascending_rev in As.
      revert Hs. induction As as [ | x t Ht IH Hx ]; intros Hs.
      * constructor.
      * inversion Hs as [ | ? ? Hnx Hnt ]; subst.
        constructor; [ apply IH, Hnt | ].
        rewrite Forall_forall in Hx, Hnt |- *.
        intros y Hy. apply Decimal_ge_le. auto.
    + intros p Hp. unfold priced. rewrite filter_rev.
      rewrite (Fs p Hp), filter_rev. apply rev_involutive.
Qed.

(** A NaN is a Decimal that [parse_price] returns and that the ordering
    comparisons refuse: with a bound the filter raises on a lot of that
    price, and so does the sort on two lots or more. *)
Remark parse_price_nan : parse_price (lit "NaN") = Ok (NaN false false 0).
Proof. vm_compute. reflexivity. Qed.

Remark filter_lots_by_price_nan :
  filter_lots_by_price [lot_at "1" "a" (NaN false false 0)]
    (Some (Finite false 100 0)) None
  = Raise InvalidOperation.
Proof. reflexivity. Qed.

Remark sort_descending_nan :
  sort_descending [lot_at "1" "a" (Finite false 5 0);
                   lot_at "2" "b" (NaN false false 0)]
  = Raise InvalidOperation.
Proof. reflexivity. Qed.

(** A page with the price text [nan] gives a lot whose price is a NaN. *)
Remark parse_lots_nan_price :
  parse_lots corner_parser no_nfkc any_host nan_html = Ok nan_lots.
Proof. vm_compute. reflexivity. Qed.

(** On the lots of that page the filter with bounds does not return the
    lots within the bounds: it raises. *)
Lemma filter_lots_by_price_nan_price :
  ~ (forall lots min_price max_price,
       filter_lots_by_price lots min_price max_price
       = Ok (filter (fun lot => within min_price max_price (price lot))
               lots)).
Proof.
  intros H.
  specialize (H nan_lots (Some (Finite false 100 0))
                (Some (Finite false 500 0))).
  vm_compute in H. discriminate.
Qed.

(** On the lots of that page the sort does not return either. *)
Lemma sort_descending_nan_price :
  ~ (forall lots,
       exists out,
         sort_descending lots = Ok out
         /\ Permutation lots out
         /\ StronglySorted
              (fun a b => Decimal_ge (price a) (price b) = Ok true) out
         /\ (forall p, priced p out = priced p lots)).
Proof.
  intros H. destruct (H nan_lots) as (out & E & _).
  vm_compute in E. discriminate.
Qed.

Lemma sample_lots_numeric : numeric_lots sample_lots.
Proof. repeat constructor. Defined.

Lemma filter_lots_by_price_inclusive_witness :
  numeric_lots sample_lots
  /\ filter_lots_by_price sample_lots None None = Ok sample_lots
  /\ filter_lots_by_price sample_lots
       (Some (Finite false 100 0)) (Some (Finite false 500 0))
     = Ok [ lot_at "1" "a" (Finite false 500 0);
            lot_at "3" "c" (Finite false 5 2);
            lot_at "4" "d" (Finite false 100 0) ].
Proof.
  destruct (filter_lots_by_price_inclusive sample_lots
              (Some (Finite false 100 0)) (Some (Finite false 500 0)))
    as [Hnone Hrange].
  split; [ exact sample_lots_numeric | ]. split; [ exact Hnone | ].
  rewrite Hrange; [ reflexivity | exact sample_lots_numeric | | ];
    reflexivity.
Defined.

Lemma sort_descending_stable_witness :
  numeric_lots sample_lots
  /\ ((forall a b, numeric a -> numeric b ->
         Decimal_ge a b = Ok true \/ Decimal_ge b a = Ok true)
      /\ exists out,
           sort_descending sample_lots = Ok out
           /\ Permutation sample_lots out
           /\ StronglySorted
                (fun a b => Decimal_ge (price a) (price b) = Ok true) out
           /\ (forall p, numeric p -> priced p out = priced p sample_lots)).
Proof.
  split; [ exact sample_lots_numeric | ].
  apply (sort_descending_stable sample_lots). exact sample_lots_numeric.
Defined.

Section ExtractionFacts.

Variable BeautifulSoup : str -> PageElement.
Variable nfkc : str -> str.
Variable host_ok : str -> bool.

Lemma parse_row_Some row lot :
  parse_row nfkc host_ok row = Ok (Some lot) ->
  qualifies row
  /\ cell_text row 0 = Some (code lot)
  /\ cell_text row 1 = Some (title lot)
  /\ (exists text, cell_text row 5 = Some text
                   /\ parse_price text = Ok (price lot))
  /\ link_resolves nfkc host_ok row (url lot).
Proof.
  unfold parse_row, qualifies, cell_text, link_resolves, cells.
  destruct (find_all (lit "td") row)
    as [ | c0 [ | c1 [ | c2 [ | c3 [ | c4 [ | c5 [ | c6 rest ]]]]]]];
    try discriminate.
  destruct (isdigit (get_text (lit " ") c0)) eqn:Hd; simpl negb; cbv iota;
    try discriminate.
  intros H.
  assert (Hu : exists u,
    match find_with_attr (lit "a") (lit "href") c1 with
    | Some (_, href) =>
        u0 <- urljoin nfkc host_ok BASE_URL href ;; Ok (Some u0)
    | None => Ok None
    end = Ok u).
  { destruct (match find_with_attr (lit "a") (lit "href") c1 with
              | Some (_, href) =>
                  u0 <- urljoin nfkc host_ok BASE_URL href ;; Ok (Some u0)
              | None => Ok None
              end) as [u | e]; [ eauto | discriminate H ]. }
  destruct Hu as [u Hu]. rewrite Hu in H. cbn [bind] in H.
  destruct (parse_price (get_text (lit " ") c5)) as [d | [ | ]] eqn:Hp;
    try discriminate.
  injection H as <-. cbn [code title price url].
  split; [ split; [ simpl; lia | exists (get_text (lit " ") c0) ] | ].
  { split; [ reflexivity | exact Hd ]. }
  split; [ reflexivity | ]. split; [ reflexivity | ].
  split; [ exists (get_text (lit " ") c5); split;
           [ reflexivity | exact Hp ] | ].
  exists c1. split; [ reflexivity | ].
  destruct (find_with_attr (lit "a") (lit "href") c1) as [[t href] | ].
  - destruct (urljoin nfkc host_ok BASE_URL href) as [a | e];
      [ | discriminate ].
    exists a. split; [ reflexivity | ]. simpl in Hu. congruence.
  - congruence.
Qed.

Lemma parse_rows_spec rows acc out :
  parse_rows nfkc host_ok rows acc = Ok out ->
  exists outcomes,
    Forall2 (fun row o => parse_row nfkc host_ok row = Ok o) rows outcomes
    /\ out = acc ++ flat_map opt_list outcomes.
Proof.
  revert acc. induction rows as [ | row rest IH ]; intros acc H.
  - exists []. split; [ constructor | ].
    simpl in H. injection H as <-. simpl. symmetry. apply app_nil_r.
  - cbn [parse_rows] in H.
    destruct (parse_row nfkc host_ok row) as [o | e] eqn:Hr;
      [ | discriminate ].
    cbn [bind] in H. destruct o as [lot | ].
    + destruct (IH _ H) as (os & Hos & ->).
      exists (Some lot :: os). split; [ constructor; assumption | ].
      simpl. rewrite <- app_assoc. reflexivity.
    + destruct (IH _ H) as (os & Hos & ->).
      exists (None :: os). split; [ constructor; assumption | ].
      reflexivity.
Qed.

Lemma parse_lots_In html lots lot :
  parse_lots BeautifulSoup nfkc host_ok html = Ok lots ->
  In lot lots ->
  exists row, In row (find_all (lit "tr") (BeautifulSoup html))
              /\ parse_row nfkc host_ok row = Ok (Some lot).
Proof.
  unfold parse_lots. intros H Hin.
  apply parse_rows_spec in H. destruct H as (os & Hos & ->).
  simpl in Hin. induction Hos as [ | row o rows os' Hro _ IH ].
  - destruct Hin.
  - simpl in Hin. apply in_app_or in Hin. destruct Hin as [Hin | Hin].
    + destruct o as [l | ]; simpl in Hin; [ | destruct Hin ].
      destruct Hin as [<- | []]. exists row. split; [ left | ]; auto.
    + destruct (IH Hin) as (r & Hr & Hl). exists r. split; [ right | ]; auto.
Qed.

End ExtractionFacts.

(** ** Price normalisation *)

Lemma Decimal_of_str_raises s e :
  Decimal_of_str s = Raise e -> e = InvalidOperation.
Proof.
  unfold Decimal_of_str.
  destruct (numeric_as_ascii s) as [a | ]; [ | congruence ].
  destruct (parse_numeric_string a); congruence.
Qed.

Lemma parse_price_raises text e :
  parse_price text = Raise e -> e = ValueError.
Proof.
  unfold parse_price. destruct (clean_price text); [ congruence | ].
  destruct (Decimal_of_str (c :: s)) as [d | e'] eqn:Hd; [ discriminate | ].
  apply Decimal_of_str_raises in Hd. subst e'. congruence.
Qed.

Lemma replace_absent a old new s :
  ~ In a s -> replace (a :: old) new s = s.
Proof.
  unfold replace. induction s as [ | c r IH ]; intros Hn; [ reflexivity | ].
  cbn [replace_from]. unfold is_prefix. cbn [starts_with].
  destruct (N.eqb_spec a c) as [-> | _].
  - exfalso. apply Hn. left. reflexivity.
  - rewrite IH; [ reflexivity | ]. intros H. apply Hn. right. exact H.
Qed.

Lemma replace_char a b s :
  replace [a] [b] s = map (fun c => if a =? c then b else c) s.
Proof.
  unfold replace. induction s as [ | c r IH ]; [ reflexivity | ].
  cbn [replace_from map]. unfold is_prefix. cbn [starts_with].
  destruct (a =? c); simpl; rewrite IH; reflexivity.
Qed.

Lemma lstrip_with_head p c r :
  p c = false -> lstrip_with p (c :: r) = c :: r.
Proof. intros H. simpl. rewrite H. reflexivity. Qed.

Lemma strip_with_none p s :
  Forall (fun c => p c = false) s -> strip_with p s = s.
Proof.
  intros H. unfold strip_with, rstrip_with.
  assert (L : forall t, Forall (fun c => p c = false) t ->
                        lstrip_with p t = t).
  { intros t Ht. destruct Ht; [ reflexivity | ].
    apply lstrip_with_head. assumption. }
  rewrite (L s H). rewrite L by (apply Forall_rev, H).
  apply rev_involutive.
Qed.

Lemma ascii_chars_plain s :
  Forall (fun c => (0 <? c) && (c <=? 127) && negb (c =? 95) = true) s ->
  ascii_chars s = Some s.
Proof.
  induction 1 as [ | c r Hc _ IH ]; [ reflexivity | ].
  cbn [ascii_chars]. apply andb_true_iff in Hc. destruct Hc as [Hc Hu].
  apply negb_true_iff in Hu. rewrite Hu, Hc, IH. reflexivity.
Qed.

Lemma span_prefix p a r :
  Forall (fun c => p c = true) a ->
  match r with [] => True | x :: _ => p x = false end ->
  span p (a ++ r) = (a, r).
Proof.
  intros Ha Hr. induction Ha as [ | c a' Hc _ IH ]; simpl.
  - destruct r as [ | x r' ]; [ reflexivity | ]. simpl. rewrite Hr.
    reflexivity.
  - rewrite Hc, IH. reflexivity.
Qed.

Lemma ascii_digit_cases c :
  is_ascii_digit c = true ->
  In c [48; 49; 50; 51; 52; 53; 54; 55; 56; 57].
Proof.
  unfold is_ascii_digit. intros H. apply andb_true_iff in H.
  destruct H as [H1 H2]. apply N.leb_le in H1, H2. simpl. lia.
Qed.

Lemma parse_numeric_string_digit c r :
  is_ascii_digit c = true ->
  parse_numeric_string (c :: r) = parse_finite false (c :: r).
Proof.
  intros H. apply ascii_digit_cases in H. simpl in H.
  repeat (destruct H as [<- | H]; [ reflexivity | ]). destruct H.
Qed.

Lemma drop_zeros_length s : (List.length (drop_zeros s) <= List.length s)%nat.
Proof.
  induction s as [ | c r IH ]; [ simpl; lia | ].
  assert (E : drop_zeros (c :: r) = drop_zeros r
              \/ drop_zeros (c :: r) = c :: r).
  { destruct (N.eq_dec c 48) as [-> | Hn]; [ left; reflexivity | right ].
    simpl. destruct c as [ | q ]; [ reflexivity | ].
    repeat (destruct q as [ q | q | ]; try reflexivity).
    congruence. }
  destruct E as [-> | ->]; simpl; lia.
Qed.

Lemma plain_digit_facts c :
  is_ascii_digit c = true ->
  isspace c = false
  /\ (0 <? c) && (c <=? 127) && negb (c =? 95) = true
  /\ (44 =? c) = false.
Proof.
  intros H. apply ascii_digit_cases in H. simpl in H.
  repeat (destruct H as [<- | H]; [ repeat split | ]). destruct H.
Qed.

Lemma digits_point_Forall (P : char -> Prop) ip fp :
  (forall c, is_ascii_digit c = true -> P c) -> P 46 ->
  plain_digits ip -> plain_digits fp -> Forall P (ip ++ 46 :: fp).
Proof.
  intros Hd Hp Hip Hfp. apply Forall_app.
  split; [ | constructor; [ exact Hp | ] ];
    eapply Forall_impl; try eassumption; exact Hd.
Qed.

Lemma clean_price_comma ip fp :
  plain_digits ip -> plain_digits fp ->
  clean_price (ip ++ lit "," ++ fp) = ip ++ 46 :: fp.
Proof.
  intros Hip Hfp.
  assert (Habs : forall a, (57 < a) \/ a = 32 -> ~ In a (ip ++ 44 :: fp)).
  { intros a Ha Hin. apply in_app_or in Hin.
    assert (Hd : forall t, plain_digits t -> In a t -> False).
    { intros t Ht Hat. unfold plain_digits in Ht.
      rewrite Forall_forall in Ht. specialize (Ht _ Hat).
      apply ascii_digit_cases in Ht. simpl in Ht. lia. }
    destruct Hin as [Hin | [Hin | Hin]]; [ eauto | lia | eauto ]. }
  assert (Hmap : forall t, plain_digits t ->
                   map (fun c => if 44 =? c then 46 else c) t = t).
  { intros t Ht. induction Ht as [ | c r Hc _ IH ]; [ reflexivity | ].
    cbn [map]. rewrite IH.
    destruct (plain_digit_facts c Hc) as (_ & _ & ->). reflexivity. }
  unfold clean_price.
  change (lit "," ++ fp) with (44 :: fp).
  change NBSP with [160]. change (RUB ++ lit ".") with [1088; 1091; 1073; 46].
  change RUB with [1088; 1091; 1073]. change (lit " ") with [32].
  change (lit ",") with [44]. change (lit ".") with [46].
  rewrite (replace_absent 160 []) by (apply Habs; lia).
  rewrite (replace_absent 1088 [1091; 1073; 46]) by (apply Habs; lia).
  rewrite (replace_absent 1088 [1091; 1073]) by (apply Habs; lia).
  rewrite (replace_absent 32 []) by (apply Habs; lia).
  rewrite replace_char, map_app. cbn [map].
  rewrite !Hmap by assumption. change (44 =? 44) with true. cbv iota.
  apply strip_with_none. apply digits_point_Forall; try assumption.
  - intros c Hc. apply plain_digit_facts, Hc.
  - reflexivity.
Qed.

Lemma Decimal_of_str_point ip fp :
  ip <> [] -> plain_digits ip -> plain_digits fp ->
  (Z.of_nat (List.length ip + List.length fp) <= MAX_EMAX)%Z ->
  Decimal_of_str (ip ++ 46 :: fp)
  = Ok (Finite false (digits_value (ip ++ fp))
          (- Z.of_nat (List.length fp))).
Proof.
  intros Hne Hip Hfp Hlen. unfold Decimal_of_str, numeric_as_ascii, strip.
  rewrite strip_with_none.
  2:{ apply digits_point_Forall; try assumption; [ | reflexivity ].
      intros c Hc. apply plain_digit_facts, Hc. }
  rewrite ascii_chars_plain.
  2:{ apply digits_point_Forall; try assumption; [ | reflexivity ].
      intros c Hc. apply plain_digit_facts, Hc. }
  destruct ip as [ | c ip' ]; [ congruence | ].
  cbn [app]. rewrite parse_numeric_string_digit
    by (inversion Hip; assumption).
  unfold parse_finite.
  change (c :: ip' ++ 46 :: fp) with ((c :: ip') ++ 46 :: fp).
  rewrite (span_prefix is_ascii_digit (c :: ip') (46 :: fp))
    by (assumption || reflexivity).
  cbv iota beta.
  replace (span is_ascii_digit fp) with (fp, @nil char).
  2:{ symmetry. rewrite <- (app_nil_r fp) at 1.
      apply span_prefix; [ assumption | exact I ]. }
  cbn [app].
  pose proof (drop_zeros_length (c :: ip' ++ fp)) as Hz.
  assert (Hfit : fits
                   (Nat.max 1 (List.length (drop_zeros (c :: ip' ++ fp))))
                   (0 - Z.of_nat (List.length fp)) = true).
  { unfold fits. apply andb_true_iff.
    cbn [List.length] in Hz, Hlen. rewrite length_app in Hz.
    unfold MAX_EMAX, MIN_ETINY in *.
    split; apply Z.leb_le; lia. }
  rewrite Hfit. reflexivity.
Qed.

(** A numeral with a decimal comma keeps every digit: the coefficient is
    the number its digits spell and the exponent counts the decimals. *)
Lemma parse_price_keeps_digits ip fp :
  ip <> [] -> plain_digits ip -> plain_digits fp ->
  (Z.of_nat (List.length ip + List.length fp) <= MAX_EMAX)%Z ->
  parse_price (ip ++ lit "," ++ fp)
  = Ok (Finite false (digits_value (ip ++ fp))
          (- Z.of_nat (List.length fp))).
Proof.
  intros Hne Hip Hfp Hlen. unfold parse_price.
  rewrite clean_price_comma by assumption.
  rewrite Decimal_of_str_point by assumption.
  destruct ip; [ congruence | reflexivity ].
Qed.

(** C4: the text "1 200 000,00 руб." is cleaned to "1200000.00" and gives
    the Decimal of coefficient 120000000 and exponent -2, which is
    1200000.00 with both decimals kept; it compares equal to 1200000.  In
    general a numeral with a decimal comma is not rounded: its Decimal has
    all its digits as coefficient and the number of its decimals as
    exponent. *)
Theorem parse_price_thousands :
  clean_price (lit "1 200 000,00 " ++ RUB ++ lit ".") = lit "1200000.00"
  /\ parse_price (lit "1 200 000,00 " ++ RUB ++ lit ".")
     = Ok (Finite false 120000000 (-2))
  /\ eqb (Finite false 120000000 (-2)) (Finite false 1200000 0) = true
  /\ (forall ip fp,
        ip <> [] -> plain_digits ip -> plain_digits fp ->
        (Z.of_nat (List.length ip + List.length fp) <= MAX_EMAX)%Z ->
        parse_price (ip ++ lit "," ++ fp)
        = Ok (Finite false (digits_value (ip ++ fp))
                (- Z.of_nat (List.length fp)))).
Proof.
  split; [ vm_compute; reflexivity | ].
  split; [ vm_compute; reflexivity | ].
  split; [ vm_compute; reflexivity | ].
  exact parse_price_keeps_digits.
Qed.

Lemma parse_price_thousands_witness :
  lit "1200000" <> []
  /\ plain_digits (lit "1200000")
  /\ plain_digits (lit "00")
  /\ parse_price (lit "1200000" ++ lit "," ++ lit "00")
     = Ok (Finite false (digits_value (lit "1200000" ++ lit "00"))
             (- Z.of_nat (List.length (lit "00")))).
Proof.
  assert (H1 : lit "1200000" <> []) by discriminate.
  assert (H2 : plain_digits (lit "1200000")) by (repeat constructor).
  assert (H3 : plain_digits (lit "00")) by (repeat constructor).
  split; [ exact H1 | ]. split; [ exact H2 | ]. split; [ exact H3 | ].
  destruct parse_price_thousands as (_ & _ & _ & H).
  apply H; try assumption. vm_compute. discriminate.
Defined.

(** *** The texts that the Decimal constructor takes *)

Lemma span_spec p s a b :
  span p s = (a, b) -> s = a ++ b /\ forallb p a = true.
Proof.
  revert a b. induction s as [ | c r IH ]; intros a b H.
  - injection H as <- <-. split; reflexivity.
  - cbn [span] in H. destruct (p c) eqn:Hc.
    + destruct (span p r) as [a' b'] eqn:E. injection H as <- <-.
      destruct (IH _ _ eq_refl) as [-> Ha]. split; [ reflexivity | ].
      cbn [forallb]. rewrite Hc, Ha. reflexivity.
    + injection H as <- <-. split; reflexivity.
Qed.

Lemma starts_with_spec p s r : starts_with p s = Some r -> s = p ++ r.
Proof.
  revert s. induction p as [ | a p' IH ]; intros s H.
  - injection H as <-. reflexivity.
  - destruct s as [ | b s' ]; [ discriminate | ]. cbn [starts_with] in H.
    destruct (N.eqb_spec a b) as [-> | _]; [ | discriminate ].
    rewrite (IH _ H). reflexivity.
Qed.

Lemma plain_forallb s : plain_digits s -> forallb is_ascii_digit s = true.
Proof.
  intros H. apply forallb_forall. unfold plain_digits in H.
  rewrite Forall_forall in H. exact H.
Qed.

Lemma starts_with_self s : starts_with s s = Some [].
Proof.
  induction s as [ | c r IH ]; [ reflexivity | ].
  cbn [starts_with]. rewrite N.eqb_refl. exact IH.
Qed.

Lemma str_eqb_eq a b : str_eqb a b = true -> a = b.
Proof.
  unfold str_eqb. destruct (list_eq_dec N.eq_dec a b); congruence.
Qed.

Lemma parse_sign_spec (s : str) neg (body : str) :
  parse_sign s = (neg, body) -> exists sg, s = sg ++ body /\ sign_of sg neg.
Proof.
  unfold sign_of. destruct s as [ | c r ].
  - intros H. injection H as <- <-. exists []. auto.
  - destruct (N.eq_dec c 43) as [-> | H43].
    { intros H. injection H as <- <-. exists (lit "+"). auto. }
    destruct (N.eq_dec c 45) as [-> | H45].
    { intros H. injection H as <- <-. exists (lit "-"). auto 6. }
    intros H.
    assert (E : parse_sign (c :: r) = (false, c :: r)).
    { unfold parse_sign. destruct c as [ | q ]; [ reflexivity | ].
      repeat (destruct q as [ q | q | ]; try reflexivity); congruence. }
    rewrite E in H. injection H as <- <-. exists []. auto.
Qed.

Lemma parse_sign_signed (sg : str) neg (c : char) (r : str) :
  sign_of sg neg -> c <> 43 -> c <> 45 ->
  parse_sign (sg ++ c :: r) = (neg, c :: r).
Proof.
  intros [[-> ->] | [[-> ->] | [-> ->]]] H43 H45; try reflexivity.
  cbn [app]. unfold parse_sign. destruct c as [ | q ]; [ reflexivity | ].
  repeat (destruct q as [ q | q | ]; try reflexivity); congruence.
Qed.

Lemma nocase_head (k : char) (kw : str) (c : char) (r : str) :
  lower c <> k -> starts_with_nocase (k :: kw) (c :: r) = None.
Proof.
  intros H. unfold starts_with_nocase, is_prefix.
  cbn [List.length firstn map starts_with].
  destruct (N.eqb_spec k (lower c)) as [E | _]; [ congruence | reflexivity ].
Qed.

Lemma digit_not_letter (c : char) :
  is_ascii_digit c = true \/ c = 46 ->
  c <> 43 /\ c <> 45 /\ c <> 101 /\ c <> 69
  /\ lower c <> 110 /\ lower c <> 115 /\ lower c <> 105.
Proof.
  intros [H | ->]; [ | repeat split; discriminate ].
  apply ascii_digit_cases in H. simpl in H.
  repeat (destruct H as [<- | H]; [ repeat split; discriminate | ]).
  destruct H.
Qed.

Lemma parse_numeric_string_finite (sg : str) neg (c : char) (r : str) :
  sign_of sg neg -> is_ascii_digit c = true \/ c = 46 ->
  parse_numeric_string (sg ++ c :: r) = parse_finite neg (c :: r).
Proof.
  intros Hs Hc. apply digit_not_letter in Hc.
  destruct Hc as (H43 & H45 & _ & _ & Hn & Hsn & Hi).
  unfold parse_numeric_string.
  rewrite (parse_sign_signed sg neg c r Hs H43 H45).
  change (lit "nan") with (110 :: lit "an").
  change (lit "snan") with (115 :: lit "nan").
  change (lit "inf") with (105 :: lit "nf").
  rewrite !nocase_head by assumption. reflexivity.
Qed.

Lemma parse_exponent_numeral (sg : str) neg (ds : str) :
  sign_of sg neg -> ds <> [] -> plain_digits ds ->
  parse_exponent (sg ++ ds)
  = Some (if neg then - Z.of_N (digits_value ds)
          else Z.of_N (digits_value ds))%Z.
Proof.
  intros Hs Hne Hd. destruct ds as [ | c r ]; [ congruence | ].
  assert (Hc : is_ascii_digit c = true) by (inversion Hd; assumption).
  destruct (digit_not_letter c (or_introl Hc)) as (H43 & H45 & _).
  unfold parse_exponent.
  rewrite (parse_sign_signed sg neg c r Hs H43 H45).
  rewrite (plain_forallb _ Hd). reflexivity.
Qed.

Lemma fits_limits (ip fp : str) e :
  fits (Nat.max 1 (List.length (drop_zeros (ip ++ fp))))
    (e - Z.of_nat (List.length fp)) = true
  <-> within_limits ip fp e.
Proof.
  unfold fits, within_limits. rewrite andb_true_iff, !Z.leb_le. lia.
Qed.

Lemma exponent_head (ex : str) e (c : char) (r : str) :
  exponent_of_numeral ex e -> ex = c :: r ->
  is_ascii_digit c = false /\ c <> 46.
Proof.
  intros [[-> _] | (ind & sg & neg & ds & -> & Hind & _)] E;
    [ discriminate | ].
  injection E as <- _. destruct Hind as [-> | ->]; split;
    (reflexivity || discriminate).
Qed.

Lemma parse_exponent_part (ex : str) e :
  exponent_of_numeral ex e ->
  match ex with
  | [] => Some 0%Z
  | c :: r => if (c =? 101) || (c =? 69) then parse_exponent r else None
  end = Some e.
Proof.
  intros [[-> ->] | (ind & sg & neg & ds & -> & Hind & Hs & Hne & Hd & ->)];
    [ reflexivity | ].
  rewrite (parse_exponent_numeral sg neg ds Hs Hne Hd).
  destruct Hind as [-> | ->]; reflexivity.
Qed.

Lemma parse_finite_numeral neg (body ex ip fp : str) e :
  digits_of_numeral body ip fp -> exponent_of_numeral ex e ->
  within_limits ip fp e ->
  parse_finite neg (body ++ ex)
  = Some (Finite neg (digits_value (ip ++ fp))
            (e - Z.of_nat (List.length fp))).
Proof.
  intros (Hip & Hfp & Hne & Hbody) Hex Hlim.
  assert (Hhead : match ex with
                  | [] => True
                  | x :: _ => is_ascii_digit x = false
                  end).
  { destruct ex as [ | x r ]; [ exact I | ].
    apply (exponent_head _ _ _ _ Hex eq_refl). }
  unfold parse_finite.
  assert (Hsplit :
    exists r1, span is_ascii_digit (body ++ ex) = (ip, r1)
      /\ match r1 with
         | 46 :: r => span is_ascii_digit r
         | _ => ([], r1)
         end = (fp, ex)).
  { destruct Hbody as [-> | [-> ->]].
    - exists (lit "." ++ fp ++ ex). split.
      + rewrite <- app_assoc. apply span_prefix; [ exact Hip | reflexivity ].
      + change (lit "." ++ fp ++ ex) with (46 :: fp ++ ex). cbv iota.
        apply span_prefix; assumption.
    - exists ex. split; [ apply span_prefix; assumption | ].
      destruct ex as [ | x r ]; [ reflexivity | ].
      destruct (exponent_head _ _ _ _ Hex eq_refl) as [_ H46].
      destruct x as [ | q ]; [ reflexivity | ].
      repeat (destruct q as [ q | q | ]; try reflexivity); congruence. }
  destruct Hsplit as (r1 & -> & ->).
  destruct (ip ++ fp) as [ | d ds ] eqn:Eds; [ congruence | ].
  rewrite (parse_exponent_part ex e Hex). rewrite <- Eds.
  apply fits_limits in Hlim. rewrite Hlim. reflexivity.
Qed.

Lemma numeral_head (body ip fp ex : str) :
  digits_of_numeral body ip fp ->
  exists c r, body ++ ex = c :: r /\ (is_ascii_digit c = true \/ c = 46).
Proof.
  intros (Hip & Hfp & Hne & Hbody).
  destruct ip as [ | c ip' ].
  - destruct Hbody as [-> | [-> _]].
    + exists 46, (fp ++ ex). split; [ reflexivity | right; reflexivity ].
    + destruct Hne. reflexivity.
  - assert (Hc : is_ascii_digit c = true) by (inversion Hip; assumption).
    destruct Hbody as [-> | [_ ->]]; eexists c, _;
      (split; [ reflexivity | left; exact Hc ]).
Qed.

Lemma parse_numeric_string_numeral (a : str) neg (ip fp : str) e :
  numeral a neg ip fp e -> within_limits ip fp e ->
  parse_numeric_string a
  = Some (Finite neg (digits_value (ip ++ fp))
            (e - Z.of_nat (List.length fp))).
Proof.
  intros (sg & body & ex & -> & Hs & Hd & Hex) Hlim.
  destruct (numeral_head body ip fp ex Hd) as (c & r & E & Hc).
  rewrite E, (parse_numeric_string_finite sg neg c r Hs Hc), <- E.
  apply parse_finite_numeral; assumption.
Qed.

Lemma nocase_match (kw k r : str) :
  map lower k = kw -> starts_with_nocase kw (k ++ r) = Some r.
Proof.
  intros <-. unfold starts_with_nocase. rewrite length_map.
  rewrite firstn_app, firstn_all, Nat.sub_diag. cbn [firstn].
  rewrite app_nil_r. unfold is_prefix. rewrite starts_with_self.
  rewrite skipn_app, skipn_all, Nat.sub_diag. reflexivity.
Qed.

Lemma nocase_spec (kw body r : str) :
  starts_with_nocase kw body = Some r ->
  exists k, body = k ++ r /\ map lower k = kw.
Proof.
  unfold starts_with_nocase, is_prefix.
  destruct (starts_with kw (map lower (firstn (List.length kw) body)))
    as [rest | ] eqn:E; [ | discriminate ].
  intros H. injection H as <-.
  apply starts_with_spec in E.
  exists (firstn (List.length kw) body).
  split; [ symmetry; apply firstn_skipn | ].
  assert (Hlen : List.length (map lower (firstn (List.length kw) body))
                 = (List.length kw + List.length rest)%nat)
    by (rewrite E; apply length_app).
  rewrite length_map in Hlen.
  pose proof (firstn_le_length (List.length kw) body) as Hle.
  destruct rest as [ | x rest' ]; [ | simpl in Hlen; lia ].
  rewrite E. apply app_nil_r.
Qed.

Lemma keyword_head (kw k : str) :
  In kw [lit "inf"; lit "infinity"; lit "nan"; lit "snan"] ->
  map lower k = kw ->
  exists c r, k = c :: r /\ c <> 43 /\ c <> 45 /\ lower c = hd 0 kw.
Proof.
  intros Hkw E. destruct k as [ | c r ].
  { subst kw. simpl in Hkw.
    repeat (destruct Hkw as [Hkw | Hkw]; [ discriminate | ]).
    destruct Hkw. }
  exists c, r. split; [ reflexivity | ].
  assert (Hc : lower c = hd 0 kw) by (subst kw; reflexivity).
  assert (Hl : hd 0 kw = 105 \/ hd 0 kw = 110 \/ hd 0 kw = 115).
  { simpl in Hkw. destruct Hkw as [<- | [<- | [<- | [<- | []]]]]; auto. }
  repeat split; try exact Hc; intros ->; unfold lower in Hc; simpl in Hc;
    rewrite <- Hc in Hl; destruct Hl as [Hl | [Hl | Hl]]; discriminate.
Qed.

Lemma parse_numeric_string_special (a : str) :
  special_value a -> exists d, parse_numeric_string a = Some d.
Proof.
  intros (sg & neg & kw & ds & -> & Hs & Hkw).
  assert (Hin : In (map lower kw)
                  [lit "inf"; lit "infinity"; lit "nan"; lit "snan"]).
  { simpl. simpl in Hkw. tauto. }
  destruct (keyword_head _ kw Hin eq_refl) as (c & r & Ek & H43 & H45 & Hc).
  unfold parse_numeric_string.
  assert (Esign : parse_sign (sg ++ kw ++ ds) = (neg, kw ++ ds)).
  { rewrite Ek. cbn [app]. apply parse_sign_signed; assumption. }
  rewrite Esign.
  destruct Hkw as [[Hk ->] | [Hk Hd]].
  - rewrite app_nil_r.
    assert (E1 : starts_with_nocase (lit "nan") kw = None).
    { rewrite Ek. change (lit "nan") with (110 :: lit "an").
      apply nocase_head. rewrite Hc.
      destruct Hk as [<- | [<- | []]]; discriminate. }
    assert (E2 : starts_with_nocase (lit "snan") kw = None).
    { rewrite Ek. change (lit "snan") with (115 :: lit "nan").
      apply nocase_head. rewrite Hc.
      destruct Hk as [<- | [<- | []]]; discriminate. }
    rewrite E1, E2.
    destruct Hk as [Hk | [Hk | []]].
    + rewrite <- (app_nil_r kw), (nocase_match (lit "inf") kw [] (eq_sym Hk)).
      exists (Infinity neg). reflexivity.
    + assert (Hsplit : kw = firstn 3 kw ++ skipn 3 kw)
        by (symmetry; apply firstn_skipn).
      assert (Hf : map lower (firstn 3 kw) = lit "inf").
      { rewrite <- firstn_map, <- Hk. reflexivity. }
      assert (Hr : map lower (skipn 3 kw) = lit "inity").
      { rewrite <- skipn_map, <- Hk. reflexivity. }
      rewrite Hsplit, (nocase_match (lit "inf") _ _ Hf), Hr.
      change (str_eqb (lit "inity") (lit "inity")) with true.
      rewrite orb_true_r. exists (Infinity neg). reflexivity.
  - apply plain_forallb in Hd.
    destruct Hk as [Hk | [Hk | []]].
    + rewrite (nocase_match (lit "nan") kw ds (eq_sym Hk)).
      unfold parse_payload. rewrite Hd. eexists. reflexivity.
    + assert (E1 : starts_with_nocase (lit "nan") (kw ++ ds) = None).
      { rewrite Ek. cbn [app]. change (lit "nan") with (110 :: lit "an").
        apply nocase_head. rewrite Hc, <- Hk. discriminate. }
      rewrite E1, (nocase_match (lit "snan") kw ds (eq_sym Hk)).
      unfold parse_payload. rewrite Hd. eexists. reflexivity.
Qed.

Lemma forallb_plain (s : str) :
  forallb is_ascii_digit s = true -> plain_digits s.
Proof.
  intros H. unfold plain_digits. apply Forall_forall.
  rewrite forallb_forall in H. exact H.
Qed.

Lemma parse_exponent_spec (r : str) e :
  parse_exponent r = Some e ->
  exists sg neg ds,
    r = sg ++ ds /\ sign_of sg neg /\ ds <> [] /\ plain_digits ds
    /\ e = (if neg then - Z.of_N (digits_value ds)
            else Z.of_N (digits_value ds))%Z.
Proof.
  unfold parse_exponent.
  destruct (parse_sign r) as [neg ds] eqn:Es.
  apply parse_sign_spec in Es. destruct Es as (sg & -> & Hs).
  destruct ds as [ | c ds' ]; [ discriminate | ].
  destruct (forallb is_ascii_digit (c :: ds')) eqn:Hd; [ | discriminate ].
  intros H. injection H as <-.
  exists sg, neg, (c :: ds'). split; [ reflexivity | ].
  split; [ exact Hs | ]. split; [ discriminate | ].
  split; [ apply forallb_plain, Hd | reflexivity ].
Qed.

Lemma point_spec (r1 fp r2 : str) :
  match r1 with
  | 46 :: r => span is_ascii_digit r
  | _ => ([], r1)
  end = (fp, r2) ->
  plain_digits fp /\ (r1 = lit "." ++ fp ++ r2 \/ (fp = [] /\ r1 = r2)).
Proof.
  destruct r1 as [ | c r ].
  - intros H. injection H as <- <-. split; [ constructor | auto ].
  - destruct (N.eq_dec c 46) as [-> | Hc].
    + intros H. apply span_spec in H. destruct H as [-> Hfp].
      split; [ apply forallb_plain, Hfp | left; reflexivity ].
    + intros H.
      assert (E : (fp, r2) = ([], c :: r)).
      { rewrite <- H. destruct c as [ | q ]; [ reflexivity | ].
        repeat (destruct q as [ q | q | ]; try reflexivity). congruence. }
      injection E as -> ->. split; [ constructor | auto ].
Qed.

Lemma parse_finite_spec neg (s : str) d :
  parse_finite neg s = Some d ->
  exists body ex ip fp e,
    s = body ++ ex /\ digits_of_numeral body ip fp
    /\ exponent_of_numeral ex e /\ within_limits ip fp e
    /\ d = Finite neg (digits_value (ip ++ fp))
             (e - Z.of_nat (List.length fp)).
Proof.
  unfold parse_finite.
  destruct (span is_ascii_digit s) as [ip r1] eqn:Hs.
  apply span_spec in Hs. destruct Hs as [-> Hip].
  destruct (match r1 with
            | 46 :: r => span is_ascii_digit r
            | _ => ([], r1)
            end) as [fp r2] eqn:Hr.
  apply point_spec in Hr. destruct Hr as [Hfp Hr].
  destruct (ip ++ fp) as [ | x xs ] eqn:Eds; [ discriminate | ].
  rewrite <- Eds.
  destruct (match r2 with
            | [] => Some 0%Z
            | c :: r =>
                if (c =? 101) || (c =? 69) then parse_exponent r else None
            end) as [e | ] eqn:He; [ | discriminate ].
  destruct (fits (Nat.max 1 (List.length (drop_zeros (ip ++ fp))))
              (e - Z.of_nat (List.length fp))) eqn:Hfit; [ | discriminate ].
  intros H. injection H as <-.
  assert (Hex : exponent_of_numeral r2 e).
  { destruct r2 as [ | c r ].
    - injection He as <-. left. auto.
    - destruct ((c =? 101) || (c =? 69)) eqn:Hc; [ | discriminate ].
      apply parse_exponent_spec in He.
      destruct He as (sg & neg' & ds & -> & Hsg & Hne & Hd & ->).
      right. exists c, sg, neg', ds.
      apply orb_true_iff in Hc. rewrite !N.eqb_eq in Hc. auto 7. }
  assert (Hne : ip ++ fp <> []) by (rewrite Eds; discriminate).
  pose proof (forallb_plain _ Hip) as Hip'.
  destruct Hr as [-> | [-> ->]].
  - exists (ip ++ lit "." ++ fp), r2, ip, fp, e.
    split; [ rewrite <- !app_assoc; reflexivity | ].
    split; [ repeat (split; [ assumption | ]); left; reflexivity | ].
    split; [ exact Hex | ].
    split; [ apply fits_limits, Hfit | reflexivity ].
  - exists ip, r2, ip, [], e.
    split; [ reflexivity | ].
    split; [ repeat (split; [ assumption | ]); right; split; reflexivity | ].
    split; [ exact Hex | ].
    split; [ apply fits_limits, Hfit | reflexivity ].
Qed.

Lemma parse_numeric_string_spec (a : str) d :
  parse_numeric_string a = Some d ->
  (exists neg ip fp e,
     numeral a neg ip fp e /\ within_limits ip fp e
     /\ d = Finite neg (digits_value (ip ++ fp))
              (e - Z.of_nat (List.length fp)))
  \/ (special_value a
      /\ match d with Finite _ _ _ => False | _ => True end).
Proof.
  unfold parse_numeric_string.
  destruct (parse_sign a) as [neg body] eqn:Es.
  apply parse_sign_spec in Es. destruct Es as (sg & -> & Hs).
  destruct (starts_with_nocase (lit "nan") body) as [r | ] eqn:E1.
  { apply nocase_spec in E1. destruct E1 as (k & -> & Hk).
    unfold parse_payload.
    destruct (forallb is_ascii_digit r) eqn:Hd; [ | discriminate ].
    intros H. injection H as <-. right. split; [ | exact I ].
    exists sg, neg, k, r. split; [ reflexivity | ].
    split; [ exact Hs | ]. right. rewrite Hk.
    split; [ simpl; auto | apply forallb_plain, Hd ]. }
  destruct (starts_with_nocase (lit "snan") body) as [r | ] eqn:E2.
  { apply nocase_spec in E2. destruct E2 as (k & -> & Hk).
    unfold parse_payload.
    destruct (forallb is_ascii_digit r) eqn:Hd; [ | discriminate ].
    intros H. injection H as <-. right. split; [ | exact I ].
    exists sg, neg, k, r. split; [ reflexivity | ].
    split; [ exact Hs | ]. right. rewrite Hk.
    split; [ simpl; auto | apply forallb_plain, Hd ]. }
  destruct (starts_with_nocase (lit "inf") body) as [r | ] eqn:E3.
  { apply nocase_spec in E3. destruct E3 as (k & -> & Hk).
    destruct (str_eqb r [] || str_eqb (map lower r) (lit "inity")) eqn:Hr;
      [ | discriminate ].
    intros H. injection H as <-. right. split; [ | exact I ].
    exists sg, neg, (k ++ r), []. rewrite app_nil_r.
    split; [ reflexivity | ]. split; [ exact Hs | ]. left.
    split; [ | reflexivity ]. rewrite map_app, Hk.
    apply orb_true_iff in Hr. destruct Hr as [Hr | Hr];
      apply str_eqb_eq in Hr.
    - subst r. simpl. auto.
    - rewrite Hr. simpl. auto. }
  intros H. apply parse_finite_spec in H.
  destruct H as (b & ex & ip & fp & e & -> & Hd & Hex & Hlim & ->).
  left. exists neg, ip, fp, e. split; [ | auto ].
  exists sg, b, ex. auto.
Qed.

Lemma Decimal_of_str_accepted (s : str) :
  (exists d, Decimal_of_str s = Ok d) <-> accepted s.
Proof.
  unfold Decimal_of_str, accepted. split.
  - intros [d H].
    destruct (numeric_as_ascii s) as [a | ]; [ | discriminate ].
    destruct (parse_numeric_string a) as [d' | ] eqn:Hp; [ | discriminate ].
    exists a. split; [ reflexivity | ].
    apply parse_numeric_string_spec in Hp.
    destruct Hp as [(neg & ip & fp & e & Hn & Hl & _) | [Hsp _]];
      [ left; exists neg, ip, fp, e; split; assumption
      | right; exact Hsp ].
  - intros (a & -> & [(neg & ip & fp & e & Hn & Hl) | Hsp]).
    + rewrite (parse_numeric_string_numeral a neg ip fp e Hn Hl). eauto.
    + destruct (parse_numeric_string_special a Hsp) as [d ->]. eauto.
Qed.

Lemma numeral_digit (s : str) neg ip fp e :
  numeral s neg ip fp e -> existsb is_ascii_digit s = true.
Proof.
  intros (sg & body & ex & -> & _ & (Hip & Hfp & Hne & Hbody) & _).
  assert (Hd : existsb is_ascii_digit (ip ++ fp) = true).
  { destruct (ip ++ fp) as [ | c r ] eqn:E; [ congruence | ].
    assert (Hc : plain_digits (c :: r))
      by (rewrite <- E; apply Forall_app; auto).
    inversion Hc as [ | ? ? Hc' _ ]; subst. cbn [existsb].
    rewrite Hc'. reflexivity. }
  assert (Hb : existsb is_ascii_digit body = true).
  { apply existsb_exists in Hd. destruct Hd as (c & Hin & Hc).
    apply existsb_exists. exists c. split; [ | exact Hc ].
    apply in_app_or in Hin.
    destruct Hbody as [-> | [-> ->]].
    - apply in_or_app. destruct Hin as [Hin | Hin]; [ left; exact Hin | ].
      right. apply in_or_app. right. exact Hin.
    - destruct Hin as [Hin | []]. exact Hin. }
  rewrite !existsb_app, Hb, orb_true_r. reflexivity.
Qed.

(** C5, as the code has it: [parse_price] raises exactly when the cleaned
    text is empty or is not a text that the Decimal constructor takes, that
    is, once stripped, freed of underscores and with its decimal digits read
    as ASCII, neither a decimal numeral within the limits of the decimal
    module nor a special value; the error is always a ValueError, and it is
    raised for the empty text and for "abc". *)
Theorem parse_price_fails (text : str) :
  (parse_price text = Raise ValueError
   <-> clean_price text = [] \/ ~ accepted (clean_price text))
  /\ (forall e, parse_price text = Raise e -> e = ValueError)
  /\ parse_price (lit "") = Raise ValueError
  /\ parse_price (lit "abc") = Raise ValueError.
Proof.
  split; [ | split; [ apply parse_price_raises | split; reflexivity ] ].
  unfold parse_price.
  destruct (clean_price text) as [ | c r ].
  - split; [ intros _; left; reflexivity | reflexivity ].
  - destruct (Decimal_of_str (c :: r)) as [d | e] eqn:Hd.
    + split; [ discriminate | ].
      intros [H | H]; [ discriminate | ]. exfalso. apply H.
      apply Decimal_of_str_accepted. eauto.
    + pose proof (Decimal_of_str_raises _ _ Hd) as He. subst e.
      split; [ | reflexivity ].
      intros _. right. intros Ha. apply Decimal_of_str_accepted in Ha.
      destruct Ha as [d Hd']. congruence.
Qed.

(** A special value is no decimal numeral and is taken all the same, and
    a decimal numeral beyond the limits is refused: the failure is not
    exactly that of the texts that are no decimal numerals. *)
Lemma parse_price_not_numerals :
  ~ (forall text,
       clean_price text = [] \/ ~ decimal_numeral (clean_price text) ->
       parse_price text = Raise ValueError)
  /\ ~ (forall text,
          parse_price text = Raise ValueError ->
          clean_price text = [] \/ ~ decimal_numeral (clean_price text)).
Proof.
  split; intros H.
  - assert (E : parse_price (lit "NaN") = Raise ValueError).
    { apply H. right. intros (neg & ip & fp & e & Hn).
      apply numeral_digit in Hn. vm_compute in Hn. discriminate. }
    vm_compute in E. discriminate.
  - destruct (H (lit "1e1000000000000000000")) as [E | E].
    + vm_compute. reflexivity.
    + vm_compute in E. discriminate.
    + apply E. change (clean_price (lit "1e1000000000000000000"))
        with (lit "1e1000000000000000000").
      exists false, (lit "1"), [], 1000000000000000000%Z.
      exists [], (lit "1"), (lit "e1000000000000000000").
      split; [ reflexivity | ]. split; [ left; auto | ].
      split.
      * split; [ repeat constructor | ]. split; [ constructor | ].
        split; [ discriminate | right; auto ].
      * right. exists 101, [], false, (lit "1000000000000000000").
        split; [ reflexivity | ]. split; [ auto | ].
        split; [ left; auto | ]. split; [ discriminate | ].
        split; [ repeat constructor | reflexivity ].
Qed.

Lemma parse_price_fails_witness :
  clean_price (lit "abc") = lit "abc"
  /\ ~ accepted (clean_price (lit "abc"))
  /\ parse_price (lit "abc") = Raise ValueError.
Proof.
  assert (H : ~ accepted (clean_price (lit "abc"))).
  { intros Ha. apply Decimal_of_str_accepted in Ha. destruct Ha as [d Hd].
    vm_compute in Hd. discriminate. }
  split; [ reflexivity | ]. split; [ exact H | ].
  destruct (parse_price_fails (lit "abc")) as ((_ & Hback) & _).
  apply Hback. right. exact H.
Defined.

(** C10: [parse_price] accepts a signed text and an exponent form: "-5"
    gives the Decimal -5, which is below zero, and "1e3" gives 1E+3. *)
Theorem parse_price_signed_and_exponent :
  parse_price (lit "-5") = Ok (Finite true 5 0)
  /\ Decimal_lt (Finite true 5 0) Decimal_zero = Ok true
  /\ parse_price (lit "1e3") = Ok (Finite false 1 3)
  /\ eqb (Finite false 1 3) (Finite false 1000 0) = true.
Proof. repeat split; vm_compute; reflexivity. Qed.

(** ** Rows and lots *)

Lemma digit_ranges_ascii :
  forallb (fun r => ((fst r =? 48) && (snd r =? 57)) || (128 <=? fst r))
    (decimal_ranges ++ other_digit_ranges) = true.
Proof. vm_compute. reflexivity. Qed.

Lemma char_isdigit_ascii c :
  char_isdigit c = true -> c < 128 -> is_ascii_digit c = true.
Proof.
  unfold char_isdigit, in_ranges. rewrite <- existsb_app.
  intros H Hc. apply existsb_exists in H. destruct H as ([lo hi] & Hin & Hr).
  pose proof digit_ranges_ascii as Hall.
  rewrite forallb_forall in Hall. specialize (Hall _ Hin).
  simpl in Hall, Hr. unfold is_ascii_digit.
  apply andb_true_iff in Hr. destruct Hr as [Hlo Hhi].
  apply orb_true_iff in Hall. destruct Hall as [Hall | Hall].
  - apply andb_true_iff in Hall. destruct Hall as [E1 E2].
    apply N.eqb_eq in E1, E2. subst. rewrite Hlo, Hhi. reflexivity.
  - apply N.leb_le in Hall, Hlo. lia.
Qed.

Lemma isdigit_ascii s :
  isdigit s = true -> Forall (fun c => c < 128) s -> ascii_digits s.
Proof.
  unfold isdigit, ascii_digits. destruct s as [ | c r ]; [ discriminate | ].
  intros H Hs. split; [ discriminate | ].
  rewrite forallb_forall in H. rewrite Forall_forall in Hs |- *.
  intros x Hx. apply char_isdigit_ascii; auto.
Qed.

Section Claims.

Variable BeautifulSoup : str -> PageElement.
Variable nfkc : str -> str.
Variable host_ok : str -> bool.

Let rows (html : str) : list PageElement :=
  find_all (lit "tr") (BeautifulSoup html).

Lemma parse_row_short row :
  (List.length (cells row) < 7)%nat -> parse_row nfkc host_ok row = Ok None.
Proof.
  unfold cells, parse_row.
  destruct (find_all (lit "td") row)
    as [ | c0 [ | c1 [ | c2 [ | c3 [ | c4 [ | c5 [ | c6 rest ]]]]]]];
    simpl; intros H; try reflexivity; lia.
Qed.

Lemma parse_row_not_digits row c :
  cell_text row 0 = Some c -> isdigit c = false ->
  parse_row nfkc host_ok row = Ok None.
Proof.
  unfold cell_text, cells, parse_row.
  destruct (find_all (lit "td") row)
    as [ | c0 [ | c1 [ | c2 [ | c3 [ | c4 [ | c5 [ | c6 rest ]]]]]]];
    simpl; intros H Hd; try reflexivity.
  injection H as <-. rewrite Hd. reflexivity.
Qed.

Lemma parse_row_Raise row e :
  parse_row nfkc host_ok row = Raise e ->
  qualifies row
  /\ exists name_cell tag href,
       nth_error (cells row) 1 = Some name_cell
       /\ find_with_attr (lit "a") (lit "href") name_cell = Some (tag, href)
       /\ urljoin nfkc host_ok BASE_URL href = Raise e.
Proof.
  unfold parse_row, qualifies, cell_text, cells.
  destruct (find_all (lit "td") row)
    as [ | c0 [ | c1 [ | c2 [ | c3 [ | c4 [ | c5 [ | c6 rest ]]]]]]];
    try discriminate.
  destruct (isdigit (get_text (lit " ") c0)) eqn:Hd; simpl negb; cbv iota;
    try discriminate.
  intros H. split.
  { split; [ simpl; lia | ]. exists (get_text (lit " ") c0). auto. }
  exists c1.
  destruct (find_with_attr (lit "a") (lit "href") c1) as [[t href] | ].
  - exists t, href. split; [ reflexivity | ]. split; [ reflexivity | ].
    destruct (urljoin nfkc host_ok BASE_URL href) as [a | e'].
    + cbn [bind] in H.
      destruct (parse_price (get_text (lit " ") c5)) as [d | e'] eqn:Hp;
        [ discriminate | ].
      apply parse_price_raises in Hp. subst e'. discriminate.
    + cbn [bind] in H. congruence.
  - cbn [bind] in H.
    destruct (parse_price (get_text (lit " ") c5)) as [d | e'] eqn:Hp;
      [ discriminate | ].
    apply parse_price_raises in Hp. subst e'. discriminate.
Qed.

Lemma parse_rows_Raise rs acc e :
  parse_rows nfkc host_ok rs acc = Raise e ->
  exists row, In row rs /\ parse_row nfkc host_ok row = Raise e.
Proof.
  revert acc. induction rs as [ | row rest IH ]; intros acc H.
  - discriminate.
  - cbn [parse_rows] in H.
    destruct (parse_row nfkc host_ok row) as [o | e'] eqn:Hr.
    + cbn [bind] in H.
      assert (Hrest : exists acc', parse_rows nfkc host_ok rest acc'
                                   = Raise e)
        by (destruct o; eauto).
      destruct Hrest as [acc' Hrest].
      destruct (IH _ Hrest) as (r & Hin & Hrow).
      exists r. split; [ right | ]; assumption.
    + cbn [bind] in H. exists row. split; [ left; reflexivity | ].
      congruence.
Qed.

(** A price that does not parse drops its row, and only its row: the
    list built so far goes unchanged to the remaining rows. *)
Lemma parse_rows_price_failure row rest acc u text e :
  qualifies row ->
  link_resolves nfkc host_ok row u ->
  cell_text row 5 = Some text ->
  parse_price text = Raise e ->
  parse_rows nfkc host_ok (row :: rest) acc
  = parse_rows nfkc host_ok rest acc.
Proof.
  unfold qualifies, link_resolves, cell_text, cells.
  intros (Hlen & c & Hc & Hd) (name_cell & Hn & Hu) Ht Hp.
  cbn [parse_rows]. unfold parse_row.
  destruct (find_all (lit "td") row)
    as [ | c0 [ | c1 [ | c2 [ | c3 [ | c4 [ | c5 [ | c6 cs ]]]]]]];
    simpl in Hlen; try lia.
  simpl in Hc, Hn, Ht. injection Hc as <-. injection Hn as <-.
  injection Ht as <-. rewrite Hd. simpl negb. cbv iota.
  pose proof (parse_price_raises _ _ Hp) as ->.
  destruct (find_with_attr (lit "a") (lit "href") c1) as [[t href] | ].
  - destruct Hu as (a & Ha & _). rewrite Ha. cbn [bind]. rewrite Hp.
    reflexivity.
  - cbn [bind]. rewrite Hp. reflexivity.
Qed.

(** C1, as the code has it: every lot that [parse_lots] returns has a
    code that passes [str.isdigit] (so a code within ASCII is made of the
    digits 0 to 9), and its price is what [parse_price] returns for the text
    of the sixth cell of its row; the sign of the price is not checked. *)
Theorem parse_lots_code_and_price (html : str) (lots : list Lot) :
  parse_lots BeautifulSoup nfkc host_ok html = Ok lots ->
  Forall
    (fun lot =>
       isdigit (code lot) = true
       /\ (Forall (fun c => c < 128) (code lot) -> ascii_digits (code lot))
       /\ exists row text,
            In row (rows html)
            /\ cell_text row 0 = Some (code lot)
            /\ cell_text row 5 = Some text
            /\ parse_price text = Ok (price lot))
    lots.
Proof.
  intros H. apply Forall_forall. intros lot Hin.
  destruct (parse_lots_In _ _ _ _ _ _ H Hin) as (row & Hrow & Hlot).
  apply parse_row_Some in Hlot.
  destruct Hlot as ((_ & c & Hc & Hd) & Hcode & _ & (t & Ht & Hp) & _).
  assert (c = code lot) by congruence. subst c.
  split; [ exact Hd | ]. split; [ apply isdigit_ascii, Hd | ].
  exists row, t. auto.
Qed.

Lemma parse_row_None row :
  parse_row nfkc host_ok row = Ok None -> dropped row.
Proof.
  unfold parse_row, dropped, qualifies, cell_text, cells.
  destruct (find_all (lit "td") row)
    as [ | c0 [ | c1 [ | c2 [ | c3 [ | c4 [ | c5 [ | c6 rest ]]]]]]];
    try (intros _; left; intros [Hlen _]; simpl in Hlen; lia).
  destruct (isdigit (get_text (lit " ") c0)) eqn:Hd; simpl negb; cbv iota.
  - intros H. right. exists (get_text (lit " ") c5).
    split; [ reflexivity | ].
    destruct (match find_with_attr (lit "a") (lit "href") c1 with
              | Some (_, href) =>
                  u0 <- urljoin nfkc host_ok BASE_URL href ;; Ok (Some u0)
              | None => Ok None
              end) as [u | e]; [ | discriminate H ].
    cbn [bind] in H.
    destruct (parse_price (get_text (lit " ") c5)) as [d | e] eqn:Hp;
      [ discriminate | ].
    apply parse_price_raises in Hp. subst e. reflexivity.
  - intros _. left. intros (_ & c & Hc & Hd'). simpl in Hc.
    injection Hc as <-. congruence.
Qed.

Lemma parse_lots_extracted html lots :
  parse_lots BeautifulSoup nfkc host_ok html = Ok lots ->
  extracted nfkc host_ok (rows html) lots.
Proof.
  unfold parse_lots. intros H. apply parse_rows_spec in H.
  destruct H as (os & Hos & ->). simpl. fold (rows html) in Hos.
  induction Hos as [ | row o rs os' Hro _ IH ]; [ constructor | ].
  destruct o as [lot | ]; simpl.
  - apply parse_row_Some in Hro. destruct Hro as (Hq & Hrest).
    apply extracted_keep; assumption.
  - apply extracted_drop; [ apply parse_row_None, Hro | exact IH ].
Qed.

Lemma lot_of_row_unique row a b :
  lot_of_row nfkc host_ok row a -> lot_of_row nfkc host_ok row b -> a = b.
Proof.
  intros (Hc1 & Ht1 & (x1 & Hx1 & Hp1) & (n1 & Hn1 & Hu1))
         (Hc2 & Ht2 & (x2 & Hx2 & Hp2) & (n2 & Hn2 & Hu2)).
  assert (x2 = x1) by congruence. subst x2.
  assert (n2 = n1) by congruence. subst n2.
  assert (Hu : url a = url b).
  { destruct (find_with_attr (lit "a") (lit "href") n1) as [[t href] | ].
    - destruct Hu1 as (u1 & Hj1 & ->), Hu2 as (u2 & Hj2 & ->). congruence.
    - congruence. }
  destruct a, b. simpl in *. congruence.
Qed.

Lemma dropped_not_kept row lot :
  dropped row -> qualifies row -> lot_of_row nfkc host_ok row lot -> False.
Proof.
  intros [Hn | (x & Hx & Hp)] Hq (_ & _ & (y & Hy & Hp') & _);
    [ exact (Hn Hq) | ].
  assert (y = x) by congruence. subst y. congruence.
Qed.

Lemma extracted_unique rs l1 l2 :
  extracted nfkc host_ok rs l1 -> extracted nfkc host_ok rs l2 -> l1 = l2.
Proof.
  intros H1. revert l2.
  induction H1 as [ | row rs l1 Hd _ IH | row rs lot l1 Hq Hl _ IH ];
    intros l2 H2.
  - inversion H2. reflexivity.
  - inversion H2 as [ | ? ? ? _ Hr | ? ? lot' l2' Hq' Hl' Hr ]; subst.
    + apply IH, Hr.
    + destruct (dropped_not_kept row lot' Hd Hq' Hl').
  - inversion H2 as [ | ? ? ? Hd Hr | ? ? lot' l2' Hq' Hl' Hr ]; subst.
    + destruct (dropped_not_kept row lot Hd Hq Hl).
    + f_equal; [ eapply lot_of_row_unique; eassumption | apply IH, Hr ].
Qed.

(** C3, as the code has it: the cells of a row are the [td] elements
    anywhere inside it, and a code is a text that passes [str.isdigit].  A
    row with fewer than seven such cells, or whose first cell reads "12a",
    gives no lot; and the lots that [parse_lots] returns are, one for one
    and in the order of the document, the lots of the rows that qualify and
    have a price that parses: no other list stands for these rows. *)
Theorem parse_lots_qualifying_rows (html : str) (lots : list Lot) :
  (forall row,
     (List.length (cells row) < 7)%nat
     \/ cell_text row 0 = Some (lit "12a") ->
     parse_row nfkc host_ok row = Ok None)
  /\ (parse_lots BeautifulSoup nfkc host_ok html = Ok lots ->
      extracted nfkc host_ok (rows html) lots
      /\ forall lots', extracted nfkc host_ok (rows html) lots' ->
                       lots' = lots).
Proof.
  split.
  - intros row [H | H]; [ apply parse_row_short, H | ].
    eapply parse_row_not_digits; [ exact H | reflexivity ].
  - intros H. apply parse_lots_extracted in H. split; [ exact H | ].
    intros lots' H'. eapply extracted_unique; eassumption.
Qed.

(** What the loop does with a row that qualifies and has a price that
    parses: its lot goes to the end of the list. *)
Lemma parse_rows_keep row rest acc c t text d u :
  qualifies row ->
  cell_text row 0 = Some c -> cell_text row 1 = Some t ->
  cell_text row 5 = Some text -> parse_price text = Ok d ->
  link_resolves nfkc host_ok row u ->
  parse_rows nfkc host_ok (row :: rest) acc
  = parse_rows nfkc host_ok rest
      (acc ++ [ {| code := c; title := t; price := d; url := u |} ]).
Proof.
  unfold qualifies, link_resolves, cell_text, cells.
  intros (Hlen & c' & Hc' & Hd) Hc Ht Hx Hp (name_cell & Hn & Hu).
  cbn [parse_rows]. unfold parse_row.
  destruct (find_all (lit "td") row)
    as [ | c0 [ | c1 [ | c2 [ | c3 [ | c4 [ | c5 [ | c6 cs ]]]]]]];
    simpl in Hlen; try lia.
  simpl in Hc', Hc, Ht, Hx, Hn. injection Hc' as <-. injection Hc as <-.
  injection Ht as <-. injection Hx as <-. injection Hn as <-.
  rewrite Hd. simpl negb. cbv iota.
  destruct (find_with_attr (lit "a") (lit "href") c1) as [[tag href] | ].
  - destruct Hu as (a & Ha & ->). rewrite Ha. cbn [bind]. rewrite Hp.
    reflexivity.
  - subst u. cbn [bind]. rewrite Hp. reflexivity.
Qed.

(** C8, as the code has it: the title takes no part in the choice of
    rows.  Every lot is the lot of a row of the page that qualifies, with
    the text of the second cell of that row as its title; and a row that
    qualifies and has a price that parses puts its lot on the list whatever
    the text of its second cell is, the empty text included, with a link in
    that cell or without. *)
Theorem parse_lots_title (html : str) (lots : list Lot) :
  (parse_lots BeautifulSoup nfkc host_ok html = Ok lots ->
   Forall
     (fun lot => exists row, In row (rows html)
                             /\ qualifies row
                             /\ lot_of_row nfkc host_ok row lot)
     lots)
  /\ (forall row rest acc c t text d u,
        qualifies row ->
        cell_text row 0 = Some c -> cell_text row 1 = Some t ->
        cell_text row 5 = Some text -> parse_price text = Ok d ->
        link_resolves nfkc host_ok row u ->
        parse_rows nfkc host_ok (row :: rest) acc
        = parse_rows nfkc host_ok rest
            (acc ++ [ {| code := c; title := t; price := d; url := u |} ])).
Proof.
  split.
  - intros H. apply Forall_forall. intros lot Hin.
    destruct (parse_lots_In _ _ _ _ _ _ H Hin) as (row & Hrow & Hlot).
    apply parse_row_Some in Hlot. destruct Hlot as (Hq & Hl).
    exists row. split; [ exact Hrow | ]. split; assumption.
  - apply parse_rows_keep.
Qed.

(** C9: on the synthetic table of two rows, one lot row ("42", "Lot A"
    with a link to "/x", "1 000,50 руб." in the sixth cell) and one row
    that starts with "N/A", [parse_lots] returns the one lot of code "42",
    title "Lot A", price 1000.50 and address "https://torgi.org/x". *)
Theorem parse_lots_synthetic (html : str) :
  BeautifulSoup html = synthetic_page ->
  parse_lots BeautifulSoup nfkc host_ok html
  = Ok [ {| code := lit "42"; title := lit "Lot A";
            price := Finite false 100050 (-2);
            url := Some (BASE_URL ++ lit "/x") |} ].
Proof.
  intros H. unfold parse_lots. rewrite H. vm_compute. reflexivity.
Qed.

End Claims.

(** ** The claims on the sample pages *)

Lemma parse_lots_synthetic_witness :
  sample_parser synthetic_html = synthetic_page
  /\ parse_lots sample_parser no_nfkc any_host synthetic_html
     = Ok synthetic_lots.
Proof.
  split; [ vm_compute; reflexivity | ].
  apply (parse_lots_synthetic sample_parser no_nfkc any_host synthetic_html).
  vm_compute. reflexivity.
Defined.

(** The page with a code in Arabic-Indic digits and a price of -5 gives two
    lots, of which the first has a code outside [0-9] and the second a price
    below zero: neither half of the invariant holds of every lot. *)
Lemma parse_lots_unusual_lots :
  ~ (forall lots,
       parse_lots sample_parser no_nfkc any_host unusual_html = Ok lots ->
       Forall (fun lot => ascii_digits (code lot)) lots)
  /\ ~ (forall lots,
          parse_lots sample_parser no_nfkc any_host unusual_html = Ok lots ->
          Forall (fun lot => nonnegative (price lot)) lots).
Proof.
  assert (E : parse_lots sample_parser no_nfkc any_host unusual_html
              = Ok unusual_lots) by (vm_compute; reflexivity).
  split; intros H; specialize (H _ E).
  - inversion H as [ | ? ? [_ Hcode] _ ]; subst.
    inversion Hcode as [ | ? ? Hc _ ]; subst.
    vm_compute in Hc. discriminate.
  - inversion H as [ | ? ? _ Hrest ]; subst.
    inversion Hrest as [ | ? ? Hneg _ ]; subst.
    vm_compute in Hneg. discriminate.
Qed.

Lemma parse_lots_code_and_price_witness :
  parse_lots sample_parser no_nfkc any_host unusual_html = Ok unusual_lots
  /\ Forall
       (fun lot =>
          isdigit (code lot) = true
          /\ (Forall (fun c => c < 128) (code lot) -> ascii_digits (code lot))
          /\ exists row text,
               In row (find_all (lit "tr") (sample_parser unusual_html))
               /\ cell_text row 0 = Some (code lot)
               /\ cell_text row 5 = Some text
               /\ parse_price text = Ok (price lot))
       unusual_lots.
Proof.
  split; [ vm_compute; reflexivity | ].
  apply (parse_lots_code_and_price sample_parser no_nfkc any_host
           unusual_html unusual_lots).
  vm_compute. reflexivity.
Defined.

(** The page whose outer row has two cells of its own gives a lot for that
    row, and so does the page whose code is a superscript two: on neither
    page does a row pass the test as the claim words it. *)
Lemma parse_lots_nested_and_superscript :
  ~ (forall lots,
       parse_lots corner_parser no_nfkc any_host nested_html = Ok lots ->
       Forall
         (fun lot =>
            exists row,
              In row (find_all (lit "tr") (corner_parser nested_html))
              /\ qualifies_as_claimed row)
         lots)
  /\ ~ (forall lots,
          parse_lots corner_parser no_nfkc any_host superscript_html
          = Ok lots ->
          Forall
            (fun lot =>
               exists row,
                 In row
                   (find_all (lit "tr") (corner_parser superscript_html))
                 /\ qualifies_as_claimed row)
            lots).
Proof.
  split; intros H.
  - assert (E : parse_lots corner_parser no_nfkc any_host nested_html
                = Ok nested_lots) by (vm_compute; reflexivity).
    specialize (H _ E). inversion H as [ | ? ? (row & Hin & Hlen & _) _ ].
    subst.
    vm_compute in Hin.
    destruct Hin as [<- | [<- | []]]; vm_compute in Hlen; lia.
  - assert (E : parse_lots corner_parser no_nfkc any_host superscript_html
                = Ok superscript_lots) by (vm_compute; reflexivity).
    specialize (H _ E).
    inversion H as [ | ? ? (row & Hin & _ & cell & Hcell & Hd) _ ]. subst.
    vm_compute in Hin. destruct Hin as [<- | []].
    vm_compute in Hcell. injection Hcell as <-.
    vm_compute in Hd. discriminate.
Qed.

Lemma parse_lots_qualifying_rows_witness :
  parse_lots sample_parser no_nfkc any_host synthetic_html = Ok synthetic_lots
  /\ extracted no_nfkc any_host
       (find_all (lit "tr") (sample_parser synthetic_html)) synthetic_lots.
Proof.
  split; [ vm_compute; reflexivity | ].
  apply (parse_lots_qualifying_rows sample_parser no_nfkc any_host
           synthetic_html synthetic_lots).
  vm_compute. reflexivity.
Defined.

(** The page whose only row has an empty second cell gives a lot, and the
    title of that lot is empty. *)
Lemma parse_lots_empty_title :
  ~ (forall lots,
       parse_lots sample_parser no_nfkc any_host untitled_html = Ok lots ->
       Forall (fun lot => title lot <> []) lots).
Proof.
  intros H.
  assert (E : parse_lots sample_parser no_nfkc any_host untitled_html
              = Ok untitled_lots) by (vm_compute; reflexivity).
  specialize (H _ E).
  inversion H as [ | ? ? Ht _ ]; subst. apply Ht. reflexivity.
Qed.

Lemma parse_lots_title_witness :
  parse_lots sample_parser no_nfkc any_host untitled_html = Ok untitled_lots
  /\ Forall
       (fun lot => exists row,
            In row (find_all (lit "tr") (sample_parser untitled_html))
            /\ qualifies row
            /\ lot_of_row no_nfkc any_host row lot)
       untitled_lots.
Proof.
  split; [ vm_compute; reflexivity | ].
  apply (parse_lots_title sample_parser no_nfkc any_host
           untitled_html untitled_lots).
  vm_compute. reflexivity.
Defined.

(** C2: a price that does not parse drops its row and nothing else, the
    loop going on with the list built so far; but on the page whose link has
    the target "//[", [urljoin] raises a ValueError outside the [try] block
    and [parse_lots] raises it too.  No other error leaves [parse_lots]:
    whenever it raises, a qualifying row has a link in its second cell on
    whose target [urljoin] raises that error. *)
Theorem parse_lots_raises_on_link :
  (forall nfkc host_ok row rest acc u text e,
     qualifies row ->
     link_resolves nfkc host_ok row u ->
     cell_text row 5 = Some text ->
     parse_price text = Raise e ->
     parse_rows nfkc host_ok (row :: rest) acc
     = parse_rows nfkc host_ok rest acc)
  /\ (forall nfkc host_ok,
        parse_lots sample_parser nfkc host_ok bad_link_html
        = Raise ValueError)
  /\ (forall BeautifulSoup nfkc host_ok html e,
        parse_lots BeautifulSoup nfkc host_ok html = Raise e ->
        exists row name_cell tag href,
          In row (find_all (lit "tr") (BeautifulSoup html))
          /\ qualifies row
          /\ nth_error (cells row) 1 = Some name_cell
          /\ find_with_attr (lit "a") (lit "href") name_cell
             = Some (tag, href)
          /\ urljoin nfkc host_ok BASE_URL href = Raise e).
Proof.
  split; [ | split ].
  - intros nfkc host_ok row rest acc u text e.
    apply parse_rows_price_failure.
  - intros nfkc host_ok. vm_compute. reflexivity.
  - intros BS nfkc host_ok html e H. unfold parse_lots in H.
    apply parse_rows_Raise in H. destruct H as (row & Hin & Hrow).
    apply parse_row_Raise in Hrow.
    destruct Hrow as (Hq & c & t & href & Hc & Hf & Hu).
    exists row, c, t, href. auto.
Qed.

Lemma parse_lots_raises_on_link_witness :
  parse_lots sample_parser no_nfkc any_host bad_link_html = Raise ValueError
  /\ exists row name_cell tag href,
       In row (find_all (lit "tr") (sample_parser bad_link_html))
       /\ qualifies row
       /\ nth_error (cells row) 1 = Some name_cell
       /\ find_with_attr (lit "a") (lit "href") name_cell = Some (tag, href)
       /\ urljoin no_nfkc any_host BASE_URL href = Raise ValueError.
Proof.
  destruct parse_lots_raises_on_link as (_ & Hbad & Hall).
  split; [ apply Hbad | ].
  apply (Hall sample_parser no_nfkc any_host bad_link_html ValueError).
  apply Hbad.
Defined.

(** * Further properties *)

(** ** Rows that are kept *)

Section RowsKept.

Variable BeautifulSoup : str -> PageElement.
Variable nfkc : str -> str.
Variable host_ok : str -> bool.

Lemma parse_row_not_skipped row text d :
  qualifies row -> cell_text row 5 = Some text -> parse_price text = Ok d ->
  parse_row nfkc host_ok row <> Ok None.
Proof.
  unfold qualifies, cell_text, cells, parse_row.
  intros (Hlen & c & Hc & Hd) Ht Hp.
  destruct (find_all (lit "td") row)
    as [ | c0 [ | c1 [ | c2 [ | c3 [ | c4 [ | c5 [ | c6 cs ]]]]]]];
    simpl in Hlen; try lia.
  simpl in Hc, Ht. injection Hc as <-. injection Ht as <-.
  rewrite Hd. simpl negb. cbv iota.
  destruct (find_with_attr (lit "a") (lit "href") c1) as [[t href] | ].
  - destruct (urljoin nfkc host_ok BASE_URL href); cbn [bind];
      [ rewrite Hp | ]; discriminate.
  - cbn [bind]. rewrite Hp. discriminate.
Qed.

Lemma parse_rows_outcome rs acc out row :
  parse_rows nfkc host_ok rs acc = Ok out -> In row rs ->
  exists o, parse_row nfkc host_ok row = Ok o
            /\ forall lot, o = Some lot -> In lot out.
Proof.
  intros H Hin. apply parse_rows_spec in H. destruct H as (os & Hos & ->).
  induction Hos as [ | r o rs' os' Hro _ IH ]; [ destruct Hin | ].
  destruct Hin as [<- | Hin].
  - exists o. split; [ exact Hro | ]. intros lot ->.
    apply in_or_app. right. simpl. left. reflexivity.
  - destruct (IH Hin) as (o' & Ho' & Hl). exists o'. split; [ exact Ho' | ].
    intros lot Hlot. specialize (Hl lot Hlot).
    apply in_app_or in Hl. apply in_or_app. destruct Hl as [Hl | Hl];
      [ left; exact Hl | right ].
    simpl. apply in_or_app. right. exact Hl.
Qed.

(** X1: when [parse_lots] returns, no row that qualifies and has a price
    that parses is lost: the list has a lot with the texts of the row's
    first and second cells as code and title and with that price. *)
Theorem parse_lots_keeps_row (html : str) (lots : list Lot)
    (row : PageElement) (text : str) (d : Decimal) :
  parse_lots BeautifulSoup nfkc host_ok html = Ok lots ->
  In row (find_all (lit "tr") (BeautifulSoup html)) ->
  qualifies row ->
  cell_text row 5 = Some text ->
  parse_price text = Ok d ->
  exists lot,
    In lot lots
    /\ cell_text row 0 = Some (code lot)
    /\ cell_text row 1 = Some (title lot)
    /\ price lot = d.
Proof.
  unfold parse_lots. intros H Hin Hq Ht Hp.
  destruct (parse_rows_outcome _ _ _ _ H Hin) as (o & Ho & Hl).
  destruct o as [lot | ].
  - exists lot. split; [ apply Hl; reflexivity | ].
    apply parse_row_Some in Ho.
    destruct Ho as (_ & Hc & Hti & (t & Ht' & Hp') & _).
    split; [ exact Hc | ]. split; [ exact Hti | ]. congruence.
  - exfalso. eapply parse_row_not_skipped; eassumption.
Qed.

Lemma urlunparse_nonempty p : pr_scheme p <> [] -> urlunparse p <> [].
Proof.
  unfold urlunparse, urlunsplit. destruct (pr_scheme p) as [ | c sch ];
    [ congruence | ]. intros _. cbn [nonempty app].
  destruct (nonempty (pr_query p)), (nonempty (pr_fragment p));
    cbn [app]; discriminate.
Qed.

Lemma urlparse_base :
  urlparse nfkc host_ok BASE_URL []
  = Ok {| pr_scheme := lit "https"; pr_netloc := lit "torgi.org";
          pr_path := []; pr_params := []; pr_query := [];
          pr_fragment := [] |}.
Proof. vm_compute. reflexivity. Qed.

Lemma urljoin_base_nonempty href u :
  urljoin nfkc host_ok BASE_URL href = Ok u -> u <> [].
Proof.
  unfold urljoin. change (nonempty BASE_URL) with true. cbv iota beta.
  cbn [negb]. destruct href as [ | h href' ].
  - cbn [nonempty negb]. intros H. injection H as <-. discriminate.
  - cbn [nonempty negb]. rewrite urlparse_base. cbn [bind pr_scheme].
    destruct (urlparse nfkc host_ok (h :: href') (lit "https")) as [r | e];
      [ | discriminate ].
    cbn [bind pr_netloc pr_path pr_params pr_query].
    destruct (negb (str_eqb (pr_scheme r) (lit "https"))
              || negb (mem (pr_scheme r) uses_relative)) eqn:Hs.
    + intros H. injection H as <-. discriminate.
    + apply orb_false_iff in Hs. destruct Hs as [Hs _].
      apply negb_false_iff, str_eqb_eq in Hs.
      destruct (mem (pr_scheme r) uses_netloc && nonempty (pr_netloc r)).
      * intros H. injection H as <-. apply urlunparse_nonempty.
        rewrite Hs. discriminate.
      * destruct (negb (nonempty (pr_path r))
                  && negb (nonempty (pr_params r)));
          intros H; injection H as <-; apply urlunparse_nonempty;
          cbn [pr_scheme]; rewrite Hs; discriminate.
Qed.

(** X2: every lot is the lot of a row of the page, and its address comes
    from the first link with an [href] in the second cell of that row,
    resolved against the base address; it is absent exactly when that cell
    has no such link, and an address that is present is never the empty
    text. *)
Theorem parse_lots_url (html : str) (lots : list Lot) :
  parse_lots BeautifulSoup nfkc host_ok html = Ok lots ->
  Forall
    (fun lot =>
       exists row name_cell,
         In row (find_all (lit "tr") (BeautifulSoup html))
         /\ qualifies row
         /\ lot_of_row nfkc host_ok row lot
         /\ nth_error (cells row) 1 = Some name_cell
         /\ match find_with_attr (lit "a") (lit "href") name_cell with
            | Some (_, href) =>
                exists u, urljoin nfkc host_ok BASE_URL href = Ok u
                          /\ url lot = Some u /\ u <> []
            | None => url lot = None
            end)
    lots.
Proof.
  intros H. apply Forall_forall. intros lot Hin.
  destruct (parse_lots_In _ _ _ _ _ _ H Hin) as (row & Hrow & Hlot).
  apply parse_row_Some in Hlot. destruct Hlot as (Hq & Hl).
  pose proof Hl as (_ & _ & _ & name_cell & Hn & Hu).
  exists row, name_cell. split; [ exact Hrow | ]. split; [ exact Hq | ].
  split; [ exact Hl | ]. split; [ exact Hn | ].
  destruct (find_with_attr (lit "a") (lit "href") name_cell)
    as [[t href] | ]; [ | exact Hu ].
  destruct Hu as (u & Hu & Hurl). exists u.
  split; [ exact Hu | ]. split; [ exact Hurl | ].
  eapply urljoin_base_nonempty. exact Hu.
Qed.

End RowsKept.

(** ** Errors of the filter and of the sort *)

Lemma in_range_outcome lo hi p :
  in_range lo hi p
  = if compares_nan lo hi p then Raise InvalidOperation
    else Ok (within lo hi p).
Proof.
  unfold in_range, compares_nan, within, leb, Decimal_lt, Decimal_gt,
    compare_check_nans.
  destruct lo as [a | ], hi as [b | ];
    repeat match goal with
           | |- context [is_nan ?x] => destruct (is_nan x)
           end; cbn [orb bind andb negb]; try reflexivity;
    try (rewrite (ltb_gtb p a); destruct (gtb a p); cbn [negb andb bind];
         try reflexivity);
    try (destruct (gtb p b); reflexivity).
Qed.

Lemma filterM_outcome {A} (p : A -> Exc bool) (h q : A -> bool) e l :
  (forall x, p x = if h x then Raise e else Ok (q x)) ->
  filterM p l = if existsb h l then Raise e else Ok (filter q l).
Proof.
  intros Hp. induction l as [ | x r IH ]; [ reflexivity | ].
  cbn [filterM existsb filter]. rewrite Hp.
  destruct (h x); cbn [bind orb]; [ reflexivity | ].
  rewrite IH. destruct (existsb h r); cbn [bind]; [ reflexivity | ].
  destruct (q x); reflexivity.
Qed.

(** X3: with a bound given, [filter_lots_by_price] raises
    [InvalidOperation], and nothing else, exactly when a comparison it makes
    on some lot has a NaN operand; otherwise it returns the lots within the
    bounds. *)
Theorem filter_lots_by_price_outcome
    (lots : list Lot) (min_price max_price : option Decimal) :
  min_price <> None \/ max_price <> None ->
  filter_lots_by_price lots min_price max_price
  = if existsb (fun lot => compares_nan min_price max_price (price lot)) lots
    then Raise InvalidOperation
    else Ok (filter (fun lot => within min_price max_price (price lot)) lots).
Proof.
  intros Hb.
  assert (E : filter_lots_by_price lots min_price max_price
              = filterM (fun lot => in_range min_price max_price (price lot))
                  lots).
  { unfold filter_lots_by_price.
    destruct min_price, max_price; try reflexivity.
    destruct Hb as [Hb | Hb]; congruence. }
  rewrite E. apply filterM_outcome. intros lot. apply in_range_outcome.
Qed.

Lemma existsb_false_Forall {A} (h : A -> bool) l :
  existsb h l = false -> Forall (fun x => h x = false) l.
Proof.
  induction l as [ | x r IH ]; [ constructor | ].
  cbn [existsb]. intros H. apply orb_false_iff in H. destruct H as [Hx Hr].
  constructor; auto.
Qed.

Lemma existsb_rev {A} (h : A -> bool) l : existsb h (rev l) = existsb h l.
Proof.
  destruct (existsb h l) eqn:E.
  - apply existsb_exists in E. destruct E as (x & Hin & Hx).
    apply existsb_exists. exists x. split; [ | exact Hx ].
    rewrite <- in_rev. exact Hin.
  - destruct (existsb h (rev l)) eqn:E'; [ | reflexivity ].
    apply existsb_exists in E'. destruct E' as (x & Hin & Hx).
    rewrite <- in_rev in Hin.
    assert (existsb h l = true) by (apply existsb_exists; eauto).
    congruence.
Qed.

Lemma StronglySorted_rev {A} (R : A -> A -> Prop) l :
  StronglySorted R l -> StronglySorted (fun a b => R b a) (rev l).
Proof.
  induction 1 as [ | x s Hs IH Hall ]; simpl; [ constructor | ].
  apply sorted_snoc; [ exact IH | ]. apply Forall_rev. exact Hall.
Qed.

Section SortOutcome.

Context {A : Type} (key : A -> Decimal).

Lemma insert_by_nan x y s :
  is_nan (key x) || is_nan (key y) = true ->
  insert_by key x (y :: s) = Raise InvalidOperation.
Proof.
  intros H. cbn [insert_by]. unfold Decimal_lt, compare_check_nans.
  rewrite orb_comm in H. rewrite H. reflexivity.
Qed.

Lemma stable_sort_raises l :
  (2 <= List.length l)%nat ->
  existsb (fun x => is_nan (key x)) l = true ->
  stable_sort key l = Raise InvalidOperation.
Proof.
  induction l as [ | x r IH ]; [ simpl; lia | ].
  intros Hlen Hnan. cbn [stable_sort].
  destruct (existsb (fun y => is_nan (key y)) r) eqn:Hr.
  - destruct r as [ | y [ | z r' ] ]; [ discriminate | | ].
    + cbn [stable_sort bind]. apply insert_by_nan.
      cbn [existsb] in Hr. rewrite orb_false_r in Hr. rewrite Hr.
      apply orb_true_r.
    + rewrite IH; [ reflexivity | simpl; lia | reflexivity ].
  - cbn [existsb] in Hnan. rewrite Hr, orb_false_r in Hnan.
    apply existsb_false_Forall in Hr.
    destruct (stable_sort_numeric key r Hr) as (s & Es & Ps & _).
    rewrite Es. cbn [bind].
    destruct s as [ | y s' ].
    + apply Permutation_length in Ps. simpl in Ps, Hlen. lia.
    + apply insert_by_nan. rewrite Hnan. reflexivity.
Qed.

Lemma stable_sort_sorted s :
  StronglySorted (fun a b => Decimal_ge (key b) (key a) = Ok true) s ->
  stable_sort key s = Ok s.
Proof.
  induction 1 as [ | x r Hr IH Hall ]; [ reflexivity | ].
  cbn [stable_sort]. rewrite IH. cbn [bind].
  destruct r as [ | y r' ]; [ reflexivity | ].
  inversion Hall as [ | ? ? Hy _ ]; subst.
  apply Decimal_ge_le in Hy. destruct Hy as (Hny & Hnx & Hle).
  cbn [insert_by]. rewrite Decimal_lt_numeric by assumption. cbn [bind].
  assert (E : ltb (key y) (key x) = false).
  { unfold le in Hle. rewrite Decimal_cmp_antisym in Hle. unfold ltb.
    destruct (Decimal_cmp (key y) (key x)); simpl in Hle; congruence. }
  rewrite E. reflexivity.
Qed.

End SortOutcome.

(** The sort on lots whose prices are numbers. *)
Lemma sort_descending_numeric lots :
  numeric_lots lots ->
  exists out,
    sort_descending lots = Ok out
    /\ Permutation lots out
    /\ descending out
    /\ (forall p, numeric p -> priced p out = priced p lots).
Proof.
  intros Hl.
  assert (Hr : Forall (fun x => numeric (price x)) (rev lots))
    by (apply Forall_rev, Hl).
  destruct (stable_sort_numeric price (rev lots) Hr)
    as (s & Es & Ps & As & Fs).
  exists (rev s). unfold sort_descending, sorted. rewrite Es.
  split; [ reflexivity | ]. split; [ | split ].
  - eapply perm_trans; [ apply Permutation_rev | ].
    eapply perm_trans; [ exact Ps | apply Permutation_rev ].
  - assert (Hs : Forall (fun x => numeric (price x)) (rev s)).
    { apply Forall_rev. eapply Permutation_Forall; eassumption. }
    apply ascending_rev in As. unfold descending.
    revert Hs. induction As as [ | x t Ht IH Hx ]; intros Hs.
    + constructor.
    + inversion Hs as [ | ? ? Hnx Hnt ]; subst.
      constructor; [ apply IH, Hnt | ].
      rewrite Forall_forall in Hx, Hnt |- *.
      intros y Hy. apply Decimal_ge_le. auto.
  - intros p Hp. unfold priced. rewrite filter_rev.
    rewrite (Fs p Hp), filter_rev. apply rev_involutive.
Qed.

Lemma sort_descending_nan_raises lots :
  (2 <= List.length lots)%nat -> has_nan lots = true ->
  sort_descending lots = Raise InvalidOperation.
Proof.
  intros Hlen Hnan. unfold sort_descending, sorted.
  rewrite stable_sort_raises; [ reflexivity | | ].
  - rewrite length_rev. exact Hlen.
  - rewrite existsb_rev. exact Hnan.
Qed.

(** X4: the sort raises [InvalidOperation], and nothing else, exactly when
    it is given two lots or more of which one has a NaN as price. *)
Theorem sort_descending_raises (lots : list Lot) (e : exn) :
  sort_descending lots = Raise e
  <-> e = InvalidOperation
      /\ (2 <= List.length lots)%nat /\ has_nan lots = true.
Proof.
  split.
  - intros H. destruct (has_nan lots) eqn:Hnan.
    + destruct lots as [ | x [ | y r ] ]; try discriminate.
      rewrite sort_descending_nan_raises in H;
        [ | simpl; lia | exact Hnan ].
      split; [ congruence | ]. split; [ simpl; lia | reflexivity ].
    + apply existsb_false_Forall in Hnan.
      destruct (sort_descending_numeric lots Hnan) as (out & E & _).
      congruence.
  - intros (-> & Hlen & Hnan).
    apply sort_descending_nan_raises; assumption.
Qed.

(** X5: a list whose prices already go down is returned as it is, so that
    sorting the result of the sort again changes nothing. *)
Theorem sort_descending_sorted (lots : list Lot) :
  (descending lots -> sort_descending lots = Ok lots)
  /\ (forall out, sort_descending lots = Ok out ->
        sort_descending out = Ok out).
Proof.
  assert (Hs : forall l, descending l -> sort_descending l = Ok l).
  { intros l Hd. unfold sort_descending, sorted.
    rewrite stable_sort_sorted.
    - cbn [bind]. rewrite rev_involutive. reflexivity.
    - apply StronglySorted_rev in Hd. exact Hd. }
  split; [ apply Hs | ].
  intros out Hout. apply Hs.
  destruct (has_nan lots) eqn:Hnan.
  - destruct lots as [ | x [ | y r ] ].
    + injection Hout as <-. constructor.
    + injection Hout as <-. constructor; constructor.
    + rewrite sort_descending_nan_raises in Hout;
        [ discriminate | simpl; lia | exact Hnan ].
  - apply existsb_false_Forall in Hnan.
    destruct (sort_descending_numeric lots Hnan) as (out' & E & _ & Hd & _).
    congruence.
Qed.

(** ** The prompt *)

Lemma ask_price_from_retry prompt line rest out :
  answer line = None ->
  ask_price_from prompt (line :: rest) out
  = ask_price_from prompt rest (out ++ [prompt] ++ [retry_message ++ [10]]).
Proof.
  unfold answer. cbn [ask_price_from].
  destruct (strip line) as [ | c r ]; [ discriminate | ].
  destruct (parse_price (c :: r)) as [d | e] eqn:Hp; [ discriminate | ].
  apply parse_price_raises in Hp. subst e. intros _.
  rewrite <- app_assoc. reflexivity.
Qed.

Lemma ask_price_from_answer prompt line rest out a :
  answer line = Some a ->
  ask_price_from prompt (line :: rest) out
  = (Done a, {| stdin := rest; stdout := out ++ [prompt] |}).
Proof.
  unfold answer. cbn [ask_price_from].
  destruct (strip line) as [ | c r ].
  - intros H. injection H as <-. reflexivity.
  - destruct (parse_price (c :: r)) as [d | e]; [ | discriminate ].
    intros H. injection H as <-. reflexivity.
Qed.

Lemma ask_price_from_skip prompt bad rest out :
  Forall (fun line => answer line = None) bad ->
  ask_price_from prompt (bad ++ rest) out
  = ask_price_from prompt rest (out ++ retries prompt bad).
Proof.
  intros Hbad. revert out.
  induction Hbad as [ | l bad' Hl _ IH ]; intros out.
  - unfold retries. cbn [app flat_map]. rewrite app_nil_r. reflexivity.
  - cbn [app]. rewrite ask_price_from_retry by exact Hl. rewrite IH.
    unfold retries. cbn [flat_map app]. rewrite <- !app_assoc.
    reflexivity.
Qed.

(** X6: [ask_price] asks until a line is blank or is a price: the lines
    before it are each answered with the retry message, the line itself
    gives no bound or that price, and the lines after it stay unread.  When
    no line is blank or a price the input runs out, which is the only way
    for [ask_price] to fail. *)
Theorem ask_price_first_answer
    (prompt : str) (bad : list str) (out : list str) :
  Forall (fun line => answer line = None) bad ->
  (forall line rest a,
     answer line = Some a ->
     ask_price prompt {| stdin := bad ++ line :: rest; stdout := out |}
     = (Done a,
        {| stdin := rest;
           stdout := out ++ retries prompt bad ++ [prompt] |}))
  /\ ask_price prompt {| stdin := bad; stdout := out |}
     = (Failed EOFError,
        {| stdin := []; stdout := out ++ retries prompt bad ++ [prompt] |}).
Proof.
  unfold ask_price. cbn [stdin stdout]. intros Hbad. split.
  - intros line rest a Ha. rewrite ask_price_from_skip by exact Hbad.
    rewrite (ask_price_from_answer _ _ _ _ a Ha).
    rewrite <- app_assoc. reflexivity.
  - rewrite <- (app_nil_r bad) at 1.
    rewrite ask_price_from_skip by exact Hbad.
    cbn [ask_price_from]. rewrite <- app_assoc. reflexivity.
Qed.

(** ** The program *)

Lemma parse_price_arg_answer t :
  parse_price_arg (Some t)
  = match answer t with
    | Some a => Ok a
    | None => Raise ValueError
    end.
Proof.
  unfold parse_price_arg, answer. destruct (strip t) as [ | c r ];
    [ reflexivity | ].
  destruct (parse_price (c :: r)) as [d | e] eqn:Hp; [ reflexivity | ].
  apply parse_price_raises in Hp. subst e. reflexivity.
Qed.

Lemma print_lots_lines lots w :
  print_lots lots w
  = (Done tt, {| stdin := stdin w; stdout := stdout w ++ lot_lines lots |}).
Proof.
  revert w. induction lots as [ | lot rest IH ]; intros [i o].
  - unfold lot_lines. cbn. rewrite app_nil_r. reflexivity.
  - cbn [print_lots]. unfold io_bind, print, write. cbn [stdin stdout].
    rewrite IH. cbn [stdin stdout]. unfold lot_lines. cbn [map].
    rewrite <- app_assoc. reflexivity.
Qed.

Lemma filter_lots_by_price_numeric lots lo hi :
  numeric_lots lots -> numeric_bound lo -> numeric_bound hi ->
  filter_lots_by_price lots lo hi
  = Ok (filter (fun lot => within lo hi (price lot)) lots).
Proof.
  intros Hl Hlo Hhi.
  assert (E : filterM (fun lot => in_range lo hi (price lot)) lots
              = Ok (filter (fun lot => within lo hi (price lot)) lots)).
  { apply filterM_pure. eapply Forall_impl; [ | exact Hl ].
    intros lot Hn. apply in_range_numeric; assumption. }
  unfold filter_lots_by_price. destruct lo, hi; try exact E.
  simpl. clear. induction lots as [ | x r IH ]; simpl; congruence.
Qed.

Lemma numeric_lots_filter f lots :
  numeric_lots lots -> numeric_lots (filter f lots).
Proof.
  unfold numeric_lots. rewrite !Forall_forall. intros H x Hx.
  apply filter_In in Hx. apply H, Hx.
Qed.

Section ProgramFacts.

Variable BeautifulSoup : str -> PageElement.
Variable nfkc : str -> str.
Variable host_ok : str -> bool.

(** The end of [main], from the bounds on. *)
Lemma main_from_bounds lots lo hi w :
  numeric_lots lots -> numeric_bound lo -> numeric_bound hi ->
  exists out,
    (filtered <~ lift (filter_lots_by_price lots
                         (fst (lo, hi)) (snd (lo, hi))) ;;
     sorted_lots <~ lift (sorted filtered price true) ;;
     _ <~ print_lots sorted_lots ;;
     io_ret sorted_lots) w
    = (Done out,
       {| stdin := stdin w; stdout := stdout w ++ lot_lines out |})
    /\ descending out
    /\ Permutation
         (filter (fun lot => within lo hi (price lot)) lots) out
    /\ (forall p, numeric p ->
          priced p out
          = priced p (filter (fun lot => within lo hi (price lot)) lots)).
Proof.
  intros Hl Hlo Hhi. cbn [fst snd].
  set (kept := filter (fun lot => within lo hi (price lot)) lots).
  destruct (sort_descending_numeric kept (numeric_lots_filter _ _ Hl))
    as (out & Es & Ps & Ds & Fs).
  exists out. split; [ | auto ].
  unfold io_bind, lift, io_ret.
  rewrite filter_lots_by_price_numeric by assumption. fold kept.
  unfold sort_descending in Es. rewrite Es.
  rewrite print_lots_lines. reflexivity.
Qed.

(** X7: when a price bound comes from the arguments, [main] does not read
    the console: it prints one line for each lot of the page that lies
    within the bounds, the prices going down and lots of one price in the
    order of the page, and nothing else. *)
Theorem main_with_arguments (html : str) (min_arg max_arg : option str)
    (lots : list Lot) (lo hi : option Decimal) (w : World) :
  parse_lots BeautifulSoup nfkc host_ok html = Ok lots ->
  parse_price_arg min_arg = Ok lo ->
  parse_price_arg max_arg = Ok hi ->
  lo <> None \/ hi <> None ->
  numeric_lots lots -> numeric_bound lo -> numeric_bound hi ->
  exists out,
    main BeautifulSoup nfkc host_ok html min_arg max_arg w
    = (Done out,
       {| stdin := stdin w; stdout := stdout w ++ lot_lines out |})
    /\ descending out
    /\ Permutation
         (filter (fun lot => within lo hi (price lot)) lots) out
    /\ (forall p, numeric p ->
          priced p out
          = priced p (filter (fun lot => within lo hi (price lot)) lots)).
Proof.
  intros Hp Hmin Hmax Hb Hl Hlo Hhi.
  destruct (main_from_bounds lots lo hi w Hl Hlo Hhi) as (out & E & Hout).
  exists out. split; [ | exact Hout ].
  unfold main. unfold io_bind at 1. unfold lift at 1. rewrite Hp.
  unfold io_bind at 1. unfold lift at 1. rewrite Hmin.
  unfold io_bind at 1. unfold lift at 1. rewrite Hmax.
  unfold io_bind at 1.
  destruct lo, hi; try (cbn [io_ret]; exact E).
  destruct Hb as [Hb | Hb]; congruence.
Qed.

End ProgramFacts.

Section ProgramConsole.

Variable BeautifulSoup : str -> PageElement.
Variable nfkc : str -> str.
Variable host_ok : str -> bool.



(** X9: an argument that is neither blank nor a price is not asked again:
    [main] fails with a ValueError, having read and printed nothing. *)
Theorem main_bad_argument (html : str) (lots : list Lot) (t : str)
    (w : World) :
  parse_lots BeautifulSoup nfkc host_ok html = Ok lots ->
  answer t = None ->
  (forall max_arg,
     main BeautifulSoup nfkc host_ok html (Some t) max_arg w
     = (Failed (Exception ValueError), w))
  /\ (forall min_arg lo,
        parse_price_arg min_arg = Ok lo ->
        main BeautifulSoup nfkc host_ok html min_arg (Some t) w
        = (Failed (Exception ValueError), w)).
Proof.
  intros Hp Ht.
  assert (E : parse_price_arg (Some t) = Raise ValueError)
    by (rewrite parse_price_arg_answer, Ht; reflexivity).
  split.
  - intros max_arg. unfold main. unfold io_bind at 1. unfold lift at 1.
    rewrite Hp. unfold io_bind at 1. unfold lift at 1. rewrite E.
    reflexivity.
  - intros min_arg lo Hmin. unfold main. unfold io_bind at 1.
    unfold lift at 1. rewrite Hp. unfold io_bind at 1. unfold lift at 1.
    rewrite Hmin. unfold io_bind at 1. unfold lift at 1. rewrite E.
    reflexivity.
Qed.

End ProgramConsole.

(** ** Printing a price and reading it back *)

Lemma digits_value_step acc c s :
  fold_left (fun a x => 10 * a + (x - 48)) (c :: s) acc
  = fold_left (fun a x => 10 * a + (x - 48)) s (10 * acc + (c - 48)).
Proof. reflexivity. Qed.

Lemma digits_fuel_value fuel n acc :
  n < 2 ^ N.of_nat fuel ->
  fold_left (fun a x => 10 * a + (x - 48)) (digits_fuel fuel n acc) 0
  = fold_left (fun a x => 10 * a + (x - 48)) acc n.
Proof.
  revert n acc. induction fuel as [ | f IH ]; intros n acc Hn.
  - simpl in Hn. assert (n = 0) by lia. subst n. reflexivity.
  - cbn [digits_fuel].
    pose proof (N.div_mod n 10 ltac:(lia)) as Hdm.
    pose proof (N.mod_lt n 10 ltac:(lia)) as Hm.
    destruct (N.eqb_spec (n / 10) 0) as [Hz | Hz].
    + rewrite digits_value_step. f_equal. clear - Hdm Hz.
      revert Hdm Hz. generalize (n / 10), (n mod 10). intros; lia.
    + rewrite IH.
      * rewrite digits_value_step. f_equal. clear - Hdm.
        revert Hdm. generalize (n / 10), (n mod 10). intros; lia.
      * rewrite Nnat.Nat2N.inj_succ, N.pow_succ_r' in Hn.
        apply N.Div0.div_lt_upper_bound. lia.
Qed.

Lemma log2_fuel n : n < 2 ^ N.of_nat (S (N.to_nat (N.log2 n))).
Proof.
  rewrite Nnat.Nat2N.inj_succ, Nnat.N2Nat.id.
  destruct (N.eq_dec n 0) as [-> | Hn]; [ reflexivity | ].
  apply N.log2_spec. lia.
Qed.

Lemma digits_of_value n : digits_value (digits_of n) = n.
Proof.
  unfold digits_value, digits_of. rewrite digits_fuel_value.
  - reflexivity.
  - apply log2_fuel.
Qed.

Lemma digit_char_plain k : k < 10 -> is_ascii_digit (48 + k) = true.
Proof.
  intros Hk. unfold is_ascii_digit. apply andb_true_iff.
  split; apply N.leb_le; lia.
Qed.

Lemma digits_fuel_plain fuel n acc :
  plain_digits acc -> plain_digits (digits_fuel fuel n acc).
Proof.
  revert n acc. induction fuel as [ | f IH ]; intros n acc Hacc;
    [ exact Hacc | ].
  cbn [digits_fuel].
  assert (Hd : plain_digits ((48 + n mod 10) :: acc)).
  { constructor; [ | exact Hacc ]. apply digit_char_plain.
    apply N.mod_lt. lia. }
  destruct (n / 10 =? 0); [ exact Hd | apply IH, Hd ].
Qed.

Lemma digits_of_plain n : plain_digits (digits_of n).
Proof. apply digits_fuel_plain. constructor. Qed.

(** The first digit is not a zero, but for the number zero. *)
Lemma digits_fuel_head fuel n acc :
  0 < n -> n < 2 ^ N.of_nat fuel ->
  exists d r, digits_fuel fuel n acc = d :: r /\ d <> 48.
Proof.
  revert n acc. induction fuel as [ | f IH ]; intros n acc Hpos Hn.
  - simpl in Hn. lia.
  - cbn [digits_fuel].
    pose proof (N.div_mod n 10 ltac:(lia)) as Hdm.
    pose proof (N.mod_lt n 10 ltac:(lia)) as Hm.
    destruct (N.eqb_spec (n / 10) 0) as [Hz | Hz].
    + exists (48 + n mod 10), acc. split; [ reflexivity | ].
      clear - Hdm Hz Hpos. revert Hdm Hz.
      generalize (n / 10), (n mod 10). intros; lia.
    + apply IH; [ clear - Hz; revert Hz; generalize (n / 10); intros; lia | ].
      rewrite Nnat.Nat2N.inj_succ, N.pow_succ_r' in Hn.
      apply N.Div0.div_lt_upper_bound. lia.
Qed.

Lemma digits_of_head n :
  exists d r, digits_of n = d :: r
              /\ is_ascii_digit d = true
              /\ (n <> 0 -> d <> 48).
Proof.
  destruct (N.eq_dec n 0) as [-> | Hn].
  - exists 48, []. repeat split. congruence.
  - destruct (digits_fuel_head (S (N.to_nat (N.log2 n))) n [])
      as (d & r & E & Hd); [ lia | apply log2_fuel | ].
    exists d, r. fold (digits_of n) in E. split; [ exact E | ].
    split; [ | intros _; exact Hd ].
    pose proof (digits_of_plain n) as Hp. rewrite E in Hp.
    inversion Hp; assumption.
Qed.

Lemma drop_zeros_head d r : d <> 48 -> drop_zeros (d :: r) = d :: r.
Proof.
  intros Hd. simpl. destruct d as [ | q ]; [ reflexivity | ].
  repeat (destruct q as [ q | q | ]; try reflexivity). congruence.
Qed.

Lemma drop_zeros_zeros k s : drop_zeros (zeros k ++ s) = drop_zeros s.
Proof. induction k as [ | k IH ]; [ reflexivity | exact IH ]. Qed.

Lemma digits_value_zeros k s :
  digits_value (zeros k ++ s) = digits_value s.
Proof. induction k as [ | k IH ]; [ reflexivity | exact IH ]. Qed.

Lemma zeros_plain k : plain_digits (zeros k).
Proof. induction k; constructor; auto. Qed.

(** The number of significant digits that the parser counts for the digits
    of [n] behind any zeros. *)
Lemma significant_digits n k :
  Nat.max 1 (List.length (drop_zeros (zeros k ++ digits_of n)))
  = List.length (digits_of n).
Proof.
  rewrite drop_zeros_zeros.
  destruct (N.eq_dec n 0) as [-> | Hn]; [ reflexivity | ].
  destruct (digits_of_head n) as (d & r & E & _ & Hd).
  rewrite E, drop_zeros_head by auto. simpl. lia.
Qed.

Lemma parse_exponent_signed k : parse_exponent (signed_str k) = Some k.
Proof.
  unfold parse_exponent, signed_str.
  destruct (digits_of_head (Z.abs_N k)) as (d & r & E & _ & _).
  pose proof (digits_of_plain (Z.abs_N k)) as Hp.
  pose proof (digits_of_value (Z.abs_N k)) as Hv.
  rewrite E in *. apply plain_forallb in Hp.
  destruct (Z.ltb_spec k 0) as [Hk | Hk].
  - change (parse_sign (lit "-" ++ d :: r)) with (true, d :: r).
    cbv beta match. rewrite Hp, Hv. f_equal. rewrite N2Z.inj_abs_N. lia.
  - change (parse_sign (lit "+" ++ d :: r)) with (false, d :: r).
    cbv beta match. rewrite Hp, Hv. f_equal. rewrite N2Z.inj_abs_N. lia.
Qed.

Lemma parse_finite_printed neg ip fp ex :
  ip <> [] -> plain_digits ip -> plain_digits fp ->
  fits (Nat.max 1 (List.length (drop_zeros (ip ++ fp))))
    (exponent_value ex - Z.of_nat (List.length fp)) = true ->
  parse_finite neg (ip ++ point_part fp ++ exponent_part ex)
  = Some (Finite neg (digits_value (ip ++ fp))
            (exponent_value ex - Z.of_nat (List.length fp))).
Proof.
  intros Hne Hip Hfp Hfit. unfold parse_finite.
  assert (Hex : match exponent_part ex with
                | [] => True
                | x :: _ => is_ascii_digit x = false
                end) by (destruct ex; [ reflexivity | exact I ]).
  assert (Hexp : match exponent_part ex with
                 | [] => Some 0%Z
                 | c :: r =>
                     if (c =? 101) || (c =? 69) then parse_exponent r
                     else None
                 end = Some (exponent_value ex)).
  { destruct ex as [k | ]; [ | reflexivity ]. cbn [exponent_part].
    change ((69 =? 101) || (69 =? 69)) with true. cbv iota.
    apply parse_exponent_signed. }
  destruct fp as [ | f fp' ].
  - cbn [point_part app]. rewrite span_prefix by assumption.
    rewrite app_nil_r in *.
    assert (E : (let (fp, r2) :=
                   match exponent_part ex with
                   | 46 :: r => span is_ascii_digit r
                   | _ => ([], exponent_part ex)
                   end in (fp, r2)) = ([], exponent_part ex)).
    { destruct ex; reflexivity. }
    destruct ex as [k | ]; cbn [exponent_part] in *.
    + cbv iota beta. rewrite app_nil_r.
      destruct ip as [ | c ip' ]; [ congruence | ].
      rewrite Hexp. cbn [List.length] in Hfit |- *.
      change (Z.of_nat 0) with 0%Z in *. rewrite Hfit. reflexivity.
    + cbv iota beta. rewrite app_nil_r.
      destruct ip as [ | c ip' ]; [ congruence | ].
      cbn [exponent_value] in Hfit |- *. rewrite Hfit. reflexivity.
  - cbn [point_part]. change ((46 :: f :: fp') ++ exponent_part ex)
      with (46 :: (f :: fp') ++ exponent_part ex).
    rewrite span_prefix by (assumption || reflexivity).
    cbv iota beta. rewrite span_prefix by assumption.
    destruct ip as [ | c ip' ]; [ congruence | ].
    cbn [app]. cbn [app] in Hfit. rewrite Hexp. rewrite Hfit. reflexivity.
Qed.

Lemma point_part_cons fp : fp <> [] -> point_part fp = 46 :: fp.
Proof. destruct fp; [ congruence | reflexivity ]. Qed.

Lemma zeros_length k : List.length (zeros k) = k.
Proof. apply repeat_length. Qed.

(** The numeral that [Decimal_str] prints for a finite value: digits, a
    fraction and an exponent that spell the coefficient and the exponent. *)
Lemma Decimal_str_shape neg c e :
  exists ip fp ex,
    Decimal_str (Finite neg c e)
    = sign_str neg ++ ip ++ point_part fp ++ exponent_part ex
    /\ ip <> [] /\ plain_digits ip /\ plain_digits fp
    /\ digits_value (ip ++ fp) = c
    /\ (exponent_value ex - Z.of_nat (List.length fp))%Z = e
    /\ Nat.max 1 (List.length (drop_zeros (ip ++ fp)))
       = List.length (digits_of c).
Proof.
  unfold Decimal_str.
  pose proof (digits_of_plain c) as Hp.
  pose proof (digits_of_value c) as Hv.
  destruct (digits_of_head c) as (d0 & r0 & E0 & _ & _).
  assert (Hlen : (1 <= List.length (digits_of c))%nat)
    by (rewrite E0; simpl; lia).
  assert (Hsplit : forall n,
            (1 <= n)%nat -> (n < List.length (digits_of c))%nat ->
            firstn n (digits_of c) <> []
            /\ skipn n (digits_of c) <> []
            /\ plain_digits (firstn n (digits_of c))
            /\ plain_digits (skipn n (digits_of c))
            /\ List.length (skipn n (digits_of c))
               = (List.length (digits_of c) - n)%nat).
  { intros n H1 H2.
    pose proof (firstn_skipn n (digits_of c)) as Hfs.
    pose proof (length_skipn n (digits_of c)) as Hls.
    pose proof (length_firstn n (digits_of c)) as Hlf.
    rewrite <- Hfs in Hp. apply Forall_app in Hp. destruct Hp as [Hpa Hpb].
    repeat split; try assumption.
    - intros E. rewrite E in Hlf. simpl in Hlf. lia.
    - intros E. rewrite E in Hls. simpl in Hls. lia. }
  set (int := digits_of c) in *.
  set (len := Z.of_nat (List.length int)).
  set (leftdigits := (e + len)%Z).
  destruct ((e <=? 0)%Z && (-6 <? leftdigits)%Z) eqn:Hc.
  - apply andb_true_iff in Hc. destruct Hc as [He Hl].
    apply Z.leb_le in He. apply Z.ltb_lt in Hl.
    rewrite Z.eqb_refl.
    destruct (Z.leb_spec leftdigits 0) as [Hd | Hd].
    + exists [48], (zeros (Z.to_nat (- leftdigits)) ++ int), None.
      assert (Hfp : zeros (Z.to_nat (- leftdigits)) ++ int <> [])
        by (rewrite E0; intros E; apply app_eq_nil in E;
            destruct E; discriminate).
      rewrite (point_part_cons _ Hfp).
      split; [ cbn [exponent_part]; rewrite !app_nil_r; reflexivity | ].
      split; [ discriminate | ]. split; [ repeat constructor | ].
      split; [ apply Forall_app; split; [ apply zeros_plain | exact Hp ] | ].
      split; [ | split ].
      * change ([48] ++ zeros (Z.to_nat (- leftdigits)) ++ int)
          with (zeros (S (Z.to_nat (- leftdigits))) ++ int).
        rewrite digits_value_zeros. exact Hv.
      * cbn [exponent_value]. rewrite length_app, zeros_length.
        unfold leftdigits, len in *. lia.
      * change ([48] ++ zeros (Z.to_nat (- leftdigits)) ++ int)
          with (zeros (S (Z.to_nat (- leftdigits))) ++ int).
        apply significant_digits.
    + destruct (Z.leb_spec len leftdigits) as [Hd' | Hd'].
      * assert (e = 0%Z) by (unfold leftdigits in *; lia). subst e.
        replace (leftdigits - len)%Z with 0%Z
          by (unfold leftdigits; lia).
        exists int, [], None. cbn [zeros repeat Z.to_nat point_part].
        rewrite !app_nil_r.
        split; [ reflexivity | ]. split; [ rewrite E0; discriminate | ].
        split; [ exact Hp | ]. split; [ constructor | ].
        split; [ exact Hv | ]. split; [ reflexivity | ].
        apply (significant_digits c 0).
      * destruct (Hsplit (Z.to_nat leftdigits))
          as (Ha & Hb & Hpa & Hpb & Hlb); [ lia | unfold len in *; lia | ].
        exists (firstn (Z.to_nat leftdigits) int),
          (skipn (Z.to_nat leftdigits) int), None.
        rewrite (point_part_cons _ Hb).
        split; [ cbn [exponent_part]; rewrite !app_nil_r; reflexivity | ].
        split; [ exact Ha | ]. split; [ exact Hpa | ].
        split; [ exact Hpb | ]. rewrite firstn_skipn.
        split; [ exact Hv | ]. split; [ | apply (significant_digits c 0) ].
        cbn [exponent_value]. rewrite Hlb.
        unfold leftdigits, len in *. lia.
  - apply andb_false_iff in Hc.
    assert (Hsci : (0 < e)%Z \/ (leftdigits <= -6)%Z).
    { destruct Hc as [Hc | Hc];
        [ apply Z.leb_gt in Hc; left | apply Z.ltb_ge in Hc; right ];
        exact Hc. }
    assert (Hne : leftdigits <> 1%Z)
      by (unfold leftdigits, len in *; lia).
    apply Z.eqb_neq in Hne. rewrite Hne.
    change (1 <=? 0)%Z with false. cbv iota.
    destruct (Z.leb_spec len 1) as [Hd | Hd].
    + assert (Hone : List.length int = 1%nat) by (unfold len in *; lia).
      replace (1 - len)%Z with 0%Z by (unfold len; lia).
      exists int, [], (Some (leftdigits - 1)%Z).
      cbn [zeros repeat Z.to_nat point_part app].
      rewrite !app_nil_r.
      split; [ reflexivity | ]. split; [ rewrite E0; discriminate | ].
      split; [ exact Hp | ]. split; [ constructor | ].
      split; [ exact Hv | ]. split; [ | apply (significant_digits c 0) ].
      cbn [exponent_value List.length]. unfold leftdigits, len. lia.
    + destruct (Hsplit 1%nat)
        as (Ha & Hb & Hpa & Hpb & Hlb); [ lia | unfold len in *; lia | ].
      exists (firstn 1 int), (skipn 1 int), (Some (leftdigits - 1)%Z).
      rewrite (point_part_cons _ Hb).
      change (Z.to_nat 1) with 1%nat.
      split; [ reflexivity | ].
      split; [ exact Ha | ]. split; [ exact Hpa | ].
      split; [ exact Hpb | ]. rewrite firstn_skipn.
      split; [ exact Hv | ]. split; [ | apply (significant_digits c 0) ].
      cbn [exponent_value]. rewrite Hlb. unfold leftdigits, len in *. lia.
Qed.

Lemma isspace_printable c : 32 < c -> c < 133 -> isspace c = false.
Proof.
  intros H1 H2. destruct (isspace c) eqn:E; [ | reflexivity ].
  unfold isspace, in_ranges in E. apply existsb_exists in E.
  destruct E as ([lo hi] & Hin & Hr). cbn [fst snd] in Hr.
  apply andb_true_iff in Hr. destruct Hr as [Hlo Hhi].
  apply N.leb_le in Hlo, Hhi. simpl in Hin.
  repeat (destruct Hin as [Hin | Hin];
          [ injection Hin as <- <-; lia | ]).
  destruct Hin.
Qed.

Lemma clean_char_facts c :
  clean_char c = true ->
  isspace c = false
  /\ (0 <? c) && (c <=? 127) && negb (c =? 95) = true
  /\ c <> 160 /\ c <> 1088 /\ c <> 32 /\ (44 =? c) = false.
Proof.
  unfold clean_char. intros H.
  apply andb_true_iff in H. destruct H as [H Hu].
  apply andb_true_iff in H. destruct H as [H Hc].
  apply andb_true_iff in H. destruct H as [Hlo Hhi].
  apply N.ltb_lt in Hlo, Hhi. apply negb_true_iff in Hu, Hc.
  apply N.eqb_neq in Hc.
  split; [ apply isspace_printable; lia | ].
  split.
  - rewrite Hu. apply andb_true_iff. split; [ | reflexivity ].
    apply andb_true_iff. split; [ apply N.ltb_lt | apply N.leb_le ]; lia.
  - repeat split; try lia. apply N.eqb_neq. congruence.
Qed.

Lemma plain_clean s : plain_digits s -> Forall (fun c => clean_char c = true) s.
Proof.
  intros H. eapply Forall_impl; [ | exact H ]. intros c Hc.
  apply ascii_digit_cases in Hc. simpl in Hc.
  repeat (destruct Hc as [<- | Hc]; [ reflexivity | ]). destruct Hc.
Qed.

Lemma clean_not_in s a :
  Forall (fun c => clean_char c = true) s ->
  a = 160 \/ a = 1088 \/ a = 32 \/ a = 44 -> ~ In a s.
Proof.
  intros Hs Ha Hin. rewrite Forall_forall in Hs.
  destruct (clean_char_facts a (Hs a Hin)) as (_ & _ & H1 & H2 & H3 & H4).
  apply N.eqb_neq in H4. lia.
Qed.

Lemma strip_clean s :
  Forall (fun c => clean_char c = true) s -> strip s = s.
Proof.
  intros H. apply strip_with_none. eapply Forall_impl; [ | exact H ].
  intros c Hc. apply clean_char_facts, Hc.
Qed.

Lemma comma_map_clean s :
  Forall (fun c => clean_char c = true) s ->
  map (fun c => if 44 =? c then 46 else c) s = s.
Proof.
  induction 1 as [ | c r Hc _ IH ]; [ reflexivity | ].
  cbn [map]. rewrite IH.
  destruct (clean_char_facts c Hc) as (_ & _ & _ & _ & _ & ->).
  reflexivity.
Qed.

Lemma clean_price_clean s :
  Forall (fun c => clean_char c = true) s -> clean_price s = s.
Proof.
  intros H. unfold clean_price.
  change NBSP with [160]. change (RUB ++ lit ".") with [1088; 1091; 1073; 46].
  change RUB with [1088; 1091; 1073]. change (lit " ") with [32].
  change (lit ",") with [44]. change (lit ".") with [46].
  rewrite (replace_absent 160 []) by (apply clean_not_in; auto).
  rewrite (replace_absent 1088 [1091; 1073; 46])
    by (apply clean_not_in; auto).
  rewrite (replace_absent 1088 [1091; 1073]) by (apply clean_not_in; auto).
  rewrite (replace_absent 32 []) by (apply clean_not_in; auto).
  rewrite replace_char, comma_map_clean by exact H.
  apply strip_clean, H.
Qed.

Lemma numeric_as_ascii_clean s :
  Forall (fun c => clean_char c = true) s -> numeric_as_ascii s = Some s.
Proof.
  intros H. unfold numeric_as_ascii. rewrite strip_clean by exact H.
  apply ascii_chars_plain. eapply Forall_impl; [ | exact H ].
  intros c Hc. apply clean_char_facts, Hc.
Qed.

Lemma parse_numeric_string_signed neg c r :
  is_ascii_digit c = true ->
  parse_numeric_string (sign_str neg ++ c :: r) = parse_finite neg (c :: r).
Proof.
  intros H. apply ascii_digit_cases in H. simpl in H.
  destruct neg;
    repeat (destruct H as [<- | H]; [ reflexivity | ]); destruct H.
Qed.

Lemma signed_str_clean k :
  Forall (fun c => clean_char c = true) (signed_str k).
Proof.
  unfold signed_str. apply Forall_app. split.
  - destruct (k <? 0)%Z; repeat constructor.
  - apply plain_clean, digits_of_plain.
Qed.

Lemma sign_str_clean neg : Forall (fun c => clean_char c = true) (sign_str neg).
Proof. destruct neg; repeat constructor. Qed.

(** What [Decimal_str] prints has no space, comma or underscore, and the
    constructor reads it back as the value printed. *)
Lemma Decimal_str_reads_back d :
  representable d ->
  Forall (fun c => clean_char c = true) (Decimal_str d)
  /\ Decimal_of_str (Decimal_str d) = Ok d.
Proof.
  destruct d as [neg c e | neg | neg sg p ]; intros Hr.
  - destruct (Decimal_str_shape neg c e)
      as (ip & fp & ex & E & Hne & Hip & Hfp & Hv & He & Hn).
    assert (Hclean : Forall (fun x => clean_char x = true)
                       (Decimal_str (Finite neg c e))).
    { rewrite E. repeat (apply Forall_app; split).
      - apply sign_str_clean.
      - apply plain_clean, Hip.
      - destruct fp; [ constructor | ]. cbn [point_part].
        constructor; [ reflexivity | apply plain_clean, Hfp ].
      - destruct ex; [ | constructor ]. cbn [exponent_part].
        constructor; [ reflexivity | apply signed_str_clean ]. }
    split; [ exact Hclean | ].
    unfold Decimal_of_str. rewrite numeric_as_ascii_clean by exact Hclean.
    rewrite E. destruct ip as [ | c0 ip' ]; [ congruence | ].
    cbn [app]. rewrite parse_numeric_string_signed
      by (inversion Hip; assumption).
    change (c0 :: ip' ++ point_part fp ++ exponent_part ex)
      with ((c0 :: ip') ++ point_part fp ++ exponent_part ex).
    rewrite parse_finite_printed; try assumption.
    + rewrite Hv, He. reflexivity.
    + rewrite Hn, He. exact Hr.
  - destruct neg; split; try reflexivity; repeat constructor.
  - destruct (N.eqb_spec p 0) as [-> | Hp].
    + destruct neg, sg; split; try reflexivity; repeat constructor.
    + assert (Hclean : Forall (fun x => clean_char x = true)
                         (Decimal_str (NaN neg sg p))).
      { cbn [Decimal_str]. apply N.eqb_neq in Hp. rewrite Hp.
        repeat (apply Forall_app; split).
        - apply sign_str_clean.
        - destruct sg; repeat constructor.
        - apply plain_clean, digits_of_plain. }
      split; [ exact Hclean | ].
      unfold Decimal_of_str. rewrite numeric_as_ascii_clean by exact Hclean.
      cbn [Decimal_str]. apply N.eqb_neq in Hp. rewrite Hp.
      assert (Hpl : parse_payload (digits_of p) = Some p).
      { unfold parse_payload.
        rewrite plain_forallb by apply digits_of_plain.
        rewrite digits_of_value. reflexivity. }
      assert (Hparse : parse_numeric_string
                         (sign_str neg
                          ++ (if sg then lit "sNaN" else lit "NaN")
                          ++ digits_of p)
                       = option_map (NaN neg sg)
                           (parse_payload (digits_of p))).
      { generalize (digits_of p). intros pl.
        destruct neg, sg; reflexivity. }
      rewrite Hparse, Hpl. reflexivity.
Qed.

Lemma replace_from_skip_all a old new r :
  replace_from (a :: old) new (List.length r) r = [].
Proof. induction r as [ | c r IH ]; [ reflexivity | exact IH ]. Qed.

(** An occurrence of [old] at the end, with none before it. *)
Lemma replace_suffix a old new pre :
  ~ In a pre ->
  replace (a :: old) new (pre ++ a :: old) = pre ++ new.
Proof.
  unfold replace. induction pre as [ | c r IH ]; intros Hn.
  - cbn [app replace_from]. unfold is_prefix. rewrite starts_with_self.
    replace (List.length (a :: old) - 1)%nat with (List.length old)
      by (simpl; lia).
    rewrite replace_from_skip_all, app_nil_r. reflexivity.
  - cbn [app replace_from]. unfold is_prefix. cbn [starts_with].
    destruct (N.eqb_spec a c) as [-> | _].
    + exfalso. apply Hn. left. reflexivity.
    + rewrite IH; [ reflexivity | ]. intros H. apply Hn. right. exact H.
Qed.

(** Replacing one character by nothing removes it everywhere. *)
Lemma replace_remove a s :
  replace [a] [] s = filter (fun c => negb (a =? c)) s.
Proof.
  unfold replace. induction s as [ | c r IH ]; [ reflexivity | ].
  cbn [replace_from filter]. unfold is_prefix. cbn [starts_with].
  destruct (a =? c); cbn [negb List.length Nat.sub app]; rewrite IH;
    reflexivity.
Qed.

Lemma filter_absent a s :
  ~ In a s -> filter (fun c => negb (a =? c)) s = s.
Proof.
  induction s as [ | c r IH ]; intros Hn; [ reflexivity | ].
  cbn [filter]. destruct (N.eqb_spec a c) as [-> | _].
  - exfalso. apply Hn. left. reflexivity.
  - cbn [negb]. rewrite IH; [ reflexivity | ].
    intros H. apply Hn. right. exact H.
Qed.

Lemma clean_price_with_currency s :
  Forall (fun c => clean_char c = true) s ->
  clean_price (s ++ lit " " ++ RUB ++ lit ".") = s.
Proof.
  intros H. unfold clean_price.
  change (lit " " ++ RUB ++ lit ".") with (32 :: [1088; 1091; 1073; 46]).
  change NBSP with [160]. change (RUB ++ lit ".") with [1088; 1091; 1073; 46].
  change RUB with [1088; 1091; 1073]. change (lit " ") with [32].
  change (lit ",") with [44]. change (lit ".") with [46].
  assert (Hs : forall a, a = 160 \/ a = 1088 \/ a = 32 \/ a = 44 ->
                         ~ In a s) by (intros a; apply clean_not_in, H).
  rewrite (replace_absent 160 []).
  2:{ intros Hin. apply in_app_or in Hin. destruct Hin as [Hin | Hin].
      - revert Hin. apply Hs. auto.
      - simpl in Hin. lia. }
  change (s ++ 32 :: [1088; 1091; 1073; 46])
    with (s ++ [32] ++ 1088 :: [1091; 1073; 46]).
  rewrite app_assoc. rewrite replace_suffix.
  2:{ intros Hin. apply in_app_or in Hin. destruct Hin as [Hin | Hin].
      - revert Hin. apply Hs. auto.
      - simpl in Hin. lia. }
  rewrite app_nil_r. rewrite (replace_absent 1088 [1091; 1073]).
  2:{ intros Hin. apply in_app_or in Hin. destruct Hin as [Hin | Hin].
      - revert Hin. apply Hs. auto.
      - simpl in Hin. lia. }
  rewrite replace_remove, filter_app, filter_absent by (apply Hs; auto).
  cbn [filter]. change (32 =? 32) with true. cbn [negb].
  rewrite app_nil_r, replace_char, comma_map_clean by exact H.
  apply strip_clean, H.
Qed.

(** X10: the price that [main] prints for a lot is read back by
    [parse_price] as the very Decimal that was printed, with sign,
    coefficient and exponent, also with the currency behind it as in the
    printed line. *)
Theorem printed_price_reads_back (d : Decimal) :
  representable d ->
  parse_price (Decimal_str d) = Ok d
  /\ parse_price (Decimal_str d ++ lit " " ++ RUB ++ lit ".") = Ok d.
Proof.
  intros Hr. destruct (Decimal_str_reads_back d Hr) as [Hc Hd].
  assert (E : forall t, clean_price t = Decimal_str d ->
                        parse_price t = Ok d).
  { intros t Ht. unfold parse_price. rewrite Ht, Hd.
    destruct (Decimal_str d); [ discriminate Hd | reflexivity ]. }
  split; apply E.
  - apply clean_price_clean, Hc.
  - apply clean_price_with_currency, Hc.
Qed.

(** ** Where a price below zero comes from *)

Lemma below_zero_sign d :
  Decimal_lt d Decimal_zero = Ok true -> sign_bit d = true.
Proof.
  unfold Decimal_lt, compare_check_nans, Decimal_zero.
  destruct d as [n c e | n | n sg p ]; cbn [is_nan orb bind sign_bit];
    [ | | discriminate ].
  - destruct n; [ reflexivity | ]. unfold ltb. cbn [Decimal_cmp].
    destruct (value false c e ?= value false 0 0)%Q eqn:E;
      try discriminate.
    intros _. exfalso. apply Qlt_alt in E.
    assert (H0 : (0 <= value false c e)%Q).
    { unfold value, signed. apply Qmult_le_0_compat.
      - rewrite <- (Zle_Qle 0). lia.
      - apply Qpower_0_le. discriminate. }
    assert (Hz : (value false 0 0 == 0)%Q) by reflexivity.
    rewrite Hz in E. apply (Qlt_irrefl 0).
    eapply Qle_lt_trans; eassumption.
  - destruct n; [ reflexivity | discriminate ].
Qed.

Lemma parse_sign_true c r b : parse_sign (c :: r) = (true, b) -> c = 45.
Proof.
  destruct (N.eq_dec c 45) as [-> | Hn]; [ reflexivity | ].
  intros H. exfalso. revert H. unfold parse_sign.
  destruct c as [ | q ]; [ discriminate | ].
  repeat (destruct q as [ q | q | ]; try discriminate). congruence.
Qed.

Lemma parse_finite_sign neg s d :
  parse_finite neg s = Some d -> sign_bit d = neg.
Proof.
  unfold parse_finite.
  destruct (span is_ascii_digit s) as [ip r1].
  destruct (match r1 with
            | 46 :: r => span is_ascii_digit r
            | _ => ([], r1)
            end) as [fp r2].
  destruct (ip ++ fp); [ discriminate | ].
  destruct (match r2 with
            | [] => Some 0%Z
            | c0 :: r =>
                if (c0 =? 101) || (c0 =? 69) then parse_exponent r else None
            end); [ | discriminate ].
  destruct (fits _ _); [ | discriminate ].
  intros H. injection H as <-. reflexivity.
Qed.

Lemma parse_numeric_string_sign s d :
  parse_numeric_string s = Some d -> sign_bit d = true ->
  exists r, s = 45 :: r.
Proof.
  unfold parse_numeric_string.
  destruct (parse_sign s) as [neg body] eqn:Hs. intros H Hd.
  assert (Hneg : sign_bit d = neg).
  { destruct (starts_with_nocase (lit "nan") body) as [r | ].
    - destruct (parse_payload r); [ | discriminate ].
      injection H as <-. reflexivity.
    - destruct (starts_with_nocase (lit "snan") body) as [r | ].
      + destruct (parse_payload r); [ | discriminate ].
        injection H as <-. reflexivity.
      + destruct (starts_with_nocase (lit "inf") body) as [r | ].
        * destruct (str_eqb r [] || str_eqb (map lower r) (lit "inity"));
            [ | discriminate ].
          injection H as <-. reflexivity.
        * eapply parse_finite_sign. exact H. }
  rewrite Hd in Hneg. subst neg.
  destruct s as [ | c r ]; [ discriminate | ].
  apply parse_sign_true in Hs. subst c. eauto.
Qed.

Lemma ascii_chars_In t u c :
  ascii_chars t = Some u -> In c u -> c < 48 -> In c t.
Proof.
  revert u. induction t as [ | x r IH ]; intros u H Hin Hc.
  - injection H as <-. destruct Hin.
  - cbn [ascii_chars] in H. destruct (x =? 95).
    + right. eapply IH; eassumption.
    + destruct (ascii_chars r) as [r' | ].
      * destruct ((0 <? x) && (x <=? 127)).
        -- injection H as <-. destruct Hin as [<- | Hin];
             [ left; reflexivity | right; eapply IH; eauto ].
        -- destruct (to_decimal x) as [v | ]; [ | discriminate ].
           unfold option_map in H. remember (48 + v) as w eqn:Hw.
           injection H as <-. apply in_inv in Hin.
           destruct Hin as [E | Hin];
             [ clear - E Hc Hw; lia | right; eapply IH; eauto ].
      * destruct ((0 <? x) && (x <=? 127)); [ discriminate | ].
        destruct (option_map (fun v => 48 + v) (to_decimal x));
          discriminate.
Qed.

Lemma lstrip_with_In p t c : In c (lstrip_with p t) -> In c t.
Proof.
  induction t as [ | x r IH ]; [ auto | ].
  cbn [lstrip_with]. destruct (p x); [ right; auto | auto ].
Qed.

Lemma strip_In t c : In c (strip t) -> In c t.
Proof.
  unfold strip, strip_with, rstrip_with. intros H.
  apply in_rev, lstrip_with_In in H. rewrite <- in_rev in H.
  apply lstrip_with_In in H. exact H.
Qed.

Lemma replace_from_In old new k s c :
  In c (replace_from old new k s) -> In c new \/ In c s.
Proof.
  revert k. induction s as [ | x r IH ]; intros k H.
  - cbn [replace_from] in H. destruct old; [ left; exact H | destruct H ].
  - cbn [replace_from] in H. destruct k as [ | k ].
    + destruct old as [ | a old' ].
      * apply in_app_or in H. destruct H as [H | [<- | H]];
          [ left; exact H | right; left; reflexivity | ].
        destruct (IH _ H); [ left | right; right ]; assumption.
      * destruct (is_prefix (a :: old') (x :: r)).
        -- apply in_app_or in H. destruct H as [H | H];
             [ left; exact H | ].
           destruct (IH _ H); [ left | right; right ]; assumption.
        -- destruct H as [<- | H]; [ right; left; reflexivity | ].
           destruct (IH _ H); [ left | right; right ]; assumption.
    + destruct (IH _ H); [ left | right; right ]; assumption.
Qed.

Lemma clean_price_In text c :
  In c (clean_price text) -> c <> 32 -> c <> 46 -> In c text.
Proof.
  unfold clean_price, replace. intros H H1 H2. apply strip_In in H.
  repeat (apply replace_from_In in H;
          destruct H as [H | H];
          [ simpl in H; exfalso;
            repeat (destruct H as [H | H]; [ congruence | ]); exact H | ]).
  exact H.
Qed.

(** X11: [parse_price] checks no sign, but a price below zero comes from a
    minus sign only: if the Decimal it returns is less than zero, the text
    has the character [-] in it. *)
Theorem parse_price_below_zero (text : str) (d : Decimal) :
  parse_price text = Ok d ->
  Decimal_lt d Decimal_zero = Ok true ->
  In 45 text.
Proof.
  intros Hp Hlt. apply below_zero_sign in Hlt.
  unfold parse_price in Hp.
  assert (Hd : Decimal_of_str (clean_price text) = Ok d).
  { destruct (clean_price text); [ discriminate | ].
    destruct (Decimal_of_str (c :: s)) as [d' | [ | ]]; congruence. }
  unfold Decimal_of_str, numeric_as_ascii in Hd.
  destruct (ascii_chars (strip (clean_price text))) as [a | ] eqn:Ha;
    [ | discriminate ].
  destruct (parse_numeric_string a) as [d' | ] eqn:Hn; [ | discriminate ].
  injection Hd as ->.
  destruct (parse_numeric_string_sign _ _ Hn Hlt) as (r & ->).
  apply (clean_price_In text 45); [ | lia | lia ].
  apply strip_In. eapply ascii_chars_In; [ exact Ha | left; reflexivity | lia ].
Qed.

(** ** Grouped digits *)

Lemma digits_in_plain s : plain_digits (digits_in s).
Proof.
  unfold plain_digits, digits_in. apply Forall_forall.
  intros c Hc. apply filter_In in Hc. apply Hc.
Qed.

Lemma spaced_unspaced s :
  spaced s ->
  filter (fun c => negb (32 =? c)) (map (fun c => if 160 =? c then 32 else c) s)
  = digits_in s.
Proof.
  unfold digits_in. induction 1 as [ | c r Hc _ IH ]; [ reflexivity | ].
  cbn [map filter]. rewrite IH. destruct Hc as [Hc | [-> | ->]];
    [ | reflexivity | reflexivity ].
  rewrite Hc. apply ascii_digit_cases in Hc. simpl in Hc.
  repeat (destruct Hc as [<- | Hc]; [ reflexivity | ]). destruct Hc.
Qed.

Lemma spaced_no_rub s :
  spaced s -> ~ In 1088 (map (fun c => if 160 =? c then 32 else c) s).
Proof.
  intros Hs Hin. apply in_map_iff in Hin. destruct Hin as (c & Hc & Hin).
  unfold spaced in Hs. rewrite Forall_forall in Hs.
  destruct (Hs c Hin) as [Hd | [-> | ->]]; try discriminate.
  apply ascii_digit_cases in Hd. simpl in Hd.
  repeat (destruct Hd as [<- | Hd]; [ discriminate | ]). destruct Hd.
Qed.

Lemma comma_map_plain t :
  plain_digits t -> map (fun c => if 44 =? c then 46 else c) t = t.
Proof.
  induction 1 as [ | c r Hc _ IH ]; [ reflexivity | ].
  cbn [map]. rewrite IH.
  destruct (plain_digit_facts c Hc) as (_ & _ & ->). reflexivity.
Qed.

Lemma clean_price_grouped a b (currency : bool) :
  spaced a -> spaced b ->
  clean_price (a ++ lit "," ++ b
               ++ (if currency then lit " " ++ RUB ++ lit "." else []))
  = digits_in a ++ 46 :: digits_in b.
Proof.
  intros Ha Hb. unfold clean_price.
  change NBSP with [160]. change (RUB ++ lit ".") with [1088; 1091; 1073; 46].
  change RUB with [1088; 1091; 1073]. change (lit " ") with [32].
  change (lit ",") with [44]. change (lit ".") with [46].
  rewrite (replace_char 160 32).
  set (m := map (fun c => if 160 =? c then 32 else c)).
  assert (Hpre : forall tail, ~ In 1088 tail ->
                   ~ In 1088 (m a ++ 44 :: m b ++ tail)).
  { intros tail Ht Hin. apply in_app_or in Hin. destruct Hin as [Hin | Hin].
    - revert Hin. apply spaced_no_rub, Ha.
    - destruct Hin as [Hin | Hin]; [ discriminate | ].
      apply in_app_or in Hin. destruct Hin as [Hin | Hin]; [ | auto ].
      revert Hin. apply spaced_no_rub, Hb. }
  assert (E : replace [1088; 1091; 1073] []
                (replace [1088; 1091; 1073; 46] []
                   (m (a ++ [44] ++ b
                       ++ (if currency then [32] ++ [1088; 1091; 1073; 46]
                           else []))))
              = m a ++ 44 :: m b ++ (if currency then [32] else [])).
  { assert (Em : forall tail,
              m (a ++ [44] ++ b ++ tail) = m a ++ 44 :: m b ++ m tail)
      by (intros tail; unfold m; rewrite !map_app; reflexivity).
    rewrite Em. destruct currency.
    - change (m ([32] ++ [1088; 1091; 1073; 46]))
        with ([32] ++ 1088 :: [1091; 1073; 46]).
      replace (m a ++ 44 :: m b ++ [32] ++ 1088 :: [1091; 1073; 46])
        with ((m a ++ 44 :: m b ++ [32]) ++ 1088 :: [1091; 1073; 46])
        by (rewrite <- app_assoc; cbn [app]; rewrite <- app_assoc;
            reflexivity).
      rewrite replace_suffix
        by (apply Hpre; simpl; intros [H | H]; [ discriminate | exact H ]).
      rewrite app_nil_r. apply replace_absent.
      apply Hpre. simpl. intros [H | H]; [ discriminate | exact H ].
    - change (m []) with (@nil char).
      rewrite (replace_absent 1088 [1091; 1073; 46])
        by (apply Hpre; simpl; auto).
      apply replace_absent. apply Hpre. simpl. auto. }
  match goal with
  | |- strip (replace _ _ (replace _ _ ?X)) = _ =>
      replace X with (m a ++ 44 :: m b ++ (if currency then [32] else []))
        by (symmetry; exact E)
  end.
  unfold m. rewrite replace_remove, filter_app. cbn [filter].
  change (negb (32 =? 44)) with true. cbv iota.
  rewrite filter_app. rewrite !spaced_unspaced by assumption.
  assert (Et : filter (fun c => negb (32 =? c))
                 (if currency then [32] else []) = [])
    by (destruct currency; reflexivity).
  rewrite Et, app_nil_r. rewrite replace_char, map_app. cbn [map].
  rewrite !comma_map_plain by apply digits_in_plain.
  change (44 =? 44) with true. cbv iota.
  apply strip_with_none. apply digits_point_Forall;
    try apply digits_in_plain; [ | reflexivity ].
  intros c Hc. apply plain_digit_facts, Hc.
Qed.

(** X12: digits grouped by spaces or no-break spaces, a decimal comma and
    the currency behind give the number that the digits spell: the groups
    are joined, every digit after the comma counts as a decimal, and the
    currency changes nothing. *)
Theorem parse_price_grouped (a b : str) (currency : bool) :
  spaced a -> spaced b -> digits_in a <> [] ->
  (Z.of_nat (List.length (digits_in a) + List.length (digits_in b))
   <= MAX_EMAX)%Z ->
  parse_price (a ++ lit "," ++ b
               ++ (if currency then lit " " ++ RUB ++ lit "." else []))
  = Ok (Finite false (digits_value (digits_in a ++ digits_in b))
          (- Z.of_nat (List.length (digits_in b)))).
Proof.
  intros Ha Hb Hne Hlen. unfold parse_price.
  rewrite clean_price_grouped by assumption.
  rewrite Decimal_of_str_point;
    [ | exact Hne | apply digits_in_plain | apply digits_in_plain
      | exact Hlen ].
  destruct (digits_in a); [ congruence | reflexivity ].
Qed.

(** ** More than one decimal point *)

Lemma points_cons c s :
  points (c :: s) = ((if N.eq_dec c 46 then 1 else 0) + points s)%nat.
Proof. unfold points. simpl. destruct (N.eq_dec c 46); reflexivity. Qed.

Lemma points_app a b : points (a ++ b) = (points a + points b)%nat.
Proof. apply count_occ_app. Qed.

Lemma points_none s : (forall c, In c s -> c <> 46) -> points s = 0%nat.
Proof.
  intros H. unfold points. apply count_occ_not_In. intros Hin.
  apply (H 46 Hin). reflexivity.
Qed.

Lemma points_digits s : forallb is_ascii_digit s = true -> points s = 0%nat.
Proof.
  intros H. apply points_none. intros c Hc ->.
  rewrite forallb_forall in H. specialize (H _ Hc). discriminate.
Qed.

Lemma parse_sign_points s : points (snd (parse_sign s)) = points s.
Proof.
  destruct s as [ | c r ]; [ reflexivity | ].
  destruct c as [ | q ]; [ reflexivity | ].
  repeat (destruct q as [ q | q | ]; try reflexivity).
Qed.

Lemma lower_point c : lower c = 46 -> c = 46.
Proof.
  unfold lower. destruct ((65 <=? c) && (c <=? 90)) eqn:E; [ | auto ].
  apply andb_true_iff in E. destruct E as [E1 E2].
  apply N.leb_le in E1, E2. lia.
Qed.

Lemma nocase_points (kw body r : str) :
  ~ In 46 kw -> starts_with_nocase kw body = Some r ->
  points body = points r.
Proof.
  unfold starts_with_nocase, is_prefix. intros Hkw.
  destruct (starts_with kw (map lower (firstn (List.length kw) body)))
    as [rest | ] eqn:E; cbv beta match; [ | discriminate ].
  intros H. injection H as <-. apply starts_with_spec in E.
  rewrite <- (firstn_skipn (List.length kw) body) at 1.
  rewrite points_app.
  assert (Hrest : rest = []).
  { assert (L : List.length (map lower (firstn (List.length kw) body))
                = (List.length kw + List.length rest)%nat)
      by (rewrite E, length_app; reflexivity).
    rewrite length_map, length_firstn in L.
    destruct rest; [ reflexivity | simpl in L; lia ]. }
  subst rest. rewrite app_nil_r in E.
  rewrite points_none; [ reflexivity | ].
  intros c Hc ->. apply Hkw. rewrite <- E.
  apply in_map_iff. exists 46. split; [ reflexivity | exact Hc ].
Qed.

Lemma parse_exponent_points s k : parse_exponent s = Some k -> points s = 0%nat.
Proof.
  unfold parse_exponent. rewrite <- (parse_sign_points s).
  destruct (parse_sign s) as [neg ds]. cbn [snd].
  destruct ds as [ | c r ]; [ discriminate | ].
  destruct (forallb is_ascii_digit (c :: r)) eqn:E; [ | discriminate ].
  intros _. apply points_digits, E.
Qed.

Lemma point_split r1 fp r2 :
  match r1 with
  | 46 :: r => span is_ascii_digit r
  | _ => ([], r1)
  end = (fp, r2) ->
  (points r1 <= 1 + points r2)%nat /\ forallb is_ascii_digit fp = true.
Proof.
  destruct r1 as [ | c r ].
  - intros H. injection H as <- <-. split; [ simpl; lia | reflexivity ].
  - destruct (N.eq_dec c 46) as [-> | Hc].
    + intros H. apply span_spec in H. destruct H as [-> Hfp].
      split; [ | exact Hfp ].
      rewrite points_cons, points_app, (points_digits fp Hfp).
      destruct (N.eq_dec 46 46); lia.
    + intros H.
      assert (E : (fp, r2) = ([], c :: r)).
      { rewrite <- H. destruct c as [ | q ]; [ reflexivity | ].
        repeat (destruct q as [ q | q | ]; try reflexivity). congruence. }
      injection E as -> ->. split; [ lia | reflexivity ].
Qed.

Lemma parse_finite_points neg s d :
  parse_finite neg s = Some d -> (points s <= 1)%nat.
Proof.
  unfold parse_finite.
  destruct (span is_ascii_digit s) as [ip r1] eqn:Hs.
  apply span_spec in Hs. destruct Hs as [-> Hip].
  destruct (match r1 with
            | 46 :: r => span is_ascii_digit r
            | _ => ([], r1)
            end) as [fp r2] eqn:Hr.
  apply point_split in Hr. destruct Hr as [Hr Hfp].
  destruct (ip ++ fp); [ discriminate | ].
  intros H.
  assert (H2 : points r2 = 0%nat).
  { destruct r2 as [ | x r ]; [ reflexivity | ].
    destruct ((x =? 101) || (x =? 69)) eqn:Hx; [ | discriminate ].
    destruct (parse_exponent r) as [k | ] eqn:Hk; [ | discriminate ].
    rewrite points_cons, (parse_exponent_points _ _ Hk).
    destruct (N.eq_dec x 46) as [-> | _]; [ discriminate | reflexivity ]. }
  rewrite points_app, (points_digits ip Hip). lia.
Qed.

Lemma parse_payload_points r p : parse_payload r = Some p -> points r = 0%nat.
Proof.
  unfold parse_payload.
  destruct (forallb is_ascii_digit r) eqn:E; [ | discriminate ].
  intros _. apply points_digits, E.
Qed.

Lemma keyword_points (kw : str) :
  In kw [lit "nan"; lit "snan"; lit "inf"] -> ~ In 46 kw.
Proof.
  intros [<- | [<- | [<- | []]]] H; simpl in H;
    repeat (destruct H as [H | H]; [ discriminate | ]); exact H.
Qed.

Lemma parse_numeric_string_points s d :
  parse_numeric_string s = Some d -> (points s <= 1)%nat.
Proof.
  unfold parse_numeric_string. rewrite <- (parse_sign_points s).
  destruct (parse_sign s) as [neg body]. cbn [snd].
  destruct (starts_with_nocase (lit "nan") body) as [r | ] eqn:E1.
  { destruct (parse_payload r) as [p | ] eqn:Hp; [ | discriminate ].
    intros _. rewrite (nocase_points _ _ _
               (keyword_points (lit "nan") ltac:(simpl; auto)) E1).
    rewrite (parse_payload_points _ _ Hp). lia. }
  destruct (starts_with_nocase (lit "snan") body) as [r | ] eqn:E2.
  { destruct (parse_payload r) as [p | ] eqn:Hp; [ | discriminate ].
    intros _. rewrite (nocase_points _ _ _
               (keyword_points (lit "snan") ltac:(simpl; auto)) E2).
    rewrite (parse_payload_points _ _ Hp). lia. }
  destruct (starts_with_nocase (lit "inf") body) as [r | ] eqn:E3.
  { destruct (str_eqb r [] || str_eqb (map lower r) (lit "inity")) eqn:Hr;
      [ | discriminate ].
    intros _. rewrite (nocase_points _ _ _
               (keyword_points (lit "inf") ltac:(simpl; auto)) E3).
    rewrite points_none; [ lia | ].
    intros c Hc ->. apply orb_true_iff in Hr. destruct Hr as [Hr | Hr];
      apply str_eqb_eq in Hr.
    - subst r. destruct Hc.
    - assert (Hin : In 46 (map lower r))
        by (apply in_map_iff; exists 46; split; [ reflexivity | exact Hc ]).
      rewrite Hr in Hin. simpl in Hin.
      repeat (destruct Hin as [Hin | Hin]; [ discriminate | ]).
      exact Hin. }
  apply parse_finite_points.
Qed.

Lemma ascii_chars_points t a : ascii_chars t = Some a -> points a = points t.
Proof.
  revert a. induction t as [ | x r IH ]; intros a H.
  - injection H as <-. reflexivity.
  - cbn [ascii_chars] in H. rewrite points_cons.
    destruct (N.eqb_spec x 95) as [-> | _].
    + rewrite (IH _ H). reflexivity.
    + destruct (ascii_chars r) as [r' | ].
      * destruct ((0 <? x) && (x <=? 127)) eqn:Hx.
        -- injection H as <-. rewrite points_cons, (IH _ eq_refl).
           reflexivity.
        -- destruct (to_decimal x) as [v | ]; [ | discriminate ].
           unfold option_map in H. remember (48 + v) as w eqn:Hw.
           injection H as <-. rewrite points_cons, (IH _ eq_refl).
           destruct (N.eq_dec w 46) as [-> | _]; [ clear - Hw; lia | ].
           destruct (N.eq_dec x 46) as [-> | _]; [ discriminate | ].
           reflexivity.
      * destruct ((0 <? x) && (x <=? 127)); [ discriminate | ].
        destruct (option_map (fun v => 48 + v) (to_decimal x));
          discriminate.
Qed.

Lemma lstrip_points t : points (lstrip_with isspace t) = points t.
Proof.
  induction t as [ | x r IH ]; [ reflexivity | ].
  cbn [lstrip_with]. destruct (isspace x) eqn:E; [ | reflexivity ].
  rewrite IH, points_cons.
  destruct (N.eq_dec x 46) as [-> | _]; [ discriminate | reflexivity ].
Qed.

Lemma points_rev s : points (rev s) = points s.
Proof. apply count_occ_rev. Qed.

Lemma strip_points t : points (strip t) = points t.
Proof.
  unfold strip, strip_with, rstrip_with.
  rewrite points_rev, lstrip_points, points_rev. apply lstrip_points.
Qed.

(** X13: a text whose cleaned form has two decimal points or more is
    refused with a ValueError: a number written with points or commas
    between the thousands and another before the decimals is not read as
    some other number. *)
Theorem parse_price_two_points (text : str) :
  (2 <= points (clean_price text))%nat ->
  parse_price text = Raise ValueError.
Proof.
  intros H. destruct (parse_price text) as [d | e] eqn:Hp.
  - exfalso. unfold parse_price in Hp.
    assert (Hd : Decimal_of_str (clean_price text) = Ok d).
    { destruct (clean_price text); [ discriminate | ].
      destruct (Decimal_of_str (c :: s)) as [d' | [ | ]]; congruence. }
    unfold Decimal_of_str, numeric_as_ascii in Hd.
    destruct (ascii_chars (strip (clean_price text))) as [a | ] eqn:Ha;
      [ | discriminate ].
    destruct (parse_numeric_string a) as [d' | ] eqn:Hn; [ | discriminate ].
    apply parse_numeric_string_points in Hn.
    rewrite (ascii_chars_points _ _ Ha), strip_points in Hn. lia.
  - apply parse_price_raises in Hp. subst e. reflexivity.
Qed.

(** ** Filtering and sorting in either order *)

Lemma eqb_refl_numeric d : numeric d -> eqb d d = true.
Proof.
  intros _. apply eqb_le. destruct (le_total d d); auto.
Qed.

Lemma priced_In p lot lots : In lot (priced p lots) -> In lot lots.
Proof. unfold priced. intros H. apply filter_In in H. apply H. Qed.

Lemma priced_self lot lots :
  numeric (price lot) -> In lot lots -> In lot (priced (price lot) lots).
Proof.
  intros Hn Hin. unfold priced. apply filter_In. split; [ exact Hin | ].
  apply eqb_refl_numeric, Hn.
Qed.

Lemma descending_head x r y :
  descending (x :: r) -> numeric (price x) -> In y (x :: r) ->
  le (price y) (price x).
Proof.
  intros Hd Hn [<- | Hin].
  - destruct (le_total (price x) (price x)); assumption.
  - inversion Hd as [ | ? ? _ Hall ]; subst. rewrite Forall_forall in Hall.
    specialize (Hall _ Hin). apply Decimal_ge_le in Hall. apply Hall.
Qed.

(** Two lists with prices going down that hold the same lots of every
    price in the same order are one list. *)
Lemma descending_unique l1 l2 :
  descending l1 -> descending l2 -> numeric_lots l1 -> numeric_lots l2 ->
  (forall p, numeric p -> priced p l1 = priced p l2) ->
  l1 = l2.
Proof.
  revert l2. induction l1 as [ | x r1 IH ]; intros l2 Hd1 Hd2 Hn1 Hn2 Hp.
  - destruct l2 as [ | y r2 ]; [ reflexivity | ].
    inversion Hn2 as [ | ? ? Hy _ ]; subst.
    assert (Hin : In y (priced (price y) (y :: r2)))
      by (apply priced_self; [ exact Hy | left; reflexivity ]).
    rewrite <- (Hp _ Hy) in Hin. destruct Hin.
  - inversion Hn1 as [ | ? ? Hx Hn1' ]; subst.
    assert (Hx2 : In x l2).
    { apply (priced_In (price x)). rewrite <- (Hp _ Hx).
      apply priced_self; [ exact Hx | left; reflexivity ]. }
    destruct l2 as [ | y r2 ]; [ destruct Hx2 | ].
    inversion Hn2 as [ | ? ? Hy Hn2' ]; subst.
    assert (Hy1 : In y (x :: r1)).
    { apply (priced_In (price y)). rewrite (Hp _ Hy).
      apply priced_self; [ exact Hy | left; reflexivity ]. }
    assert (Hxy : eqb (price y) (price x) = true).
    { apply eqb_le. split.
      - eapply descending_head; eassumption.
      - eapply descending_head; eassumption. }
    assert (Hhead : x = y).
    { specialize (Hp _ Hx). unfold priced in Hp. cbn [filter] in Hp.
      rewrite (eqb_refl_numeric _ Hx), Hxy in Hp. congruence. }
    subst y. f_equal. apply IH.
    + inversion Hd1; assumption.
    + inversion Hd2; assumption.
    + exact Hn1'.
    + exact Hn2'.
    + intros p Hpn. specialize (Hp _ Hpn). unfold priced in Hp |- *.
      cbn [filter] in Hp. destruct (eqb (price x) p); congruence.
Qed.

Lemma descending_filter f lots :
  descending lots -> descending (filter f lots).
Proof.
  unfold descending. induction 1 as [ | x r Hr IH Hall ];
    [ constructor | ].
  cbn [filter]. destruct (f x); [ | exact IH ].
  constructor; [ exact IH | ].
  rewrite Forall_forall in Hall |- *. intros y Hy.
  apply filter_In in Hy. apply Hall, Hy.
Qed.

Lemma filter_swap {A} (f g : A -> bool) l :
  filter f (filter g l) = filter g (filter f l).
Proof.
  induction l as [ | x r IH ]; [ reflexivity | ].
  cbn [filter]. destruct (f x) eqn:Hf, (g x) eqn:Hg; cbn [filter];
    rewrite ?Hf, ?Hg, IH; reflexivity.
Qed.

(** X14: on lots and bounds that are numbers it makes no difference
    whether the lots are filtered and then sorted, as [main] does, or
    sorted and then filtered: both ways end in the same list. *)
Theorem filter_then_sort (lots : list Lot) (lo hi : option Decimal) :
  numeric_lots lots -> numeric_bound lo -> numeric_bound hi ->
  exists kept all_sorted out,
    filter_lots_by_price lots lo hi = Ok kept
    /\ sort_descending kept = Ok out
    /\ sort_descending lots = Ok all_sorted
    /\ filter_lots_by_price all_sorted lo hi = Ok out.
Proof.
  intros Hl Hlo Hhi.
  set (w := fun lot => within lo hi (price lot)).
  destruct (sort_descending_numeric lots Hl)
    as (all_sorted & Ea & Pa & Da & Fa).
  destruct (sort_descending_numeric (filter w lots)
              (numeric_lots_filter w lots Hl))
    as (out & Eo & Po & Do & Fo).
  assert (Hna : numeric_lots all_sorted)
    by (eapply Permutation_Forall; eassumption).
  exists (filter w lots), all_sorted, out.
  split; [ apply filter_lots_by_price_numeric; assumption | ].
  split; [ exact Eo | ]. split; [ exact Ea | ].
  rewrite filter_lots_by_price_numeric by assumption. f_equal.
  fold w. apply descending_unique.
  - apply descending_filter, Da.
  - exact Do.
  - apply numeric_lots_filter, Hna.
  - eapply Permutation_Forall; [ exact Po | ].
    apply numeric_lots_filter, Hl.
  - intros p Hp. rewrite (Fo p Hp). unfold priced.
    rewrite filter_swap. fold (priced p all_sorted).
    rewrite (Fa p Hp). unfold priced. apply filter_swap.
Qed.

(** ** A NaN among the bounds or the prices *)

Lemma sort_descending_raise_cases lots e :
  sort_descending lots = Raise e ->
  e = InvalidOperation
  /\ (2 <= List.length lots)%nat /\ has_nan lots = true.
Proof.
  intros H. destruct (has_nan lots) eqn:Hnan.
  - destruct lots as [ | x [ | y r ] ]; try discriminate.
    rewrite sort_descending_nan_raises in H;
      [ | simpl; lia | exact Hnan ].
    split; [ congruence | ]. split; [ simpl; lia | reflexivity ].
  - apply existsb_false_Forall in Hnan.
    destruct (sort_descending_numeric lots Hnan) as (out & E & _).
    congruence.
Qed.

Lemma filter_lots_by_price_bounded lots lo hi :
  lo <> None \/ hi <> None ->
  filter_lots_by_price lots lo hi
  = if existsb (fun lot => compares_nan lo hi (price lot)) lots
    then Raise InvalidOperation
    else Ok (filter (fun lot => within lo hi (price lot)) lots).
Proof.
  intros Hb.
  assert (E : filter_lots_by_price lots lo hi
              = filterM (fun lot => in_range lo hi (price lot)) lots).
  { unfold filter_lots_by_price. destruct lo, hi; try reflexivity.
    destruct Hb as [Hb | Hb]; congruence. }
  rewrite E. apply filterM_outcome. intros lot. apply in_range_outcome.
Qed.

Section ProgramFailure.

Variable BeautifulSoup : str -> PageElement.
Variable nfkc : str -> str.
Variable host_ok : str -> bool.

(** X15: with a bound from the arguments, [main] fails exactly when the
    filter compares a NaN, or the sort is given two lots or more of which
    one has a NaN as price.  It fails with [InvalidOperation] then, and
    before a line is read or printed. *)
Theorem main_fails_on_nan (html : str) (min_arg max_arg : option str)
    (lots : list Lot) (lo hi : option Decimal) (w w' : World)
    (f : failure) :
  parse_lots BeautifulSoup nfkc host_ok html = Ok lots ->
  parse_price_arg min_arg = Ok lo ->
  parse_price_arg max_arg = Ok hi ->
  lo <> None \/ hi <> None ->
  main BeautifulSoup nfkc host_ok html min_arg max_arg w = (Failed f, w')
  <-> f = Exception InvalidOperation
      /\ w' = w
      /\ (existsb (fun lot => compares_nan lo hi (price lot)) lots = true
          \/ ((2 <= List.length
                      (filter (fun lot => within lo hi (price lot)) lots))%nat
              /\ has_nan
                   (filter (fun lot => within lo hi (price lot)) lots)
                 = true)).
Proof.
  intros Hp Hmin Hmax Hb.
  set (kept := filter (fun lot => within lo hi (price lot)) lots).
  assert (E : main BeautifulSoup nfkc host_ok html min_arg max_arg w
              = (filtered <~ lift (filter_lots_by_price lots lo hi) ;;
                 sorted_lots <~ lift (sorted filtered price true) ;;
                 _ <~ print_lots sorted_lots ;;
                 io_ret sorted_lots) w).
  { unfold main. unfold io_bind at 1. unfold lift at 1. rewrite Hp.
    unfold io_bind at 1. unfold lift at 1. rewrite Hmin.
    unfold io_bind at 1. unfold lift at 1. rewrite Hmax.
    unfold io_bind at 1.
    destruct lo, hi; try reflexivity.
    destruct Hb as [Hb | Hb]; congruence. }
  rewrite E. unfold io_bind, lift, io_ret.
  rewrite (filter_lots_by_price_bounded lots lo hi Hb). fold kept.
  destruct (existsb (fun lot => compares_nan lo hi (price lot)) lots).
  - split.
    + intros H. injection H as <- <-. auto.
    + intros (-> & -> & _). reflexivity.
  - fold (sort_descending kept).
    destruct (sort_descending kept) as [out | e] eqn:Es.
    + rewrite print_lots_lines. split; [ discriminate | ].
      intros (_ & _ & [H | [Hlen Hnan]]); [ discriminate | ].
      rewrite (sort_descending_nan_raises kept Hlen Hnan) in Es.
      discriminate.
    + apply sort_descending_raise_cases in Es.
      destruct Es as (-> & Hlen & Hnan). split.
      * intros H. injection H as <- <-. auto.
      * intros (-> & -> & _). reflexivity.
Qed.

End ProgramFailure.

(** ** Targets under the root *)

Lemma partition_at_absent c s :
  contains c s = false -> partition_at c s = (s, None).
Proof.
  induction s as [ | x r IH ]; [ reflexivity | ].
  unfold contains. cbn [existsb partition_at]. intros H.
  apply orb_false_iff in H. destruct H as [Hx Hr].
  rewrite N.eqb_sym, Hx. fold (contains c r) in Hr. rewrite (IH Hr).
  reflexivity.
Qed.

Lemma partition_at_first c a b :
  contains c a = false -> partition_at c (a ++ c :: b) = (a, Some b).
Proof.
  induction a as [ | x r IH ]; intros H.
  - cbn [app partition_at]. rewrite N.eqb_refl. reflexivity.
  - unfold contains in H. cbn [existsb] in H.
    apply orb_false_iff in H. destruct H as [Hx Hr].
    cbn [app partition_at]. rewrite N.eqb_sym, Hx.
    fold (contains c r) in Hr. rewrite (IH Hr). reflexivity.
Qed.

Lemma contains_app c a b : contains c (a ++ b) = contains c a || contains c b.
Proof. unfold contains. apply existsb_app. Qed.

Lemma contains_forallb (f : char -> bool) c s :
  f c = false -> forallb f s = true -> contains c s = false.
Proof.
  intros Hc Hs. unfold contains.
  destruct (existsb (N.eqb c) s) eqn:E; [ | reflexivity ].
  apply existsb_exists in E. destruct E as (x & Hin & Hx).
  apply N.eqb_eq in Hx. subst x.
  rewrite forallb_forall in Hs. rewrite (Hs _ Hin) in Hc. discriminate.
Qed.

Lemma split_on_cons c s : exists p ps, split_on c s = p :: ps.
Proof.
  induction s as [ | x r IH ]; [ exists [], []; reflexivity | ].
  cbn [split_on]. destruct (x =? c); [ eauto | ].
  destruct IH as (p & ps & ->). eauto.
Qed.

Lemma join_cons sep p q ps :
  join sep (p :: q :: ps) = p ++ sep ++ join sep (q :: ps).
Proof. reflexivity. Qed.

Lemma join_split c s : join [c] (split_on c s) = s.
Proof.
  induction s as [ | x r IH ]; [ reflexivity | ].
  cbn [split_on]. destruct (N.eqb_spec x c) as [-> | Hx].
  - destruct (split_on_cons c r) as (p & ps & E). rewrite E in IH |- *.
    rewrite join_cons, IH. reflexivity.
  - destruct (split_on_cons c r) as (p & ps & E). rewrite E in IH |- *.
    destruct ps as [ | q ps ].
    + cbn [join] in IH |- *. rewrite IH. reflexivity.
    + rewrite join_cons in IH. rewrite join_cons, <- app_comm_cons.
      rewrite IH. reflexivity.
Qed.

Lemma str_eqb_neq a b : a <> b -> str_eqb a b = false.
Proof.
  unfold str_eqb. destruct (list_eq_dec N.eq_dec a b); congruence.
Qed.

Lemma resolve_plain segs acc :
  Forall (fun seg => seg <> lit "." /\ seg <> lit "..") segs ->
  resolve segs acc = rev acc ++ segs.
Proof.
  intros H. revert acc.
  induction H as [ | seg r [Hd Hdd] _ IH ]; intros acc.
  - cbn [resolve]. rewrite app_nil_r. reflexivity.
  - cbn [resolve]. rewrite (str_eqb_neq _ _ Hdd), (str_eqb_neq _ _ Hd).
    rewrite IH. cbn [rev]. rewrite <- app_assoc. reflexivity.
Qed.

Lemma remove_unsafe_plain s :
  forallb (fun c => negb (is_tab_cr_lf c)) s = true -> remove_unsafe s = s.
Proof.
  unfold remove_unsafe. induction s as [ | c r IH ]; [ reflexivity | ].
  cbn [forallb filter]. intros H. apply andb_true_iff in H.
  destruct H as [Hc Hr]. rewrite Hc, (IH Hr). reflexivity.
Qed.

Lemma forallb_impl {A} (f g : A -> bool) l :
  (forall x, f x = true -> g x = true) ->
  forallb f l = true -> forallb g l = true.
Proof.
  intros Hfg H. rewrite forallb_forall in H |- *. auto.
Qed.

Lemma path_char_printable c :
  path_char c = true -> 32 < c /\ c < 127 /\ c <> 35 /\ c <> 63 /\ c <> 59.
Proof.
  unfold path_char, is_ascii_alpha, is_ascii_digit. intros H.
  repeat match type of H with
         | (_ || _) = true => apply orb_true_iff in H; destruct H as [H | H]
         | (_ && _) = true => apply andb_true_iff in H; destruct H as [H H']
         end;
    repeat match goal with
           | H : (_ <=? _) = true |- _ => apply N.leb_le in H
           | H : (_ =? _) = true |- _ => apply N.eqb_eq in H
           end; lia.
Qed.

Lemma query_char_printable c :
  query_char c = true -> 32 < c /\ c < 127 /\ c <> 35.
Proof.
  unfold query_char. intros H.
  apply andb_true_iff in H. destruct H as [H H3].
  apply andb_true_iff in H. destruct H as [H1 H2].
  apply N.ltb_lt in H1, H2. apply negb_true_iff, N.eqb_neq in H3. auto.
Qed.

Section RootRelative.

Variable nfkc : str -> str.
Variable host_ok : str -> bool.

Lemma with_query_chars p q :
  forallb path_char p = true -> forallb query_char q = true ->
  forallb query_char (with_query (lit "/" ++ p) q) = true.
Proof.
  intros Hp Hq.
  assert (Hp' : forallb query_char (lit "/" ++ p) = true).
  { rewrite forallb_app. apply andb_true_iff. split; [ reflexivity | ].
    revert Hp. apply forallb_impl. intros c Hc.
    apply path_char_printable in Hc. destruct Hc as (H1 & H2 & H3 & _).
    apply N.ltb_lt in H1, H2. apply N.eqb_neq in H3.
    unfold query_char. rewrite H1, H2, H3. reflexivity. }
  unfold with_query. destruct q as [ | c q' ]; [ exact Hp' | ].
  rewrite forallb_app, Hp'. cbn [andb]. rewrite forallb_app.
  apply andb_true_iff. split; [ reflexivity | exact Hq ].
Qed.

Lemma urlsplit_root_relative p q :
  forallb path_char p = true -> is_prefix (lit "/") p = false ->
  forallb query_char q = true ->
  urlsplit nfkc host_ok (with_query (lit "/" ++ p) q) (lit "https")
  = Ok {| sr_scheme := lit "https"; sr_netloc := [];
          sr_path := lit "/" ++ p; sr_query := q; sr_fragment := [] |}.
Proof.
  intros Hp Hs Hq.
  pose proof (with_query_chars p q Hp Hq) as Hall.
  assert (Hu : remove_unsafe (with_query (lit "/" ++ p) q)
               = with_query (lit "/" ++ p) q).
  { apply remove_unsafe_plain. revert Hall. apply forallb_impl.
    intros c Hc. apply query_char_printable in Hc.
    destruct Hc as (Hc & _). unfold is_tab_cr_lf.
    destruct (N.eqb_spec c 9); [ lia | ].
    destruct (N.eqb_spec c 13); [ lia | ].
    destruct (N.eqb_spec c 10); [ lia | ]. reflexivity. }
  assert (Hfrag : contains 35 (with_query (lit "/" ++ p) q) = false).
  { revert Hall. apply contains_forallb. reflexivity. }
  assert (Hpath : contains 63 (lit "/" ++ p) = false).
  { rewrite contains_app. change (contains 63 (lit "/")) with false.
    cbn [orb]. revert Hp. apply contains_forallb. reflexivity. }
  assert (Hquery : partition_at 63 (with_query (lit "/" ++ p) q)
                   = (lit "/" ++ p, match q with [] => None | _ => Some q end)).
  { unfold with_query. destruct q as [ | c q' ].
    - apply partition_at_absent, Hpath.
    - change (lit "?" ++ c :: q') with (63 :: c :: q').
      apply partition_at_first, Hpath. }
  assert (Hslash : starts_with (lit "//") (with_query (lit "/" ++ p) q)
                   = None).
  { unfold with_query, is_prefix in *.
    change (lit "/" ++ p) with (47 :: p).
    change (lit "//") with [47; 47]. change (lit "/") with [47] in Hs.
    destruct p as [ | c p' ].
    - destruct q; reflexivity.
    - cbn [starts_with] in Hs. 
      assert (Hc : (47 =? c) = false) by (destruct (47 =? c); congruence).
      destruct q; cbn [app starts_with];
        rewrite N.eqb_refl, Hc; reflexivity. }
  assert (Hhead : exists t, with_query (lit "/" ++ p) q = 47 :: t).
  { unfold with_query. change (lit "/" ++ p) with (47 :: p).
    destruct q; cbn [app]; eauto. }
  unfold urlsplit.
  replace (lstrip_with is_c0_or_space (with_query (lit "/" ++ p) q))
    with (with_query (lit "/" ++ p) q)
    by (destruct Hhead as (t & ->); reflexivity).
  rewrite Hu.
  change (remove_unsafe (strip_with is_c0_or_space (lit "https")))
    with (lit "https").
  assert (Hscheme :
            match partition_at 58 (with_query (lit "/" ++ p) q) with
            | ((c :: _) as pre, Some rest) =>
                if is_ascii_alpha c && forallb is_scheme_char pre
                then (map lower pre, rest)
                else (lit "https", with_query (lit "/" ++ p) q)
            | _ => (lit "https", with_query (lit "/" ++ p) q)
            end = (lit "https", with_query (lit "/" ++ p) q)).
  { destruct Hhead as (t & ->). cbn [partition_at].
    change (47 =? 58) with false. cbv iota.
    destruct (partition_at 58 t) as [a [b | ]]; reflexivity. }
  rewrite Hscheme. rewrite Hslash. cbn [bind].
  rewrite (partition_at_absent _ _ Hfrag). rewrite Hquery.
  destruct q; reflexivity.
Qed.

Lemma urlparse_root_relative p q :
  forallb path_char p = true -> is_prefix (lit "/") p = false ->
  forallb query_char q = true ->
  urlparse nfkc host_ok (with_query (lit "/" ++ p) q) (lit "https")
  = Ok {| pr_scheme := lit "https"; pr_netloc := [];
          pr_path := lit "/" ++ p; pr_params := []; pr_query := q;
          pr_fragment := [] |}.
Proof.
  intros Hp Hs Hq. unfold urlparse.
  rewrite (urlsplit_root_relative p q Hp Hs Hq). cbn [bind].
  cbn [sr_scheme sr_netloc sr_path sr_query sr_fragment].
  assert (Hsemi : contains 59 (lit "/" ++ p) = false).
  { rewrite contains_app. change (contains 59 (lit "/")) with false.
    cbn [orb]. revert Hp. apply contains_forallb. reflexivity. }
  rewrite Hsemi, andb_false_r. reflexivity.
Qed.

Lemma last_split_on_In c s :
  In (List.last (split_on c s) []) (split_on c s).
Proof.
  destruct (split_on_cons c s) as (p & ps & ->).
  destruct (exists_last (l := p :: ps)) as (l' & a & E); [ discriminate | ].
  rewrite E, last_last. apply in_or_app. right. left. reflexivity.
Qed.

(** X16: a target that starts with one slash and is made of plain path
    characters, without a segment [.] or [..], with or without a query, is
    resolved to the base address followed by the target as it stands. *)
Theorem urljoin_root_relative (p q : str) :
  forallb path_char p = true -> is_prefix (lit "/") p = false ->
  no_dot_segments p -> forallb query_char q = true ->
  urljoin nfkc host_ok BASE_URL (with_query (lit "/" ++ p) q)
  = Ok (BASE_URL ++ with_query (lit "/" ++ p) q).
Proof.
  intros Hp Hs Hd Hq. unfold urljoin.
  change (nonempty BASE_URL) with true. cbv iota beta. cbn [negb].
  assert (Hne : nonempty (with_query (lit "/" ++ p) q) = true).
  { unfold with_query. change (lit "/" ++ p) with (47 :: p).
    destruct q; reflexivity. }
  rewrite Hne. cbn [negb]. rewrite urlparse_base. cbn [bind pr_scheme].
  rewrite (urlparse_root_relative p q Hp Hs Hq). cbn [bind].
  cbn [pr_scheme pr_netloc pr_path pr_params pr_query pr_fragment].
  change (str_eqb (lit "https") (lit "https")) with true.
  change (mem (lit "https") uses_relative) with true.
  change (mem (lit "https") uses_netloc) with true.
  cbn [negb orb andb nonempty].
  change (lit "/" ++ p) with (47 :: p). cbn [nonempty negb andb].
  change (is_prefix (lit "/") (47 :: p)) with true. cbv iota.
  assert (Hseg : split_on 47 (47 :: p) = [] :: split_on 47 p)
    by reflexivity.
  rewrite Hseg.
  assert (Hdots : Forall (fun seg => seg <> lit "." /\ seg <> lit "..")
                    ([] :: split_on 47 p)).
  { constructor; [ split; discriminate | exact Hd ]. }
  rewrite (resolve_plain _ [] Hdots). cbn [rev app].
  assert (Hlast : List.last ([] :: split_on 47 p) []
                  = List.last (split_on 47 p) []).
  { destruct (split_on_cons 47 p) as (a & ps & ->). reflexivity. }
  repeat match goal with
         | |- context [str_eqb ?X _] =>
             lazymatch X with
             | context [@nil] =>
                 replace X with (List.last (split_on 47 p) [])
                   by (symmetry; exact Hlast)
             end
         end.
  pose proof (last_split_on_In 47 p) as Hin.
  unfold no_dot_segments in Hd. rewrite Forall_forall in Hd.
  destruct (Hd _ Hin) as [Hn1 Hn2].
  rewrite (str_eqb_neq _ _ Hn1), (str_eqb_neq _ _ Hn2). cbn [orb].
  assert (Hjoin : join (lit "/") ([] :: split_on 47 p) = 47 :: p).
  { destruct (split_on_cons 47 p) as (a & ps & E). rewrite E.
    rewrite join_cons, <- E. change (lit "/") with [47].
    rewrite join_split. reflexivity. }
  rewrite Hjoin. cbn [nonempty].
  unfold urlunparse.
  cbn [pr_scheme pr_netloc pr_path pr_params pr_query pr_fragment nonempty].
  unfold urlunsplit.
  change (nonempty (lit "torgi.org")) with true. cbn [orb andb nonempty].
  change (is_prefix (lit "/") (47 :: p)) with true. cbn [negb andb].
  change (nonempty (lit "https")) with true. cbv iota.
  unfold with_query. destruct q as [ | c q' ]; cbn [nonempty].
  - reflexivity.
  - unfold BASE_URL. change (lit "https://torgi.org")
      with (lit "https" ++ lit ":" ++ lit "//" ++ lit "torgi.org").
    rewrite <- !app_assoc. reflexivity.
Qed.

End RootRelative.

(** ** The further properties on sample inputs *)

Lemma parse_lots_keeps_row_witness :
  parse_lots sample_parser no_nfkc any_host synthetic_html = Ok synthetic_lots
  /\ In synthetic_row (find_all (lit "tr") (sample_parser synthetic_html))
  /\ qualifies synthetic_row
  /\ cell_text synthetic_row 5 = Some (lit "1 000,50 " ++ RUB ++ lit ".")
  /\ parse_price (lit "1 000,50 " ++ RUB ++ lit ".")
     = Ok (Finite false 100050 (-2))
  /\ exists lot,
       In lot synthetic_lots
       /\ cell_text synthetic_row 0 = Some (code lot)
       /\ cell_text synthetic_row 1 = Some (title lot)
       /\ price lot = Finite false 100050 (-2).
Proof.
  assert (Hq : qualifies synthetic_row).
  { split; [ vm_compute; lia | ].
    exists (lit "42"). split; vm_compute; reflexivity. }
  assert (Hin : In synthetic_row
                  (find_all (lit "tr") (sample_parser synthetic_html)))
    by (vm_compute; left; reflexivity).
  repeat (split; [ first [ exact Hq | exact Hin | vm_compute; reflexivity ] | ]).
  apply (parse_lots_keeps_row sample_parser no_nfkc any_host synthetic_html
           synthetic_lots synthetic_row
           (lit "1 000,50 " ++ RUB ++ lit ".") (Finite false 100050 (-2)));
    first [ exact Hq | exact Hin | vm_compute; reflexivity ].
Defined.

Lemma parse_lots_url_witness :
  parse_lots sample_parser no_nfkc any_host synthetic_html = Ok synthetic_lots
  /\ Forall
       (fun lot =>
          exists row name_cell,
            In row (find_all (lit "tr") (sample_parser synthetic_html))
            /\ qualifies row
            /\ lot_of_row no_nfkc any_host row lot
            /\ nth_error (cells row) 1 = Some name_cell
            /\ match find_with_attr (lit "a") (lit "href") name_cell with
               | Some (_, href) =>
                   exists u, urljoin no_nfkc any_host BASE_URL href = Ok u
                             /\ url lot = Some u /\ u <> []
               | None => url lot = None
               end)
       synthetic_lots.
Proof.
  split; [ vm_compute; reflexivity | ].
  apply (parse_lots_url sample_parser no_nfkc any_host synthetic_html
           synthetic_lots).
  vm_compute. reflexivity.
Defined.

Lemma filter_lots_by_price_outcome_witness :
  (Some (Finite false 100 0) <> None \/ @None Decimal <> None)
  /\ filter_lots_by_price (sample_lots ++ [nan_lot])
       (Some (Finite false 100 0)) None
     = Raise InvalidOperation
  /\ filter_lots_by_price sample_lots (Some (Finite false 100 0)) None
     = Ok [ lot_at "1" "a" (Finite false 500 0);
            lot_at "2" "b" (Finite false 70000 (-2));
            lot_at "3" "c" (Finite false 5 2);
            lot_at "4" "d" (Finite false 100 0) ].
Proof.
  assert (H : Some (Finite false 100 0) <> None \/ @None Decimal <> None)
    by (left; discriminate).
  split; [ exact H | ].
  split; rewrite (filter_lots_by_price_outcome _ _ _ H); reflexivity.
Defined.

Lemma sort_descending_raises_witness :
  (2 <= List.length (sample_lots ++ [nan_lot]))%nat
  /\ has_nan (sample_lots ++ [nan_lot]) = true
  /\ sort_descending (sample_lots ++ [nan_lot]) = Raise InvalidOperation.
Proof.
  assert (Hlen : (2 <= List.length (sample_lots ++ [nan_lot]))%nat)
    by (vm_compute; lia).
  split; [ exact Hlen | ]. split; [ reflexivity | ].
  apply (proj2 (sort_descending_raises (sample_lots ++ [nan_lot])
                  InvalidOperation)).
  split; [ reflexivity | ]. split; [ exact Hlen | reflexivity ].
Defined.

Lemma sort_descending_sorted_witness :
  descending [ lot_at "2" "b" (Finite false 70000 (-2));
               lot_at "1" "a" (Finite false 500 0);
               lot_at "3" "c" (Finite false 5 2) ]
  /\ sort_descending [ lot_at "2" "b" (Finite false 70000 (-2));
                       lot_at "1" "a" (Finite false 500 0);
                       lot_at "3" "c" (Finite false 5 2) ]
     = Ok [ lot_at "2" "b" (Finite false 70000 (-2));
            lot_at "1" "a" (Finite false 500 0);
            lot_at "3" "c" (Finite false 5 2) ].
Proof.
  assert (H : descending [ lot_at "2" "b" (Finite false 70000 (-2));
                           lot_at "1" "a" (Finite false 500 0);
                           lot_at "3" "c" (Finite false 5 2) ])
    by (repeat constructor).
  split; [ exact H | ].
  apply (proj1 (sort_descending_sorted _) H).
Defined.

Lemma ask_price_first_answer_witness :
  Forall (fun line => answer line = None) [lit "abc"; lit "1.2.3"]
  /\ answer (lit " 12,5 ") = Some (Some (Finite false 125 (-1)))
  /\ ask_price (lit "> ")
       {| stdin := [lit "abc"; lit "1.2.3"; lit " 12,5 "; lit "7"];
          stdout := [] |}
     = (Done (Some (Finite false 125 (-1))),
        {| stdin := [lit "7"];
           stdout := [ lit "> "; retry_message ++ [10];
                       lit "> "; retry_message ++ [10]; lit "> " ] |}).
Proof.
  assert (H : Forall (fun line => answer line = None)
                [lit "abc"; lit "1.2.3"])
    by (repeat constructor).
  split; [ exact H | ]. split; [ vm_compute; reflexivity | ].
  apply (proj1 (ask_price_first_answer (lit "> ") [lit "abc"; lit "1.2.3"]
                  [] H) (lit " 12,5 ") [lit "7"]).
  vm_compute. reflexivity.
Defined.

Lemma synthetic_lots_numeric : numeric_lots synthetic_lots.
Proof. repeat constructor. Defined.

(** The line that [main] prints for the lot of the synthetic page, with
    its address whole, and the line of a lot without address. *)
Remark lot_lines_synthetic :
  lot_lines synthetic_lots
  = [ lit "1000.50 " ++ RUB ++ lit ". | Lot A | https://torgi.org/x"
      ++ [10] ]
  /\ lot_line (lot_at "1" "a" (Finite false 500 0))
     = lit "500 " ++ RUB ++ lit ". | a | -".
Proof. split; vm_compute; reflexivity. Qed.

Lemma main_with_arguments_witness :
  parse_lots sample_parser no_nfkc any_host synthetic_html = Ok synthetic_lots
  /\ parse_price_arg (Some (lit " 1 000 ")) = Ok (Some (Finite false 1000 0))
  /\ parse_price_arg None = Ok None
  /\ main sample_parser no_nfkc any_host synthetic_html
       (Some (lit " 1 000 ")) None
       {| stdin := [lit "unread"]; stdout := [] |}
     = (Done synthetic_lots,
        {| stdin := [lit "unread"];
           stdout :=
             [ lit "1000.50 " ++ RUB
               ++ lit ". | Lot A | https://torgi.org/x" ++ [10] ] |}).
Proof.
  split; [ vm_compute; reflexivity | ].
  split; [ vm_compute; reflexivity | ].
  split; [ reflexivity | ].
  destruct (main_with_arguments sample_parser no_nfkc any_host
              synthetic_html (Some (lit " 1 000 ")) None synthetic_lots
              (Some (Finite false 1000 0)) None
              {| stdin := [lit "unread"]; stdout := [] |}
              ltac:(vm_compute; reflexivity)
              ltac:(vm_compute; reflexivity)
              ltac:(reflexivity)
              ltac:(left; discriminate)
              synthetic_lots_numeric
              ltac:(reflexivity) I)
    as (out & E & _ & P & _).
  vm_compute in P. apply Permutation_length_1_inv in P. subst out.
  rewrite E. vm_compute. reflexivity.
Defined.


Lemma main_bad_argument_witness :
  parse_lots sample_parser no_nfkc any_host synthetic_html = Ok synthetic_lots
  /\ answer (lit "1,200,000.00") = None
  /\ main sample_parser no_nfkc any_host synthetic_html
       (Some (lit "1,200,000.00")) None
       {| stdin := [lit "5"]; stdout := [] |}
     = (Failed (Exception ValueError),
        {| stdin := [lit "5"]; stdout := [] |}).
Proof.
  split; [ vm_compute; reflexivity | ].
  split; [ vm_compute; reflexivity | ].
  apply (proj1 (main_bad_argument sample_parser no_nfkc any_host
                  synthetic_html synthetic_lots (lit "1,200,000.00")
                  {| stdin := [lit "5"]; stdout := [] |}
                  ltac:(vm_compute; reflexivity)
                  ltac:(vm_compute; reflexivity))).
Defined.

Lemma printed_price_reads_back_witness :
  representable (Finite true 100050 (-2))
  /\ Decimal_str (Finite true 100050 (-2)) = lit "-1000.50"
  /\ parse_price (Decimal_str (Finite true 100050 (-2)))
     = Ok (Finite true 100050 (-2))
  /\ parse_price
       (Decimal_str (Finite true 100050 (-2)) ++ lit " " ++ RUB ++ lit ".")
     = Ok (Finite true 100050 (-2)).
Proof.
  split; [ vm_compute; reflexivity | ].
  split; [ vm_compute; reflexivity | ].
  apply (printed_price_reads_back (Finite true 100050 (-2))).
  vm_compute. reflexivity.
Defined.

Lemma parse_price_below_zero_witness :
  parse_price (lit "-5 " ++ RUB) = Ok (Finite true 5 0)
  /\ Decimal_lt (Finite true 5 0) Decimal_zero = Ok true
  /\ In 45 (lit "-5 " ++ RUB).
Proof.
  split; [ vm_compute; reflexivity | ].
  split; [ vm_compute; reflexivity | ].
  apply (parse_price_below_zero (lit "-5 " ++ RUB) (Finite true 5 0));
    vm_compute; reflexivity.
Defined.

Lemma spaced_sample : spaced (lit "1" ++ NBSP ++ lit "200 000").
Proof.
  repeat (apply Forall_cons;
          [ first [ left; reflexivity | right; left; reflexivity
                  | right; right; reflexivity ] | ]).
  apply Forall_nil.
Defined.

Lemma parse_price_grouped_witness :
  spaced (lit "1" ++ NBSP ++ lit "200 000")
  /\ spaced (lit "00")
  /\ digits_in (lit "1" ++ NBSP ++ lit "200 000") = lit "1200000"
  /\ parse_price ((lit "1" ++ NBSP ++ lit "200 000") ++ lit "," ++ lit "00"
                  ++ lit " " ++ RUB ++ lit ".")
     = Ok (Finite false 120000000 (-2)).
Proof.
  assert (Hb : spaced (lit "00")) by (repeat constructor).
  split; [ exact spaced_sample | ]. split; [ exact Hb | ].
  split; [ reflexivity | ].
  apply (parse_price_grouped (lit "1" ++ NBSP ++ lit "200 000") (lit "00")
           true spaced_sample Hb).
  - discriminate.
  - vm_compute. discriminate.
Defined.

Lemma parse_price_two_points_witness :
  (2 <= points (clean_price (lit "1,200,000.00")))%nat
  /\ parse_price (lit "1,200,000.00") = Raise ValueError.
Proof.
  assert (H : (2 <= points (clean_price (lit "1,200,000.00")))%nat)
    by (vm_compute; lia).
  split; [ exact H | ].
  apply (parse_price_two_points (lit "1,200,000.00") H).
Defined.

Lemma filter_then_sort_witness :
  numeric_lots sample_lots
  /\ exists kept all_sorted out,
       filter_lots_by_price sample_lots
         (Some (Finite false 100 0)) (Some (Finite false 500 0))
       = Ok kept
       /\ sort_descending kept = Ok out
       /\ sort_descending sample_lots = Ok all_sorted
       /\ filter_lots_by_price all_sorted
            (Some (Finite false 100 0)) (Some (Finite false 500 0))
          = Ok out.
Proof.
  split; [ exact sample_lots_numeric | ].
  apply (filter_then_sort sample_lots
           (Some (Finite false 100 0)) (Some (Finite false 500 0))
           sample_lots_numeric);
    reflexivity.
Defined.

Lemma main_fails_on_nan_witness :
  parse_lots sample_parser no_nfkc any_host synthetic_html = Ok synthetic_lots
  /\ parse_price_arg (Some (lit "nan")) = Ok (Some (NaN false false 0))
  /\ main sample_parser no_nfkc any_host synthetic_html
       (Some (lit "nan")) None {| stdin := [lit "5"]; stdout := [] |}
     = (Failed (Exception InvalidOperation),
        {| stdin := [lit "5"]; stdout := [] |}).
Proof.
  split; [ vm_compute; reflexivity | ].
  split; [ vm_compute; reflexivity | ].
  apply (proj2 (main_fails_on_nan sample_parser no_nfkc any_host
                  synthetic_html (Some (lit "nan")) None synthetic_lots
                  (Some (NaN false false 0)) None
                  {| stdin := [lit "5"]; stdout := [] |}
                  {| stdin := [lit "5"]; stdout := [] |}
                  (Exception InvalidOperation)
                  ltac:(vm_compute; reflexivity)
                  ltac:(vm_compute; reflexivity)
                  ltac:(reflexivity)
                  ltac:(left; discriminate))).
  split; [ reflexivity | ]. split; [ reflexivity | ].
  left. reflexivity.
Defined.

Lemma urljoin_root_relative_witness :
  forallb path_char (lit "index.php") = true
  /\ is_prefix (lit "/") (lit "index.php") = false
  /\ no_dot_segments (lit "index.php")
  /\ forallb query_char (lit "class=Auction&action=View&id=5") = true
  /\ urljoin no_nfkc any_host BASE_URL
       (lit "/index.php?class=Auction&action=View&id=5")
     = Ok (lit "https://torgi.org/index.php?class=Auction&action=View&id=5").
Proof.
  assert (Hd : no_dot_segments (lit "index.php")).
  { unfold no_dot_segments.
    change (split_on 47 (lit "index.php")) with [lit "index.php"].
    constructor; [ split; discriminate | constructor ]. }
  split; [ reflexivity | ]. split; [ reflexivity | ].
  split; [ exact Hd | ]. split; [ reflexivity | ].
  apply (urljoin_root_relative no_nfkc any_host (lit "index.php")
           (lit "class=Auction&action=View&id=5")
           eq_refl eq_refl Hd eq_refl).
Defined.
